(** * Release validation orchestration (RelVal/o2dpg_release_validation.py)

    A shallow embedding of the orchestration and aggregation logic of the
    release-validation script, together with the properties its
    specification states about it.

    Conventions of the embedding:
    - a Python [dict] (and a loaded JSON object) is an insertion-ordered
      association list with unique keys, see [dict];
    - a Python [set] of strings is a [gset string];
    - a Python exception is a value of [exn]; code that may raise lives in
      the error monad [py];
    - a Python float is a rational [Q]: a number that is only read and
      passed on (a JSON number, the value of an option) is the decimal
      as written; the one float the script computes, the quotient of two
      file sizes, is the exact value of the double that Python's division
      returns, see [double_round], and the threshold it is compared with
      stands for the exact value of a double;
    - the file system is consulted only through [glob], [stat], [exists],
      [relpath] and [json.load]; these are the fields of [filesystem]. *)

From Stdlib Require Import ZArith QArith Qpower List String Ascii Lia Lqa Bool.
From stdpp Require Import base decidable option list strings gmap sorting.

Local Open Scope string_scope.
Local Open Scope list_scope.

(** ** Exceptions *)

Inductive exn : Type :=
| ZeroDivisionError
| KeyError
| AttributeError
| NameError
| IndexError.

Inductive py (A : Type) : Type :=
| Ret (a : A)
| Raise (e : exn).

Arguments Ret {A} a.
Arguments Raise {A} e.

#[global] Instance py_ret : MRet py := fun A a => Ret a.

#[global] Instance py_bind : MBind py := fun A B k m =>
  match m with
  | Ret a => k a
  | Raise e => Raise e
  end.

(** A [for] loop whose body threads the loop state and may raise. *)
Fixpoint for_each {A S : Type} (l : list A) (body : S -> A -> py S) (s : S) : py S :=
  match l with
  | [] => Ret s
  | x :: l' => s' ← body s x; for_each l' body s'
  end.

(** [xs[i]] for a non-negative index. *)
Definition index {A : Type} (xs : list A) (i : nat) : py A :=
  match xs !! i with
  | Some x => Ret x
  | None => Raise IndexError
  end.

(** ** Numbers *)

(** [floor (log2 (n / d))] for positive [n] and [d]. *)
Definition log2_ratio (n d : Z) : Z :=
  let k := (Z.log2 n - Z.log2 d)%Z in
  if (n * 2 ^ Z.max 0 (- k) <? d * 2 ^ Z.max 0 k)%Z then (k - 1)%Z else k.

(** The integer nearest to [n / d], the even one of two that are equally
    near ([d] positive). *)
Definition round_half_even (n d : Z) : Z :=
  let q := (n / d)%Z in
  match (2 * (n mod d) ?= d)%Z with
  | Lt => q
  | Gt => (q + 1)%Z
  | Eq => if Z.even q then q else (q + 1)%Z
  end.

(** The exponent of the last bit that a double keeps of a number whose
    leading bit has exponent [e]: 53 bits, and none below [2^-1074]. *)
Definition last_bit (e : Z) : Z := Z.max (e - 52) (-1074).

(** The double nearest to [x], ties to even.  Python's division of
    integers returns it; a quotient of [2^1024] and more, at which Python
    raises [OverflowError] instead, needs a dividend of more than a
    thousand bits, which the size of a file is not. *)
Definition double_round (x : Q) : Q :=
  let n := Qnum x in
  let d := Zpos (Qden x) in
  if decide (n = 0%Z) then 0%Q
  else
    let e := last_bit (log2_ratio (Z.abs n) d) in
    let m := round_half_even (n * 2 ^ Z.max 0 (- e)) (d * 2 ^ Z.max 0 e) in
    (inject_Z m * 2 ^ e)%Q.

(** The rationals that are doubles: rounding leaves them as they are. *)
Definition is_double (x : Q) : Prop := (double_round x == x)%Q.

(** [a / b] on Python integers (true division): the exact quotient, rounded
    to a double. *)
Definition true_div (a b : Z) : py Q :=
  if decide (b = 0%Z) then Raise ZeroDivisionError
  else Ret (double_round (inject_Z a / inject_Z b)%Q).

(** [a > b] on floats. *)
Definition Qgtb (a b : Q) : bool := negb (Qle_bool a b).

(** ** Size-divergence check *)

(** [itertools.combinations(l, 2)]. *)
Fixpoint combinations2 {A : Type} (l : list A) : list (A * A) :=
  match l with
  | [] => []
  | x :: xs => map (pair x) xs ++ combinations2 xs
  end.

(** The condition
    [diff / sizes[i2] > threshold or diff / sizes[i2] > threshold]
    with [diff = abs(sizes[i1] - sizes[i2])]. *)
Definition exceeds (sizes : list Z) (threshold : Q) (p : nat * nat) : py bool :=
  let '(i1, i2) := p in
  s1 ← index sizes i1;
  s2 ← index sizes i2;
  let diff := Z.abs (s1 - s2) in
  r ← true_div diff s2;
  if Qgtb r threshold then Ret true
  else r' ← true_div diff s2; Ret (Qgtb r' threshold).

Definition exceeding_difference_thresh (sizes : list Z) (threshold : Q)
  : py (list (nat * nat)) :=
  for_each (combinations2 (seq 0 (length sizes)))
    (fun diff_indices p =>
       b ← exceeds sizes threshold p;
       Ret (if b : bool then diff_indices ++ [p] else diff_indices))
    [].

(** The relative difference of a pair of sizes as a real number. *)
Definition exact_rel_diff (s1 s2 : Z) : Q :=
  (inject_Z (Z.abs (s1 - s2)) / inject_Z s2)%Q.

(** The relative difference of a pair of sizes, as the check computes it:
    the double nearest to the exact one. *)
Definition rel_diff (s1 s2 : Z) : Q := double_round (exact_rel_diff s1 s2).

(** ** Strings and paths *)

(** [s[n:]]. *)
Fixpoint str_drop (n : nat) (s : string) : string :=
  match n, s with
  | O, _ => s
  | S n', String _ s' => str_drop n' s'
  | S _, EmptyString => EmptyString
  end.

(** [s.lstrip("/")]. *)
Fixpoint lstrip_slash (s : string) : string :=
  match s with
  | String "/" s' => lstrip_slash s'
  | _ => s
  end.

(** [g in s] on strings: [g] occurs in [s] as a substring. *)
Fixpoint contains (g s : string) : bool :=
  String.prefix g s ||
  match s with
  | EmptyString => false
  | String _ s' => contains g s'
  end.

(** [s.split("/")]. *)
Fixpoint split_slash (s : string) : list string :=
  match s with
  | EmptyString => [EmptyString]
  | String c s' =>
      if decide (c = "/"%char) then EmptyString :: split_slash s'
      else match split_slash s' with
           | h :: t => String c h :: t
           | [] => [String c EmptyString]
           end
  end.

(** ["/".join(l)]. *)
Definition join_slash (l : list string) : string := String.concat "/" l.

(** [os.path.join(a, b)] (posix). *)
Definition os_path_join (a b : string) : string :=
  if String.prefix "/" b then b
  else if decide (a = "") then b
  else if String.prefix "/" (String.rev a) then a +:+ b
  else a +:+ "/" +:+ b.

Definition newline : string := String (ascii_of_nat 10) EmptyString.

(** [l.sort()] on a list of strings. *)
Definition sort (l : list string) : list string := merge_sort String.le l.

(** Truth value of an optional list argument ([None] and [[]] are false). *)
Definition truthy {A : Type} (o : option (list A)) : bool :=
  match o with
  | Some (_ :: _) => true
  | _ => false
  end.

(** ** Dictionaries *)

(** An insertion-ordered dictionary with string keys. *)
Abbreviation dict V := (list (string * V)).

Fixpoint dict_get {V : Type} (d : dict V) (k : string) : option V :=
  match d with
  | [] => None
  | (k', v) :: d' => if decide (k' = k) then Some v else dict_get d' k
  end.

(** [d[k] = v]: an existing key keeps its position, a new key goes last. *)
Fixpoint dict_set {V : Type} (d : dict V) (k : string) (v : V) : dict V :=
  match d with
  | [] => [(k, v)]
  | (k', v') :: d' =>
      if decide (k' = k) then (k', v) :: d' else (k', v') :: dict_set d' k v
  end.

(** [d[k]] as an expression. *)
Definition getitem {V : Type} (d : dict V) (k : string) : py V :=
  match dict_get d k with
  | Some v => Ret v
  | None => Raise KeyError
  end.

(** The dictionary [json.load] builds from the members of a JSON object,
    taken in the order of the file. *)
Definition json_object {V : Type} (members : list (string * V)) : dict V :=
  fold_left (fun d m => dict_set d m.1 m.2) members [].

(** ** Data model *)

(** One test outcome of a summary document.  The last four fields are the
    keys the aggregator adds; they are absent from a raw result. *)
Record TestOutcome : Type := {
  test_name : string;
  result : string;
  comparable : bool;
  value : option Q;
  threshold : option Q;
  name : option string;
  type_global : option string;
  type_specific : option string;
  rel_path_plot : option string;
}.

Definition REL_VAL_SEVERITY_MAP : dict Z :=
  [("GOOD", 0%Z); ("WARNING", 1%Z); ("NONCRIT_NC", 2%Z); ("CRIT_NC", 3%Z); ("BAD", 4%Z)].

(** What the script sees of the file system. *)
Record filesystem : Type := {
  (** [glob(pattern, recursive=True)] *)
  glob : string -> list string;
  (** [Path(p).stat().st_size] *)
  st_size : string -> Z;
  (** [os.path.exists(p)] *)
  path_exists : string -> bool;
  (** [os.path.relpath(p, start)] *)
  relpath : string -> string -> string;
  (** the members of the summary document stored at a path *)
  load_summary : string -> list (string * list TestOutcome);
  (** the members of the directory configuration stored at a path *)
  load_config : string -> list (string * list (string * string));
}.

(** ** File-set matcher *)

Definition strip_root (d f : string) : string :=
  lstrip_slash (str_drop (String.length d) f).

Definition set_intersection (a b : list string) : list string :=
  elements ((list_to_set a : gset string) ∩ list_to_set b).

Definition grep_filter (grep : list string) (intersection_cache : list string)
  : list string :=
  flat_map (fun g => List.filter (fun ic => contains g ic) intersection_cache) grep.

Definition find_mutual_files (fs : filesystem) (dirs : list string)
    (glob_pattern : string) (grep : option (list string)) : list string :=
  let files := map (fun d => glob fs (d +:+ "/**/" +:+ glob_pattern)) dirs in
  let files := zip_with (fun f d => map (strip_root d) (sort f)) files dirs in
  match files with
  | [] => []
  | f0 :: rest =>
      let intersection := fold_left set_intersection rest f0 in
      let intersection :=
        if truthy grep then grep_filter (default [] grep) intersection
        else intersection in
      sort intersection
  end.

(** ** Size-divergence auditor *)

Record collect_dict : Type := {
  cd_directories : list string;
  cd_files : dict (list Z);
  cd_threshold : Q;
}.

Definition file_sizes (fs : filesystem) (dirs : list string) (threshold : Q)
  : py collect_dict :=
  let intersection := find_mutual_files fs dirs "*.root" None in
  let sizes :=
    map (fun d => map (fun f => st_size fs (os_path_join d f)) intersection) dirs in
  files ← for_each (imap pair intersection)
    (fun files '(i, f) =>
       compare_sizes ← mapM (fun s => index s i) sizes;
       diff_indices ← exceeding_difference_thresh compare_sizes threshold;
       Ret (match diff_indices with
            | [] => files
            | _ :: _ => dict_set files f compare_sizes
            end))
    [];
  Ret {| cd_directories := dirs; cd_files := files; cd_threshold := threshold |}.

(** ** Severity classifier *)

(** The body of the two nested loops of [print_summary]: a test other than
    the overall verdict is skipped, the verdict's artifact is appended to
    the bucket of its result. *)
Definition classify_test (histo_name : string) (test_n_hist_map : dict (list string))
    (test : TestOutcome) : py (dict (list string)) :=
  if decide (test_name test <> "test_summary") then Ret test_n_hist_map
  else
    bucket ← getitem test_n_hist_map (result test);
    Ret (dict_set test_n_hist_map (result test) (bucket ++ [histo_name])).

Definition classify (summary : dict (list TestOutcome)) : py (dict (list string)) :=
  for_each summary
    (fun test_n_hist_map '(histo_name, tests) =>
       for_each tests (classify_test histo_name) test_n_hist_map)
    (map (fun s => (s.1, [])) REL_VAL_SEVERITY_MAP).

Definition print_summary (fs : filesystem) (filename : string)
  : py (dict (list string)) :=
  classify (json_object (load_summary fs filename)).

(** ** Summary aggregator *)

(** The four assignments [test["name"] = ...], ..., [test["rel_path_plot"] = ...]. *)
Definition annotate (histo_name type_global' type_specific' rel_path_plot' : string)
    (test : TestOutcome) : TestOutcome :=
  {| test_name := test_name test;
     result := result test;
     comparable := comparable test;
     value := value test;
     threshold := threshold test;
     name := Some histo_name;
     type_global := Some type_global';
     type_specific := Some type_specific';
     rel_path_plot := Some (os_path_join rel_path_plot' (histo_name +:+ ".png")) |}.

(** ["/".join(path.split("/")[:-1])]. *)
Definition rel_val_path (path : string) : string :=
  join_slash (removelast (split_slash path)).

(** The annotations of the outcomes of the document at [path]. *)
Definition annotate_from (fs : filesystem) (in_dir path histo_name : string)
    (test : TestOutcome) : TestOutcome :=
  let type_specific' := relpath fs (rel_val_path path) in_dir in
  let rel_path_plot' := os_path_join type_specific' "overlayPlots" in
  let type_global' := hd EmptyString (split_slash type_specific') in
  annotate histo_name type_global' type_specific' rel_path_plot' test.

(** One iteration of the loop over the files found: the document at [path]
    is merged into [summary].  The list stored under [histo_name] is the
    very object the inner loop then annotates, so the stored outcomes carry
    the annotations. *)
Definition merge_document (fs : filesystem) (in_dir : string)
    (summary : dict (list TestOutcome)) (path : string) : dict (list TestOutcome) :=
  let current_summary := json_object (load_summary fs path) in
  fold_left
    (fun summary '(histo_name, tests) =>
       dict_set summary histo_name (map (annotate_from fs in_dir path histo_name) tests))
    current_summary summary.

Definition make_summary (fs : filesystem) (in_dir : string) : dict (list TestOutcome) :=
  let file_paths := glob fs (in_dir +:+ "/**/Summary.json") in
  fold_left (merge_document fs in_dir) file_paths [].

(** ** Threshold rebuild *)

Section ThresholdFile.

(** [str(x)] for a float, as an f-string formats it. *)
Variable float_str : Q -> string.

Definition threshold_line (histo_name : string) (t : TestOutcome) (v : Q) : string :=
  histo_name +:+ "," +:+ test_name t +:+ "," +:+ float_str v +:+ newline.

(** The body of the inner loop; the state is the list of the strings
    written to the file so far.  ([print(t["result"])] leaves it as it is.) *)
Definition write_threshold (histo_name : string) (written : list string)
    (t : TestOutcome) : py (list string) :=
  if negb (comparable t) then Ret written
  else match value t with
       | Some v => Ret (written ++ [threshold_line histo_name t v])
       | None => Raise KeyError
       end.

Definition make_new_threshold_file (fs : filesystem) (json_path : string)
  : py (list string) :=
  let json_in := json_object (load_summary fs json_path) in
  for_each json_in
    (fun written '(histo_name, tests) =>
       for_each tests (write_threshold histo_name) written)
    [].

End ThresholdFile.

(** ** Cross-run comparison *)

(** The names printed under [FILE i] for one severity. *)
Definition differing (intersection : list string) (bucket : list string) : list string :=
  List.filter (fun histo_name => bool_decide (histo_name ∉ intersection)) bucket.

(** The body of the loop over the severities: the intersection of the two
    buckets of [severity], then, for each input, the names printed. *)
Definition report_severity (summaries : list (dict (list string)))
    (report : list (string * list (list string))) (severity : string)
  : py (list (string * list (list string))) :=
  summary0 ← index summaries 0;
  summary1 ← index summaries 1;
  bucket0 ← getitem summary0 severity;
  bucket1 ← getitem summary1 severity;
  let intersection := set_intersection bucket0 bucket1 in
  printed ← mapM (fun summary =>
                    bucket ← getitem summary severity;
                    Ret (differing intersection bucket)) summaries;
  Ret (report ++ [(severity, printed)]).

(** The attributes of the namespace that the parser of [compare] builds:
    [input1] and [input2] of the common parser, [output], [difference] and
    [compare_values]. *)
Record CompareNamespace : Type := {
  cmp_input1 : list string;
  cmp_input2 : list string;
  cmp_output : string;
  cmp_difference : bool;
  cmp_compare_values : bool;
}.

(** [args.input]: the parser of [compare] defines no such attribute. *)
Definition args_input (args : CompareNamespace) : py (list string) :=
  Raise AttributeError.

(** [s.replace("/", "_")]. *)
Fixpoint replace_slash (s : string) : string :=
  match s with
  | EmptyString => EmptyString
  | String c s' =>
      String (if decide (c = "/"%char) then "_"%char else c) (replace_slash s')
  end.

(** The part of [compare] run under [args.compare_values]: for each result
    document found in both outputs, the directory of the plot and the
    documents handed to the plotting routine. *)
Definition compare_values (fs : filesystem) (args : CompareNamespace)
  : py (list (string * list (dict (list TestOutcome)))) :=
  let output_dir := cmp_output args in
  input ← args_input args;
  first ← index input 0;
  input ← args_input args;
  second ← index input 1;
  let summaries_common := find_mutual_files fs [first; second] "Summary.json" None in
  for_each summaries_common
    (fun plotted summaries =>
       let output_dir_this :=
         os_path_join output_dir (replace_slash summaries +:+ "_dir") in
       input ← args_input args;
       let loaded :=
         map (fun i => json_object (load_summary fs (os_path_join i summaries))) input in
       Ret (plotted ++ [(output_dir_this, loaded)]))
    [].

(** What the part of [compare] run under [args.difference] does with the
    list of inputs once it has it: the exit code and, per severity, the
    names printed for each input. *)
Definition difference_report (fs : filesystem) (input : list string)
  : py (Z * list (string * list (list string))) :=
  let summaries := map (fun i => os_path_join i "SummaryGlobal.json") input in
  if negb (forallb (path_exists fs) summaries) then Ret (1%Z, [])
  else
    summaries ← mapM (print_summary fs) summaries;
    report ← for_each (map fst REL_VAL_SEVERITY_MAP) (report_severity summaries) [];
    Ret (0%Z, report).

(** The part of [compare] run under [args.difference]. *)
Definition compare_difference (fs : filesystem) (args : CompareNamespace)
  : py (Z * list (string * list (list string))) :=
  input ← args_input args;
  difference_report fs input.

(** [compare]: without a flag both parts run; the result is the exit code
    and what the difference part printed. *)
Definition compare (fs : filesystem) (args : CompareNamespace)
  : py (Z * list (string * list (list string))) :=
  let neither := negb (cmp_difference args) && negb (cmp_compare_values args) in
  let difference := cmp_difference args || neither in
  let with_values := cmp_compare_values args || neither in
  _ ← (if with_values then compare_values fs args else Ret []);
  if difference then compare_difference fs args else Ret (0%Z, []).

(** ** Directory-tree mode *)

(** The attributes of the [rel-val] namespace the directory-tree mode reads,
    and [threshold], which it could read. *)
Record Namespace : Type := {
  args_input1 : list string;
  args_input2 : list string;
  args_output : string;
  args_threshold : Q;
  args_dir_config : string;
  args_dir_config_enable : option (list string);
  args_dir_config_disable : option (list string);
}.

(** [--threshold], [type=float], [default=0.1]. *)
Definition parse_threshold (given : option Q) : Q := default (1 # 10)%Q given.

(** What a run leaves behind: the JSON files it dumps and the comparisons
    it hands to the external routine. *)
Inductive event : Type :=
| JsonDump (path : string) (content : collect_dict)
| RelValFiles (files1 files2 : list string) (output_dir : string).

(** Code that leaves events behind and may raise. *)
Definition io (A : Type) : Type := list event * py A.

#[global] Instance io_ret : MRet io := fun A a => ([], Ret a).

#[global] Instance io_bind : MBind io := fun A B k m =>
  match m.2 with
  | Ret a => (m.1 ++ (k a).1, (k a).2)
  | Raise e => (m.1, Raise e)
  end.

Definition lift {A : Type} (m : py A) : io A := ([], m).

Definition emit (e : event) : io unit := ([e], Ret tt).

Fixpoint io_for {A : Type} (l : list A) (body : A -> io unit) : io unit :=
  match l with
  | [] => mret tt
  | x :: l' => _ ← body x; io_for l' body
  end.

(** [args.dir]: the parser of [rel-val] defines no such attribute. *)
Definition args_dir (args : Namespace) : py (list string) := Raise AttributeError.

(** The global name [dir_config_disable]: it is bound nowhere. *)
Definition dir_config_disable : py (list string) := Raise NameError.

(** The operand [args.dir-dir_config_disable] of the disabling filter. *)
Definition disabled_operand (args : Namespace) : py (list string) :=
  a ← args_dir args;
  b ← dir_config_disable;
  Ret (list_difference a b).

(** The group names to run over, from the keys of the configuration. *)
Definition select_keys (args : Namespace) (config_keys : list string)
  : py (list string) :=
  let run_over_keys := config_keys in
  let run_over_keys :=
    if truthy (args_dir_config_enable args)
    then List.filter
           (fun rok => bool_decide (rok ∈ default [] (args_dir_config_enable args)))
           run_over_keys
    else run_over_keys in
  if truthy (args_dir_config_disable args)
  then for_each run_over_keys
         (fun kept rok =>
            excluded ← disabled_operand args;
            Ret (if bool_decide (rok ∉ excluded) then kept ++ [rok] else kept))
         []
  else Ret run_over_keys.

(** The second half of [rel_val_sim_dirs]: the configuration is read, the
    groups are selected, and one comparison is handed over for each
    sub-group with files in both trees. *)
Definition dispatch_groups (fs : filesystem) (args : Namespace) (dir1 dir2 : string)
  : io Z :=
  let output_dir := args_output args in
  let config :=
    json_object (map (fun g => (g.1, json_object g.2))
                     (load_config fs (args_dir_config args))) in
  run_over_keys ← lift (select_keys args (map fst config));
  match run_over_keys with
  | [] => mret 0%Z
  | _ :: _ =>
      _ ← io_for run_over_keys
        (fun rok =>
           current_dir_config ← lift (getitem config rok);
           io_for current_dir_config
             (fun '(name', path) =>
                let current_files := find_mutual_files fs [dir1; dir2] path None in
                match current_files with
                | [] => mret tt
                | _ :: _ =>
                    emit (RelValFiles
                            (map (os_path_join dir1) current_files)
                            (map (os_path_join dir2) current_files)
                            (os_path_join (os_path_join output_dir rok) name'))
                end));
      mret 0%Z
  end.

Definition rel_val_sim_dirs (fs : filesystem) (args : Namespace) : io Z :=
  dir1 ← lift (index (args_input1 args) 0);
  dir2 ← lift (index (args_input2 args) 0);
  let output_dir := args_output args in
  file_sizes_to_json ← lift (file_sizes fs [dir1; dir2] (1 # 2)%Q);
  _ ← emit (JsonDump (os_path_join output_dir "file_sizes.json") file_sizes_to_json);
  dispatch_groups fs args dir1 dir2.

(** ** Auxiliary definitions of the proofs *)

(** A loop that appends the elements passing a test that may raise. *)
Definition collect {A : Type} (test : A -> py bool) (acc : list A) (p : A)
  : py (list A) :=
  b ← test p; Ret (if b : bool then acc ++ [p] else acc).

Definition passes {A : Type} (test : A -> py bool) (p : A) : bool :=
  match test p with
  | Ret true => true
  | _ => false
  end.

(** The artifacts with an overall verdict of severity [sev], in the order
    of the document. *)
Definition is_verdict (sev : string) (t : TestOutcome) : bool :=
  bool_decide (test_name t = "test_summary" /\ result t = sev).

Definition verdicts (summary : dict (list TestOutcome)) (sev : string) : list string :=
  flat_map (fun e => map (fun _ => e.1) (List.filter (is_verdict sev) e.2)) summary.

Definition valid_verdicts (summary : dict (list TestOutcome)) : Prop :=
  Forall (fun e => Forall (fun t => test_name t = "test_summary" ->
                                    result t ∈ REL_VAL_SEVERITY_MAP.*1) e.2) summary.

(** The outcomes a threshold file is built from, with their artifact, in
    the order of the document. *)
Definition comparable_outcomes (json_in : dict (list TestOutcome))
  : list (string * TestOutcome) :=
  flat_map (fun e => map (pair e.1) (List.filter comparable e.2)) json_in.

Definition comparable_have_values (json_in : dict (list TestOutcome)) : Prop :=
  Forall (fun e => Forall (fun t => comparable t = true -> is_Some (value t)) e.2) json_in.

(** [line] is the line written for the comparable outcome [ht.2] of the
    artifact [ht.1]. *)
Definition line_of (float_str : Q -> string) (line : string)
    (ht : string * TestOutcome) : Prop :=
  exists v, value ht.2 = Some v /\
            line = ht.1 +:+ "," +:+ test_name ht.2 +:+ "," +:+ float_str v +:+ newline.

(** A formatter of floats for the examples: the shortest decimal of the
    values the examples use. *)
Definition example_float_str (x : Q) : string :=
  if Qeq_bool x (6 # 5) then "1.2"
  else if Qeq_bool x (1 # 2) then "0.5"
  else "nan".

(** The events that hand a comparison to the external routine. *)
Definition is_dispatch (e : event) : Prop :=
  match e with
  | RelValFiles _ _ _ => True
  | JsonDump _ _ => False
  end.

(** ** Example inputs *)

Definition H1_H2_summary : list (string * list TestOutcome) :=
  [("H1", [ {| test_name := "chi2"; result := "GOOD"; comparable := true;
               value := Some (6 # 5)%Q; threshold := Some (3 # 2)%Q; name := None;
               type_global := None; type_specific := None; rel_path_plot := None |};
            {| test_name := "bincont"; result := "NONCRIT_NC"; comparable := false;
               value := None; threshold := None; name := None;
               type_global := None; type_specific := None; rel_path_plot := None |};
            {| test_name := "test_summary"; result := "BAD"; comparable := false;
               value := None; threshold := None; name := None;
               type_global := None; type_specific := None; rel_path_plot := None |} ]);
   ("H2", [ {| test_name := "chi2"; result := "GOOD"; comparable := true;
               value := Some (1 # 2)%Q; threshold := Some (3 # 2)%Q; name := None;
               type_global := None; type_specific := None; rel_path_plot := None |} ])].

Definition fs_H1_H2 : filesystem := {|
  glob := fun _ => [];
  st_size := fun _ => 0%Z;
  path_exists := fun _ => true;
  relpath := fun p _ => p;
  load_summary := fun _ => H1_H2_summary;
  load_config := fun _ => [] |}.

(** Two runs: in run [A] the artifacts [H1] and [H2] are at [WARNING], in
    run [B] the artifacts [H2] and [H3]. *)
Definition verdict (severity : string) : TestOutcome :=
  {| test_name := "test_summary"; result := severity; comparable := false;
     value := None; threshold := None; name := None;
     type_global := None; type_specific := None; rel_path_plot := None |}.

Definition fs_runs : filesystem := {|
  glob := fun _ => [];
  st_size := fun _ => 0%Z;
  path_exists := fun _ => true;
  relpath := fun p _ => p;
  load_summary := fun p =>
    if decide (p = "A/SummaryGlobal.json")
    then [("H1", [verdict "WARNING"]); ("H2", [verdict "WARNING"]); ("H4", [verdict "GOOD"])]
    else [("H2", [verdict "WARNING"]); ("H3", [verdict "WARNING"]); ("H4", [verdict "GOOD"])];
  load_config := fun _ => [] |}.

(** An output tree in which the groups [g1] and [g2] both hold a result
    for the artifact [H1]; [g1] is found first. *)
Definition outcome (test severity : string) (v : Q) : TestOutcome :=
  {| test_name := test; result := severity; comparable := true;
     value := Some v; threshold := Some (3 # 2)%Q; name := None;
     type_global := None; type_specific := None; rel_path_plot := None |}.

Definition fs_collision : filesystem := {|
  glob := fun pat =>
    if decide (pat = "out/**/Summary.json")
    then ["out/g1/a/Summary.json"; "out/g2/Summary.json"] else [];
  st_size := fun _ => 0%Z;
  path_exists := fun _ => true;
  relpath := fun p start => str_drop (S (String.length start)) p;
  load_summary := fun p =>
    if decide (p = "out/g1/a/Summary.json")
    then [("H1", [outcome "chi2" "GOOD" (1 # 2); verdict "GOOD"]); ("H0", [verdict "GOOD"])]
    else if decide (p = "out/g2/Summary.json")
    then [("H1", [verdict "BAD"]); ("H2", [verdict "WARNING"])]
    else [];
  load_config := fun _ => [] |}.

(** The same tree once [SummaryGlobal.json] has been written into it. *)
Definition fs_collision_rerun : filesystem := {|
  glob := glob fs_collision;
  st_size := fun p => if decide (p = "out/SummaryGlobal.json") then 1024%Z else 0%Z;
  path_exists := path_exists fs_collision;
  relpath := relpath fs_collision;
  load_summary := fun p =>
    if decide (p = "out/SummaryGlobal.json")
    then [("H1", [verdict "BAD"])] else load_summary fs_collision p;
  load_config := fun _ => [] |}.

(** Two simulation trees [A] and [B] with three files each; the file
    [hits.root] is more than half as large again in [A] as in [B]. *)
Definition fs_trees : filesystem := {|
  glob := fun pat =>
    if decide (pat = "A/**/*.root") then ["A/tpc/qc.root"; "A/hits.root"; "A/only_a.root"]
    else if decide (pat = "B/**/*.root") then ["B/hits.root"; "B/only_b.root"; "B/tpc/qc.root"]
    else [];
  st_size := fun p =>
    if decide (p = "A/hits.root") then 201%Z
    else if decide (p = "B/hits.root") then 100%Z
    else 50%Z;
  path_exists := fun _ => true;
  relpath := fun p start => str_drop (S (String.length start)) p;
  load_summary := fun _ => [];
  load_config := fun _ => [("hits", [("all", "*.root")]); ("qc", [("tpc", "*.root")])] |}.

(** The trees of [fs_trees] when [hits.root] is empty in [B]. *)
Definition fs_trees_empty : filesystem := {|
  glob := glob fs_trees;
  st_size := fun p => if decide (p = "B/hits.root") then 0%Z else st_size fs_trees p;
  path_exists := path_exists fs_trees;
  relpath := relpath fs_trees;
  load_summary := load_summary fs_trees;
  load_config := load_config fs_trees |}.

(** [compare -i A -j B --difference]. *)
Definition example_compare_args : CompareNamespace :=
  {| cmp_input1 := ["A"]; cmp_input2 := ["B"]; cmp_output := "rel_val_comparison";
     cmp_difference := true; cmp_compare_values := false |}.

(** The double that the literal [0.3] denotes. *)
Definition double_0_3 : Q := (5404319552844595 # 18014398509481984)%Q.

Definition example_args (threshold' : Q) (enable disable : option (list string))
  : Namespace :=
  {| args_input1 := ["A"]; args_input2 := ["B"]; args_output := "rel_val";
     args_threshold := threshold'; args_dir_config := "config.json";
     args_dir_config_enable := enable; args_dir_config_disable := disable |}.


(** * Further definitions *)

(** How often [x] occurs in [l]. *)
Definition occurrences (x : string) (l : list string) : nat :=
  length (filter (fun y => y = x) l).

(** The order in which [itertools.combinations] yields index pairs. *)
Definition pair_lt (p q : nat * nat) : Prop :=
  (p.1 < q.1)%nat \/ (p.1 = q.1 /\ (p.2 < q.2)%nat).

(** The sizes of the file [f] under each of the trees. *)
Definition tree_sizes (fs : filesystem) (dirs : list string) (f : string) : list Z :=
  map (fun d => st_size fs (os_path_join d f)) dirs.

(** Some pair of the sizes [sz] diverges by more than [threshold]: its
    relative difference, rounded as the check computes it, is above it. *)
Definition diverging (threshold : Q) (sz : list Z) : Prop :=
  exists i1 i2 s1 s2,
    (i1 < i2)%nat /\ sz !! i1 = Some s1 /\ sz !! i2 = Some s2 /\
    (threshold < rel_diff s1 s2)%Q.

(** The check flags some pair of the sizes of [f]. *)
Definition flaggedb (fs : filesystem) (dirs : list string) (threshold : Q)
    (f : string) : bool :=
  match exceeding_difference_thresh (tree_sizes fs dirs f) threshold with
  | Ret (_ :: _) => true
  | _ => false
  end.

(** What one file adds to the report. *)
Definition record_flagged (fs : filesystem) (dirs : list string) (threshold : Q)
    (files : dict (list Z)) (f : string) : dict (list Z) :=
  if flaggedb fs dirs threshold f then dict_set files f (tree_sizes fs dirs f) else files.

(** A file is empty under a tree other than the first. *)
Definition empty_later (fs : filesystem) (dirs : list string) (f : string) : Prop :=
  Exists (fun s => s = 0%Z) (tail (tree_sizes fs dirs f)).

(** [path] is the last of the result documents found under [in_dir] that
    holds the artifact [h]; [tests] are its outcomes there. *)
Definition last_holder (fs : filesystem) (in_dir path h : string)
    (tests : list TestOutcome) : Prop :=
  exists earlier later,
    glob fs (in_dir +:+ "/**/Summary.json") = earlier ++ path :: later /\
    dict_get (json_object (load_summary fs path)) h = Some tests /\
    forall q, q ∈ later -> dict_get (json_object (load_summary fs q)) h = None.

(** The tree of [fs_collision] once its global summary has been dumped to
    [out/SummaryGlobal.json]. *)
Definition fs_collision_global : filesystem := {|
  glob := glob fs_collision;
  st_size := st_size fs_collision;
  path_exists := path_exists fs_collision;
  relpath := relpath fs_collision;
  load_summary := fun p =>
    if decide (p = "out/SummaryGlobal.json") then make_summary fs_collision "out"
    else load_summary fs_collision p;
  load_config := load_config fs_collision |}.

(** The directory configuration a run loads: a dictionary of groups, each
    a dictionary from sub-group names to glob patterns. *)
Definition loaded_config (fs : filesystem) (args : Namespace) : dict (dict string) :=
  json_object (map (fun g => (g.1, json_object g.2))
                   (load_config fs (args_dir_config args))).

(** ** Entry point: the bit mask of the tests *)

(** [args.test] as [rel_val] computes it from the three flags: the sum
    [1 * chi2 + 2 * bincont + 4 * numentries], replaced by [7] when it is
    zero. *)
Definition test_bitmask (with_test_chi2 with_test_bincont with_test_numentries : bool) : Z :=
  let test := (1 * Z.b2z with_test_chi2 + 2 * Z.b2z with_test_bincont
               + 4 * Z.b2z with_test_numentries)%Z in
  if negb (bool_decide (test <> 0%Z)) then 7%Z else test.

(** ** Comparison of values taken from log files *)

(** An entry of [to_be_chained1] or [to_be_chained2]: the list of paths of
    a combine pattern, or, without combine patterns, a path by itself. *)
Inductive chain : Type :=
| Paths (paths : list string)
| Path (path : string).

(** The first half of [rel_val_log_file]: the two lists of inputs and the
    names of the output directories. *)
Definition chain_inputs (dir1 dir2 : string) (files : list string)
    (combine_patterns : option (list string))
  : list chain * list chain * list string :=
  if truthy combine_patterns then
    fold_left
      (fun '(to_be_chained1, to_be_chained2, output_dirs) cp =>
         let chained1 :=
           map (os_path_join dir1) (List.filter (fun hf => contains cp hf) files) in
         let chained2 :=
           map (os_path_join dir2) (List.filter (fun hf => contains cp hf) files) in
         match chained1, chained2 with
         | _ :: _, _ :: _ =>
             (to_be_chained1 ++ [Paths chained1], to_be_chained2 ++ [Paths chained2],
              output_dirs ++ [cp +:+ "_dir"])
         | _, _ => (to_be_chained1, to_be_chained2, output_dirs)
         end)
      (default [] combine_patterns) ([], [], [])
  else
    (map (fun hf => Path (os_path_join dir1 hf)) files,
     map (fun hf => Path (os_path_join dir2 hf)) files,
     map (fun hf => hf +:+ "_dir") files).

(** One turn of the loop of [rel_val_log_file]: the inputs of the two
    sides and the output directory. *)
Record log_task : Type := {
  lt_inputs1 : chain;
  lt_inputs2 : chain;
  lt_output_dir : string;
}.

(** [zip(a, b, c)]. *)
Fixpoint zip3 {A B C : Type} (a : list A) (b : list B) (c : list C)
  : list (A * B * C) :=
  match a, b, c with
  | x :: a', y :: b', z :: c' => (x, y, z) :: zip3 a' b' c'
  | _, _, _ => []
  end.

Definition rel_val_log_file_tasks (dir1 dir2 : string) (files : list string)
    (output_dir : string) (combine_patterns : option (list string)) : list log_task :=
  let '(to_be_chained1, to_be_chained2, output_dirs) :=
    chain_inputs dir1 dir2 files combine_patterns in
  map (fun '(tbc1, tbc2, od) =>
         {| lt_inputs1 := tbc1; lt_inputs2 := tbc2;
            lt_output_dir := os_path_join output_dir od |})
      (zip3 to_be_chained1 to_be_chained2 output_dirs).

(** The names [make_generic_histograms_from_log_file] opens for one side:
    [for filename in filenames] yields the paths of a list, and the
    characters of a string. *)
Definition opened (filenames : chain) : list string :=
  match filenames with
  | Paths paths => paths
  | Path path => map (fun c => String c EmptyString) (list_ascii_of_string path)
  end.

(** The task of a combine pattern. *)
Definition combined_task (dir1 dir2 : string) (files : list string) (output_dir cp : string)
  : log_task :=
  {| lt_inputs1 :=
       Paths (map (os_path_join dir1) (List.filter (fun hf => contains cp hf) files));
     lt_inputs2 :=
       Paths (map (os_path_join dir2) (List.filter (fun hf => contains cp hf) files));
     lt_output_dir := os_path_join output_dir (cp +:+ "_dir") |}.

(** ** Values per test *)

(** A value of a field of a test outcome. *)
Inductive jvalue : Type :=
| JString (s : string)
| JBool (b : bool)
| JNumber (x : Q).

(** [o[key]] for a key that may be absent. *)
Definition present {A : Type} (f : A -> jvalue) (o : option A) : py jvalue :=
  match o with
  | Some a => Ret (f a)
  | None => Raise KeyError
  end.

(** [test[field]]. *)
Definition test_field (field : string) (test : TestOutcome) : py jvalue :=
  if decide (field = "test_name") then Ret (JString (test_name test))
  else if decide (field = "result") then Ret (JString (result test))
  else if decide (field = "comparable") then Ret (JBool (comparable test))
  else if decide (field = "value") then present JNumber (value test)
  else if decide (field = "threshold") then present JNumber (threshold test)
  else if decide (field = "name") then present JString (name test)
  else if decide (field = "type_global") then present JString (type_global test)
  else if decide (field = "type_specific") then present JString (type_specific test)
  else if decide (field = "rel_path_plot") then present JString (rel_path_plot test)
  else Raise KeyError.

(** [{field: [] for field in fields}] with the key ["histograms"] added. *)
Definition init_columns (fields : list string) : dict (list jvalue) :=
  dict_set (json_object (map (fun field => (field, [])) fields)) "histograms" [].

(** [test_histo_value_map[test_name][field].append(test[field])]. *)
Definition append_field (test : TestOutcome) (columns : dict (list jvalue))
    (field : string) : py (dict (list jvalue)) :=
  column ← getitem columns field;
  v ← test_field field test;
  Ret (dict_set columns field (column ++ [v])).

(** The body of the inner loop of [extract_from_summary]. *)
Definition extract_test (fields : list string) (histo_name : string)
    (test_histo_value_map : dict (dict (list jvalue))) (test : TestOutcome)
  : py (dict (dict (list jvalue))) :=
  let test_name' := test_name test in
  let test_histo_value_map :=
    match dict_get test_histo_value_map test_name' with
    | None => dict_set test_histo_value_map test_name' (init_columns fields)
    | Some _ => test_histo_value_map
    end in
  if negb (comparable test) then Ret test_histo_value_map
  else
    columns ← getitem test_histo_value_map test_name';
    histograms ← getitem columns "histograms";
    let columns := dict_set columns "histograms" (histograms ++ [JString histo_name]) in
    columns ← for_each fields (append_field test) columns;
    Ret (dict_set test_histo_value_map test_name' columns).

Definition extract_from_summary (summary : dict (list TestOutcome)) (fields : list string)
  : py (dict (dict (list jvalue))) :=
  for_each summary
    (fun test_histo_value_map '(histo_name, tests) =>
       for_each tests (extract_test fields histo_name) test_histo_value_map)
    [].

(** The outcomes of a document with their artifact, in its order. *)
Definition all_outcomes (summary : dict (list TestOutcome)) : list (string * TestOutcome) :=
  flat_map (fun e => map (pair e.1) e.2) summary.

(** Those of them that are comparable and of the test [T]. *)
Definition rows_of (T : string) (outcomes : list (string * TestOutcome))
  : list (string * TestOutcome) :=
  List.filter (fun r => comparable r.2 && bool_decide (test_name r.2 = T)) outcomes.

(** The columns of a test hold the artifacts and the values of the rows [R]. *)
Definition columns_hold (fields : list string) (columns : dict (list jvalue))
    (R : list (string * TestOutcome)) : Prop :=
  dict_get columns "histograms" = Some (map (fun r => JString r.1) R) /\
  forall f, f ∈ fields ->
    exists column, dict_get columns f = Some column /\
                   Forall2 (fun v r => test_field f r.2 = Ret v) column R.

(** Every comparable outcome has the fields asked for. *)
Definition fields_present (fields : list string) (outcomes : list (string * TestOutcome))
  : Prop :=
  Forall (fun r => comparable r.2 = true ->
                   Forall (fun f => exists v, test_field f r.2 = Ret v) fields) outcomes.

(** What the map of [extract_from_summary] holds once the outcomes [seen]
    have been gone through. *)
Definition extracted (fields : list string) (m : dict (dict (list jvalue)))
    (seen : list (string * TestOutcome)) : Prop :=
  (forall T, is_Some (dict_get m T) <-> T ∈ map (fun r => test_name r.2) seen) /\
  (forall T columns, dict_get m T = Some columns ->
                     columns_hold fields columns (rows_of T seen)).

(** ** Metrics export *)

(** [s.split(sep)] for a separator of one character. *)
Fixpoint split_on (sep : ascii) (s : string) : list string :=
  match s with
  | EmptyString => [EmptyString]
  | String c s' =>
      if decide (c = sep) then EmptyString :: split_on sep s'
      else match split_on sep s' with
           | h :: t => String c h :: t
           | [] => [String c EmptyString]
           end
  end.

(** The character [c] occurs in [s]. *)
Definition has_char (c : ascii) (s : string) : bool := contains (String c EmptyString) s.

(** Truth value of an optional string argument ([None] and [""] are false). *)
Definition truthy_str (o : option string) : bool :=
  match o with
  | Some (String _ _) => true
  | _ => false
  end.

(** The double quote. *)
Definition dquote : string := String (ascii_of_nat 34) EmptyString.

(** The arguments of the [influx] sub-command. *)
Record InfluxArgs : Type := {
  influx_dir : string;
  influx_web_storage : option string;
  influx_tags : option (list string);
  influx_table_suffix : option string;
}.

(** A tag of the form [key=value]: one equals sign, with text on both sides. *)
Definition well_formed_tag (t : string) : Prop :=
  exists k v, t = k +:+ "=" +:+ v /\ k <> "" /\ v <> "" /\
              has_char "=" k = false /\ has_char "=" v = false.

Section Influx.

(** [s.strip()] and [str(n)] for an integer. *)
Variable strip : string -> string.
Variable int_str : Z -> string.

(** What one tag adds to [tags_out]; [None] when the tag is refused. *)
Definition format_tag (t : string) : option string :=
  match split_on "=" t with
  | [k; v] =>
      if decide (k = "") then None
      else if decide (v = "") then None
      else Some ("," +:+ strip k +:+ "=" +:+ strip v)
  | _ => None
  end.

(** The loop over the tags; [None] when it ends with [return 1]. *)
Fixpoint format_tags (tags : list string) (tags_out : string) : option string :=
  match tags with
  | [] => Some tags_out
  | t :: tags' =>
      match format_tag t with
      | Some s => format_tags tags' (tags_out +:+ s)
      | None => None
      end
  end.

(** [o[key]] for a string that may be absent. *)
Definition present_str (o : option string) : py string :=
  match o with
  | Some s => Ret s
  | None => Raise KeyError
  end.

(** The line written for the artifact [histo_name], the [i]-th of the summary. *)
Definition influx_line (row_tags : string) (web_storage : option string) (i : nat)
    (histo_name : string) (tests : list TestOutcome) : py string :=
  first ← index tests 0;
  type_global' ← present_str (type_global first);
  type_specific' ← present_str (type_specific first);
  let s := row_tags +:+ ",type_global=" +:+ type_global' +:+ ",type_specific="
           +:+ type_specific' +:+ ",id=" +:+ int_str (Z.of_nat i) in
  s ← (if truthy_str web_storage
       then rel_path_plot' ← present_str (rel_path_plot first);
            Ret (s +:+ ",web_storage="
                 +:+ os_path_join (default "" web_storage) rel_path_plot')
       else Ret s);
  let s := s +:+ " histogram_name=" +:+ dquote +:+ histo_name +:+ dquote in
  s ← for_each tests
        (fun s test =>
           rank ← getitem REL_VAL_SEVERITY_MAP (result test);
           Ret (s +:+ "," +:+ test_name test +:+ "=" +:+ int_str rank))
        s;
  Ret (s +:+ newline).

(** The loop over the artifacts: the strings written, and how it ends. *)
Fixpoint influx_rows (row_tags : string) (web_storage : option string)
    (items : list (nat * (string * list TestOutcome))) : list string * py unit :=
  match items with
  | [] => ([], Ret tt)
  | (i, (histo_name, tests)) :: items' =>
      match tests with
      | [] => influx_rows row_tags web_storage items'
      | _ :: _ =>
          match influx_line row_tags web_storage i histo_name tests with
          | Ret line =>
              let rest := influx_rows row_tags web_storage items' in
              (line :: rest.1, rest.2)
          | Raise e => ([], Raise e)
          end
      end
  end.

(** [influx]: the strings written to [influxDB.dat] and the value returned
    ([None] at the end of the function, [1] on a refusal). *)
Definition influx (fs : filesystem) (args : InfluxArgs) : list string * py (option Z) :=
  let output_dir := influx_dir args in
  let json_in := os_path_join output_dir "SummaryGlobal.json" in
  if negb (path_exists fs json_in) then ([], Ret (Some 1%Z))
  else
    let table_name :=
      if truthy_str (influx_table_suffix args)
      then "O2DPG_MC_ReleaseValidation" +:+ "_" +:+ default "" (influx_table_suffix args)
      else "O2DPG_MC_ReleaseValidation" in
    match (if truthy (influx_tags args)
           then format_tags (default [] (influx_tags args)) ""
           else Some EmptyString) with
    | None => ([], Ret (Some 1%Z))
    | Some tags_out =>
        let row_tags := table_name +:+ tags_out in
        let summary := json_object (load_summary fs json_in) in
        let rows := influx_rows row_tags (influx_web_storage args) (imap pair summary) in
        (rows.1, _ ← rows.2; Ret None)
    end.

End Influx.

(** The artifacts of a summary that have outcomes, with their position. *)
Definition with_outcomes (summary : dict (list TestOutcome))
  : list (nat * (string * list TestOutcome)) :=
  List.filter (fun item => match item.2.2 with [] => false | _ :: _ => true end)
              (imap pair summary).

(** An aggregated summary: the first outcome of every artifact carries its
    types (and its plot path, if asked for), and every result is one of the
    severities. *)
Definition exportable (need_plot : bool) (tests : list TestOutcome) : Prop :=
  match tests with
  | [] => True
  | first :: _ =>
      is_Some (type_global first) /\ is_Some (type_specific first) /\
      (need_plot = true -> is_Some (rel_path_plot first)) /\
      Forall (fun t => result t ∈ REL_VAL_SEVERITY_MAP.*1) tests
  end.

(** Example arguments and formatters for the metrics export. *)
Definition example_strip (s : string) : string := s.

Definition example_int_str (n : Z) : string :=
  match n with
  | 0%Z => "0" | 1%Z => "1" | 2%Z => "2" | 3%Z => "3" | 4%Z => "4" | _ => "n"
  end.

Definition fs_global : filesystem := {|
  glob := fun _ => [];
  st_size := fun _ => 0%Z;
  path_exists := fun _ => true;
  relpath := fun p _ => p;
  load_summary := fun _ =>
    [("H1", [annotate "H1" "g2" "g2" "g2/overlayPlots" (verdict "BAD")]);
     ("H5", []);
     ("H2", [annotate "H2" "g2" "g2" "g2/overlayPlots" (verdict "WARNING")])];
  load_config := fun _ => [] |}.

(** The name of the table the export writes to. *)
Definition influx_table_name (args : InfluxArgs) : string :=
  if truthy_str (influx_table_suffix args)
  then "O2DPG_MC_ReleaseValidation" +:+ "_" +:+ default "" (influx_table_suffix args)
  else "O2DPG_MC_ReleaseValidation".

Definition example_influx_args (tags : option (list string)) : InfluxArgs :=
  {| influx_dir := "rel_val"; influx_web_storage := Some "http://web";
     influx_tags := tags; influx_table_suffix := None |}.
(** * Properties *)

Lemma Qgtb_lt (a b : Q) : Qgtb a b = true <-> (b < a)%Q.
Proof.
  unfold Qgtb. rewrite negb_true_iff, <- not_true_iff_false, Qle_bool_iff.
  split; [apply Qnot_le_lt | apply Qlt_not_le].
Qed.

Lemma elem_of_combinations2_seq (n a i1 i2 : nat) :
  (i1, i2) ∈ combinations2 (seq a n) <-> (a <= i1 /\ i1 < i2 /\ i2 < a + n)%nat.
Proof.
  revert a. induction n as [|n IH]; intros a; simpl.
  - rewrite elem_of_nil. lia.
  - rewrite elem_of_app, list_elem_of_fmap, IH. split.
    + intros [(y & Heq & Hy) | H].
      * inversion Heq; subst. apply elem_of_seq in Hy. lia.
      * lia.
    + intros (Ha & Hlt & Hb). destruct (decide (i1 = a)) as [->|].
      * left. exists i2. split; [done|]. apply elem_of_seq. lia.
      * right. lia.
Qed.

(** ** The error monad and loops *)

Lemma for_each_app {A S : Type} (l1 l2 : list A) (body : S -> A -> py S) (s : S) :
  for_each (l1 ++ l2) body s = (s' ← for_each l1 body s; for_each l2 body s').
Proof.
  revert s. induction l1 as [|x l1 IH]; intros s; simpl; [done|].
  destruct (body s x); simpl; [apply IH | done].
Qed.

Lemma collect_eq {A : Type} (test : A -> py bool) (acc : list A) (p : A) :
  collect test acc p =
  match test p with
  | Ret b => Ret (if b then acc ++ [p] else acc)
  | Raise e => Raise e
  end.
Proof. unfold collect. by destruct (test p). Qed.

Lemma for_each_collect_ret {A : Type} (test : A -> py bool) (l acc r : list A) :
  for_each l (collect test) acc = Ret r <->
  Forall (fun p => exists b, test p = Ret b) l /\ r = acc ++ List.filter (passes test) l.
Proof.
  revert acc. induction l as [|p l IH]; intros acc.
  - simpl. rewrite app_nil_r. split.
    + intros [= ->]. by split.
    + by intros [_ ->].
  - rewrite Forall_cons. cbn [for_each List.filter]. rewrite collect_eq.
    unfold passes at 1. destruct (test p) as [b|e] eqn:Hp; cbn.
    + specialize (IH (if b then acc ++ [p] else acc)).
      rewrite IH. destruct b; rewrite <- ?app_assoc; simpl; split.
      all: try (intros [Hall ->]; split; [split; [by eexists | done] | done]).
      all: intros [[_ Hall] ->]; by split.
    + split; [done|]. intros [[[b Hb] _] _]. congruence.
Qed.

Lemma for_each_collect_raise {A : Type} (test : A -> py bool) (l acc : list A) e :
  for_each l (collect test) acc = Raise e -> Exists (fun p => test p = Raise e) l.
Proof.
  revert acc. induction l as [|p l IH]; intros acc; [done|].
  cbn [for_each]. rewrite collect_eq. destruct (test p) as [b|e'] eqn:Hp; cbn.
  - intros H. apply Exists_cons_tl. by eapply IH.
  - intros [= ->]. by apply Exists_cons_hd.
Qed.

Lemma exceeds_nonzero (sizes : list Z) (threshold : Q) (i1 i2 : nat) (s1 s2 : Z) :
  sizes !! i1 = Some s1 -> sizes !! i2 = Some s2 -> s2 <> 0%Z ->
  exceeds sizes threshold (i1, i2) = Ret (Qgtb (rel_diff s1 s2) threshold).
Proof.
  intros H1 H2 Hnz. unfold exceeds, index, true_div, rel_diff. rewrite H1, H2. cbn.
  destruct (decide (s2 = 0%Z)) as [|_]; [done|]. cbn.
  by destruct (Qgtb _ threshold) eqn:E.
Qed.

Lemma exceeds_zero (sizes : list Z) (threshold : Q) (i1 i2 : nat) (s1 : Z) :
  sizes !! i1 = Some s1 -> sizes !! i2 = Some 0%Z ->
  exceeds sizes threshold (i1, i2) = Raise ZeroDivisionError.
Proof.
  intros H1 H2. unfold exceeds, index, true_div. rewrite H1, H2. done.
Qed.

Lemma exceeds_raise (sizes : list Z) (threshold : Q) (i1 i2 : nat) e :
  (i1 < i2 < length sizes)%nat ->
  exceeds sizes threshold (i1, i2) = Raise e ->
  e = ZeroDivisionError /\ sizes !! i2 = Some 0%Z.
Proof.
  intros [Hlt Hlen].
  destruct (lookup_lt_is_Some_2 sizes i1) as [s1 H1]; [lia|].
  destruct (lookup_lt_is_Some_2 sizes i2) as [s2 H2]; [lia|].
  destruct (decide (s2 = 0%Z)) as [->|Hnz].
  - rewrite (exceeds_zero _ _ _ _ _ H1 H2). by intros [= <-].
  - by rewrite (exceeds_nonzero _ _ _ _ _ _ H1 H2 Hnz).
Qed.

Lemma exceeding_difference_thresh_collect (sizes : list Z) (threshold : Q) :
  exceeding_difference_thresh sizes threshold =
  for_each (combinations2 (seq 0 (length sizes))) (collect (exceeds sizes threshold)) [].
Proof. reflexivity. Qed.

Lemma exceeding_ret_iff (sizes : list Z) (threshold : Q) :
  (exists r, exceeding_difference_thresh sizes threshold = Ret r) <->
  Forall (fun s => s <> 0%Z) (tail sizes).
Proof.
  rewrite exceeding_difference_thresh_collect. split.
  - intros [r Hr]. apply for_each_collect_ret in Hr as [Hall _].
    apply Forall_lookup. intros i s Hi Hz. subst s. rewrite lookup_tail in Hi.
    rewrite Forall_forall in Hall.
    destruct (lookup_lt_is_Some_2 sizes 0) as [s1 H1].
    { apply lookup_lt_Some in Hi. lia. }
    destruct (Hall (0%nat, S i)) as [b Hb].
    { apply elem_of_combinations2_seq. apply lookup_lt_Some in Hi. lia. }
    by rewrite (exceeds_zero _ _ _ _ _ H1 Hi) in Hb.
  - intros Hnz. eexists. apply for_each_collect_ret. split; [|done].
    apply Forall_forall. intros [i1 i2] Hin.
    apply elem_of_combinations2_seq in Hin.
    destruct (lookup_lt_is_Some_2 sizes i1) as [s1 H1]; [lia|].
    destruct (lookup_lt_is_Some_2 sizes i2) as [s2 H2]; [lia|].
    eexists. apply (exceeds_nonzero _ _ _ _ _ _ H1 H2).
    destruct i2 as [|i2]; [lia|]. rewrite <- lookup_tail in H2.
    by apply (Forall_lookup_1 _ _ _ _ Hnz H2).
Qed.

Lemma passes_exceeds (sizes : list Z) (threshold : Q) (i1 i2 : nat) (s1 s2 : Z) :
  sizes !! i1 = Some s1 -> sizes !! i2 = Some s2 -> s2 <> 0%Z ->
  passes (exceeds sizes threshold) (i1, i2) = true <-> (threshold < rel_diff s1 s2)%Q.
Proof.
  intros H1 H2 Hnz. unfold passes. rewrite (exceeds_nonzero _ _ _ _ _ _ H1 H2 Hnz).
  rewrite <- Qgtb_lt. by destruct (Qgtb _ _).
Qed.

(** ** Rounding to a double *)

(** The division at some quotients: thirds and tenths are rounded, a tie
    goes to the even neighbour, and what is below half of the smallest
    double becomes zero. *)
Example double_round_values :
  (double_round (1 # 3) == 6004799503160661 # 18014398509481984)%Q /\
  (double_round (1 # 10) == 3602879701896397 # 36028797018963968)%Q /\
  (double_round (-7 # 3) == -5254199565265579 # 2251799813685248)%Q /\
  (double_round (101 # 201) == 282875349729117 # 562949953421312)%Q /\
  (double_round (9007199254740993 # 1) == 9007199254740992 # 1)%Q /\
  (double_round (9007199254740995 # 1) == 9007199254740996 # 1)%Q /\
  (double_round (inject_Z 1 / inject_Z (2 ^ 1075)) == 0)%Q /\
  (double_round (inject_Z 3 / inject_Z (2 ^ 1075)) == inject_Z 1 / inject_Z (2 ^ 1073))%Q.
Proof. repeat split; vm_compute; reflexivity. Qed.

Lemma round_half_even_le (n d K : Z) :
  (0 < d)%Z -> (n <= K * d)%Z -> (round_half_even n d <= K)%Z.
Proof.
  intros Hd Hn. unfold round_half_even.
  pose proof (Z.div_mod n d ltac:(lia)) as Hdm.
  pose proof (Z.mod_pos_bound n d Hd) as Hr.
  assert (Hq : (n / d <= K)%Z) by nia.
  destruct (decide (n mod d = 0)%Z) as [H0|H0].
  - rewrite H0. simpl. destruct d; lia.
  - assert (n / d + 1 <= K)%Z by nia.
    destruct (2 * (n mod d) ?= d)%Z; [destruct (Z.even _)|..]; lia.
Qed.

Lemma pow2_pos (z : Z) : (0 < 2 ^ z)%Q.
Proof. by apply Qpower_0_lt. Qed.

Lemma pow2_plus (a b : Z) : (2 ^ (a + b) == 2 ^ a * 2 ^ b)%Q.
Proof. by apply Qpower_plus. Qed.

Lemma pow2_inject (z : Z) : (0 <= z)%Z -> (inject_Z (2 ^ z) == 2 ^ z)%Q.
Proof. intros Hz. by rewrite Zpower_Qpower. Qed.

Lemma inject_Z_pos (d : Z) : (0 < d)%Z -> (0 < inject_Z d)%Q.
Proof. intros Hd. unfold Qlt; simpl; lia. Qed.

Lemma pow2_succ (z : Z) : (2 ^ (z + 1) == 2 * 2 ^ z)%Q.
Proof. rewrite pow2_plus. change (2 ^ 1)%Q with 2%Q. ring. Qed.

Lemma pow2_pred (z : Z) : (2 * 2 ^ (z - 1) == 2 ^ z)%Q.
Proof. rewrite <- pow2_succ. by replace (z - 1 + 1)%Z with z by lia. Qed.

Lemma pow2_log2 (n : Z) :
  (0 < n)%Z -> (2 ^ Z.log2 n <= inject_Z n < 2 * 2 ^ Z.log2 n)%Q.
Proof.
  intros Hn. destruct (Z.log2_spec n Hn) as [Hlo Hhi].
  pose proof (Z.log2_nonneg n) as Hnn.
  rewrite <- pow2_succ, <- !pow2_inject by lia.
  rewrite <- Zle_Qle, <- Zlt_Qlt. replace (Z.log2 n + 1)%Z with (Z.succ (Z.log2 n)) by lia.
  done.
Qed.

Lemma pow2_max (k : Z) : (2 ^ Z.max 0 k == 2 ^ k * 2 ^ Z.max 0 (- k))%Q.
Proof.
  rewrite <- pow2_plus. by replace (k + Z.max 0 (- k))%Z with (Z.max 0 k) by lia.
Qed.

(** [log2_ratio n d] is the exponent of the leading bit of [n / d]. *)
Lemma log2_ratio_spec (n d : Z) :
  (0 < n)%Z -> (0 < d)%Z ->
  (2 ^ log2_ratio n d * inject_Z d <= inject_Z n /\
   inject_Z n < 2 * 2 ^ log2_ratio n d * inject_Z d)%Q.
Proof.
  intros Hn Hd. unfold log2_ratio.
  set (k := (Z.log2 n - Z.log2 d)%Z).
  pose proof (pow2_log2 n Hn) as [Hn1 Hn2]. pose proof (pow2_log2 d Hd) as [Hd1 Hd2].
  pose proof (pow2_pos (Z.log2 n)) as Pn. pose proof (pow2_pos (Z.log2 d)) as Pd.
  pose proof (pow2_pos k) as Pk. pose proof (pow2_pos (Z.max 0 (- k))) as PA.
  assert (Hk : (2 ^ Z.log2 n == 2 ^ k * 2 ^ Z.log2 d)%Q).
  { rewrite <- pow2_plus. by replace (k + Z.log2 d)%Z with (Z.log2 n) by lia. }
  pose proof (pow2_max k) as HB.
  destruct (Z.ltb_spec (n * 2 ^ Z.max 0 (- k)) (d * 2 ^ Z.max 0 k)) as [Hlt|Hge].
  - rewrite Zlt_Qlt, !inject_Z_mult, !pow2_inject in Hlt by lia.
    rewrite HB in Hlt. rewrite pow2_pred.
    pose proof (pow2_pred k) as Hp. pose proof (pow2_pos (k - 1)) as Pk1.
    split; [nra|]. nra.
  - rewrite Zle_Qle, !inject_Z_mult, !pow2_inject in Hge by lia.
    rewrite HB in Hge. split; nra.
Qed.

Lemma Q_as_fraction (x : Q) : (x * inject_Z (Zpos (Qden x)) == inject_Z (Qnum x))%Q.
Proof.
  destruct x as [n d]. cbn [Qnum Qden]. unfold Qeq, Qmult, inject_Z. simpl. lia.
Qed.

Lemma log2_ratio_mono (x t : Q) :
  (0 < x)%Q -> (x <= t)%Q ->
  (log2_ratio (Qnum x) (Zpos (Qden x)) <= log2_ratio (Qnum t) (Zpos (Qden t)))%Z.
Proof.
  intros Hx Hxt.
  assert (Hnx : (0 < Qnum x)%Z) by (unfold Qlt in Hx; simpl in Hx; lia).
  assert (Hnt : (0 < Qnum t)%Z).
  { assert (Ht : (0 < t)%Q) by lra. unfold Qlt in Ht; simpl in Ht; lia. }
  destruct (log2_ratio_spec (Qnum x) (Zpos (Qden x)) Hnx ltac:(done)) as [Hlo _].
  destruct (log2_ratio_spec (Qnum t) (Zpos (Qden t)) Hnt ltac:(done)) as [_ Hhi].
  rewrite <- (Q_as_fraction x) in Hlo. rewrite <- (Q_as_fraction t) in Hhi.
  pose proof (inject_Z_pos (Zpos (Qden x)) ltac:(done)) as Dx.
  pose proof (inject_Z_pos (Zpos (Qden t)) ltac:(done)) as Dt.
  set (Ex := log2_ratio (Qnum x) (Zpos (Qden x))) in *.
  set (Et := log2_ratio (Qnum t) (Zpos (Qden t))) in *.
  assert (Hlt : (2 ^ Ex < 2 ^ (Et + 1))%Q).
  { rewrite pow2_succ. pose proof (pow2_pos Ex). pose proof (pow2_pos Et).
    apply Qmult_le_r in Hlo; [|done]. apply Qmult_lt_r in Hhi; [|done]. lra. }
  apply Qpower_lt_compat_l_inv in Hlt; [lia | done].
Qed.

(** Rounding does not pass over a double. *)
Lemma double_round_le (x t : Q) :
  (0 < x)%Q -> (x <= t)%Q -> (double_round t == t)%Q -> (double_round x <= t)%Q.
Proof.
  intros Hx Hxt Ht. pose proof (log2_ratio_mono x t Hx Hxt) as HE.
  assert (Hnx : (0 < Qnum x)%Z) by (unfold Qlt in Hx; simpl in Hx; lia).
  assert (Hnt : (0 < Qnum t)%Z).
  { assert (Ht' : (0 < t)%Q) by lra. unfold Qlt in Ht'; simpl in Ht'; lia. }
  unfold double_round in *.
  rewrite decide_False in Ht by lia. rewrite decide_False by lia.
  rewrite !Z.abs_eq in * by lia.
  set (ex := last_bit (log2_ratio (Qnum x) (Zpos (Qden x)))) in *.
  set (et := last_bit (log2_ratio (Qnum t) (Zpos (Qden t)))) in *.
  assert (Hle : (ex <= et)%Z) by (unfold ex, et, last_bit; lia).
  set (mt := round_half_even _ _) in Ht.
  pose proof (pow2_pos ex) as Pex. pose proof (pow2_pos (Z.max 0 (- ex))) as PA.
  pose proof (inject_Z_pos (Zpos (Qden x)) ltac:(done)) as Dx.
  assert (Het : (2 ^ et == 2 ^ (et - ex) * 2 ^ ex)%Q).
  { rewrite <- pow2_plus. by replace (et - ex + ex)%Z with et by lia. }
  assert (Hm : (round_half_even (Qnum x * 2 ^ Z.max 0 (- ex))
                  (Zpos (Qden x) * 2 ^ Z.max 0 ex) <= mt * 2 ^ (et - ex))%Z).
  { apply round_half_even_le; [lia|].
    rewrite Zle_Qle, !inject_Z_mult, !pow2_inject by lia.
    rewrite (pow2_max ex), <- (Q_as_fraction x).
    rewrite <- Ht, Het in Hxt.
    assert (HDA : (0 <= inject_Z (Zpos (Qden x)) * 2 ^ Z.max 0 (- ex))%Q)
      by (apply Qlt_le_weak, Qmult_lt_0_compat; done).
    pose proof (Qmult_le_compat_r _ _ _ Hxt HDA). lra. }
  rewrite Zle_Qle, inject_Z_mult, pow2_inject in Hm by lia.
  rewrite <- Ht, Het.
  pose proof (Qmult_le_compat_r _ _ _ Hm (Qlt_le_weak _ _ Pex)). lra.
Qed.

Lemma double_round_nonpos (x : Q) : (x <= 0)%Q -> (double_round x <= 0)%Q.
Proof.
  intros Hx. unfold double_round. case_decide; [lra|].
  set (e := last_bit _).
  assert (Hm : (round_half_even (Qnum x * 2 ^ Z.max 0 (- e))
                  (Zpos (Qden x) * 2 ^ Z.max 0 e) <= 0)%Z).
  { apply round_half_even_le; [lia|].
    pose proof (Z.pow_nonneg 2 (Z.max 0 (- e)) ltac:(lia)).
    unfold Qle in Hx. simpl in Hx. nia. }
  rewrite Zle_Qle in Hm. pose proof (pow2_pos e) as Pe.
  pose proof (Qmult_le_compat_r _ _ _ Hm (Qlt_le_weak _ _ Pe)) as H0.
  change (inject_Z 0) with 0%Q in H0. lra.
Qed.

(** A number that rounds above a non-negative double is above it. *)
Lemma double_round_gt (x t : Q) :
  (0 <= t)%Q -> (double_round t == t)%Q -> (t < double_round x)%Q -> (t < x)%Q.
Proof.
  intros H0 Ht Hlt. destruct (Qlt_le_dec t x) as [|Hle]; [done|].
  destruct (Qlt_le_dec 0 x) as [Hpos|Hneg].
  - pose proof (double_round_le x t Hpos Hle Ht). lra.
  - pose proof (double_round_nonpos x Hneg). lra.
Qed.

(** C5: when no size after the first is zero, the check returns, and it
    flags the pair [(i1, i2)] exactly when [i1 < i2] are indices of [sizes]
    and the quotient [|sizes[i1] - sizes[i2]| / sizes[i2]], which is the
    double nearest to the exact ratio, is strictly greater than the
    threshold: the denominator is the second size of the pair, and a
    quotient equal to the threshold is not flagged.  For a threshold that
    is a non-negative double, the exact ratio of every flagged pair is
    strictly greater than the threshold. *)
Theorem exceeding_difference_thresh_flags (sizes : list Z) (threshold : Q) :
  Forall (fun s => s <> 0%Z) (tail sizes) ->
  exists diff_indices,
    exceeding_difference_thresh sizes threshold = Ret diff_indices /\
    (forall i1 i2,
        (i1, i2) ∈ diff_indices <->
        exists s1 s2, (i1 < i2)%nat /\ sizes !! i1 = Some s1 /\ sizes !! i2 = Some s2 /\
                      (threshold < rel_diff s1 s2)%Q) /\
    (forall i1 i2 s1 s2,
        sizes !! i1 = Some s1 -> sizes !! i2 = Some s2 ->
        (rel_diff s1 s2 == threshold)%Q -> (i1, i2) ∉ diff_indices) /\
    ((0 <= threshold)%Q -> is_double threshold ->
     forall i1 i2 s1 s2,
       sizes !! i1 = Some s1 -> sizes !! i2 = Some s2 ->
       (i1, i2) ∈ diff_indices -> (threshold < exact_rel_diff s1 s2)%Q).
Proof.
  intros Hnz. destruct (proj2 (exceeding_ret_iff sizes threshold) Hnz) as [r Hr].
  exists r. split; [done|].
  rewrite exceeding_difference_thresh_collect in Hr.
  apply for_each_collect_ret in Hr as [_ ->]. simpl.
  assert (Hchar : forall i1 i2,
    (i1, i2) ∈ List.filter (passes (exceeds sizes threshold))
                 (combinations2 (seq 0 (length sizes))) <->
    exists s1 s2, (i1 < i2)%nat /\ sizes !! i1 = Some s1 /\ sizes !! i2 = Some s2 /\
                  (threshold < rel_diff s1 s2)%Q).
  { intros i1 i2. rewrite list_elem_of_In, filter_In, <- list_elem_of_In.
    rewrite elem_of_combinations2_seq. split.
    - intros [(_ & Hlt & Hlen) Hp].
      destruct (lookup_lt_is_Some_2 sizes i1) as [s1 H1]; [lia|].
      destruct (lookup_lt_is_Some_2 sizes i2) as [s2 H2]; [lia|].
      exists s1, s2. repeat split; try done.
      eapply passes_exceeds; [done..| |done].
      destruct i2 as [|i2]; [lia|]. rewrite <- lookup_tail in H2.
      by apply (Forall_lookup_1 _ _ _ _ Hnz H2).
    - intros (s1 & s2 & Hlt & H1 & H2 & Hgt).
      pose proof (lookup_lt_Some _ _ _ H2). split; [lia|].
      eapply passes_exceeds; [done..| |done].
      destruct i2 as [|i2]; [lia|]. rewrite <- lookup_tail in H2.
      by apply (Forall_lookup_1 _ _ _ _ Hnz H2). }
  split; [done|]. split.
  - intros i1 i2 s1 s2 H1 H2 Heq Hin.
    apply Hchar in Hin as (s1' & s2' & _ & H1' & H2' & Hgt).
    assert (s1' = s1) as -> by congruence. assert (s2' = s2) as -> by congruence.
    rewrite Heq in Hgt. by apply Qlt_irrefl in Hgt.
  - intros H0 Hd i1 i2 s1 s2 H1 H2 Hin.
    apply Hchar in Hin as (s1' & s2' & _ & H1' & H2' & Hgt).
    assert (s1' = s1) as -> by congruence. assert (s2' = s2) as -> by congruence.
    by apply (double_round_gt _ _ H0 Hd).
Qed.

Lemma exceeding_difference_thresh_flags_witness :
  exists diff_indices,
    exceeding_difference_thresh [100; 200; 201]%Z (1 # 2) = Ret diff_indices /\
    (forall i1 i2,
        (i1, i2) ∈ diff_indices <->
        exists s1 s2, (i1 < i2)%nat /\ [100; 200; 201]%Z !! i1 = Some s1 /\
                      [100; 200; 201]%Z !! i2 = Some s2 /\
                      (1 # 2 < rel_diff s1 s2)%Q) /\
    (forall i1 i2 s1 s2,
        [100; 200; 201]%Z !! i1 = Some s1 -> [100; 200; 201]%Z !! i2 = Some s2 ->
        (rel_diff s1 s2 == 1 # 2)%Q -> (i1, i2) ∉ diff_indices) /\
    ((0 <= 1 # 2)%Q -> is_double (1 # 2) ->
     forall i1 i2 s1 s2,
       [100; 200; 201]%Z !! i1 = Some s1 -> [100; 200; 201]%Z !! i2 = Some s2 ->
       (i1, i2) ∈ diff_indices -> (1 # 2 < exact_rel_diff s1 s2)%Q).
Proof.
  apply (exceeding_difference_thresh_flags [100; 200; 201]%Z (1 # 2)).
  simpl. repeat constructor; lia.
Defined.

(** The claim read with the exact ratio fails: the ratio of the sizes
    [300000000000000001] and [200000000000000000] is above one half, its
    nearest double is one half, and the pair is not flagged. *)
Lemma exceeding_difference_thresh_flags_counterexample :
  (1 # 2 < exact_rel_diff 300000000000000001 200000000000000000)%Q /\
  is_double (1 # 2) /\
  exceeding_difference_thresh [300000000000000001; 200000000000000000]%Z (1 # 2) = Ret [].
Proof. split; [reflexivity|]. split; vm_compute; reflexivity. Qed.

(** The boundary cases of the check: a ratio of one half is not above the
    threshold one half, [101 / 201] is. *)
Example exceeding_difference_thresh_boundary :
  exceeding_difference_thresh [100; 200]%Z (1 # 2) = Ret [] /\
  exceeding_difference_thresh [100; 201]%Z (1 # 2) = Ret [(0, 1)%nat].
Proof. split; vm_compute; reflexivity. Qed.

(** [3 / 10] is computed as the double that [0.3] denotes, which is below
    three tenths: the sizes [13] and [10] are not flagged at [0.3]. *)
Example exceeding_difference_thresh_rounded :
  is_double double_0_3 /\ (double_0_3 < exact_rel_diff 13 10)%Q /\
  (rel_diff 13 10 == double_0_3)%Q /\
  exceeding_difference_thresh [13; 10]%Z double_0_3 = Ret [].
Proof. repeat split; vm_compute; reflexivity. Qed.

(** C10: the check returns exactly when no size after the first, that is
    no size used as the second element of a pair, is zero; it raises a
    division error exactly when there is such a size, as for the sizes
    [100, 0] of a file that is empty in the second tree. *)
Theorem exceeding_difference_thresh_zero_division :
  (forall sizes threshold,
      ((exists r, exceeding_difference_thresh sizes threshold = Ret r) <->
       Forall (fun s => s <> 0%Z) (tail sizes)) /\
      (exceeding_difference_thresh sizes threshold = Raise ZeroDivisionError <->
       Exists (fun s => s = 0%Z) (tail sizes))) /\
  (forall threshold,
      exceeding_difference_thresh [100; 0]%Z threshold = Raise ZeroDivisionError).
Proof.
  assert (Hraise : forall sizes threshold e,
    exceeding_difference_thresh sizes threshold = Raise e -> e = ZeroDivisionError).
  { intros sizes threshold e He. rewrite exceeding_difference_thresh_collect in He.
    apply for_each_collect_raise, Exists_exists in He as ([i1 i2] & Hin & He).
    apply elem_of_combinations2_seq in Hin.
    apply exceeds_raise in He as [-> _]; [done | lia]. }
  assert (Hiff : forall sizes threshold,
    exceeding_difference_thresh sizes threshold = Raise ZeroDivisionError <->
    Exists (fun s => s = 0%Z) (tail sizes)).
  { intros sizes threshold. pose proof (exceeding_ret_iff sizes threshold) as Hret.
    split.
    - intros He. destruct (decide (Exists (fun s => s = 0%Z) (tail sizes))) as [|Hn]; [done|].
      apply not_Exists_Forall in Hn; [|intros s; apply _].
      apply Hret in Hn as [r Hr]. congruence.
    - intros Hex. destruct (exceeding_difference_thresh sizes threshold) as [r|e] eqn:E.
      + apply Exists_exists in Hex as (s & Hin & ->).
        assert (Hall : Forall (fun s => s <> 0%Z) (tail sizes)) by (apply Hret; by exists r).
        rewrite Forall_forall in Hall. by destruct (Hall _ Hin).
      + by rewrite (Hraise _ _ _ E). }
  split.
  - intros sizes threshold. split; [apply exceeding_ret_iff | apply Hiff].
  - intros threshold. apply Hiff. simpl. by apply Exists_cons_hd.
Qed.

(** ** Dictionaries *)

Section dict.
Context {V : Type}.
Implicit Types (d : dict V) (k : string) (v : V).

Lemma dict_get_set_eq d k v : dict_get (dict_set d k v) k = Some v.
Proof.
  induction d as [|[k' v'] d IH]; simpl.
  - by rewrite decide_True.
  - destruct (decide (k' = k)) as [->|Hne]; simpl.
    + by rewrite decide_True.
    + by rewrite decide_False.
Qed.

Lemma dict_get_set_ne d k k' v : k <> k' -> dict_get (dict_set d k v) k' = dict_get d k'.
Proof.
  intros Hne. induction d as [|[k0 v0] d IH]; simpl.
  - by rewrite decide_False.
  - destruct (decide (k0 = k)) as [->|Hne0]; simpl.
    + by rewrite !decide_False.
    + by rewrite IH.
Qed.

Lemma dict_get_set d k k' v :
  dict_get (dict_set d k v) k' = if decide (k = k') then Some v else dict_get d k'.
Proof.
  destruct (decide (k = k')) as [->|Hne];
    [apply dict_get_set_eq | by apply dict_get_set_ne].
Qed.

Lemma dict_get_Some_elem_of d k v : dict_get d k = Some v -> (k, v) ∈ d.
Proof.
  induction d as [|[k' v'] d IH]; simpl; [done|].
  destruct (decide (k' = k)) as [->|Hne].
  - intros [= ->]. apply list_elem_of_here.
  - intros H. apply list_elem_of_further. by apply IH.
Qed.

Lemma dict_get_None d k : dict_get d k = None <-> k ∉ d.*1.
Proof.
  induction d as [|[k' v'] d IH]; simpl.
  - split; [intros _; apply not_elem_of_nil | done].
  - rewrite not_elem_of_cons. destruct (decide (k' = k)) as [->|Hne].
    + split; [done | by intros [? _]].
    + rewrite IH. intuition congruence.
Qed.

Lemma dict_get_is_Some d k : is_Some (dict_get d k) <-> k ∈ d.*1.
Proof.
  rewrite <- not_eq_None_Some, dict_get_None.
  split; [apply dec_stable | by intros ? ?].
Qed.

Lemma elem_of_dict_get d k v : NoDup d.*1 -> (k, v) ∈ d -> dict_get d k = Some v.
Proof.
  induction d as [|[k' v'] d IH]; simpl; [by intros _ ?%elem_of_nil|].
  intros [Hk Hd]%NoDup_cons [[= -> ->]|Hin]%elem_of_cons.
  - by rewrite decide_True.
  - rewrite decide_False; [by apply IH|].
    intros ->. apply Hk. apply list_elem_of_fmap. by exists (k, v).
Qed.

Lemma dict_set_keys d k v :
  (dict_set d k v).*1 = if decide (k ∈ d.*1) then d.*1 else d.*1 ++ [k].
Proof.
  induction d as [|[k' v'] d IH]; csimpl; [done|].
  destruct (decide (k' = k)) as [->|Hne]; csimpl.
  - destruct (decide (k ∈ k :: d.*1)) as [_|Hin]; [done|].
    destruct Hin. apply list_elem_of_here.
  - rewrite IH.
    destruct (decide (k ∈ d.*1)) as [Hin|Hin];
      destruct (decide (k ∈ k' :: d.*1)) as [Hin'|Hin']; try done.
    + destruct Hin'. by apply list_elem_of_further.
    + apply elem_of_cons in Hin' as [->|?]; done.
Qed.

Lemma dict_set_NoDup d k v : NoDup d.*1 -> NoDup (dict_set d k v).*1.
Proof.
  intros Hd. rewrite dict_set_keys. destruct (decide (k ∈ d.*1)) as [|Hk]; [done|].
  apply NoDup_app. split; [done|]. split; [|apply NoDup_singleton].
  intros x Hx Hxk. apply list_elem_of_singleton in Hxk. by subst x.
Qed.

Lemma fold_dict_set_NoDup (members : list (string * V)) d :
  NoDup d.*1 -> NoDup (fold_left (fun d m => dict_set d m.1 m.2) members d).*1.
Proof.
  revert d. induction members as [|m members IH]; intros d Hd; simpl; [done|].
  apply IH. by apply dict_set_NoDup.
Qed.

Lemma json_object_NoDup (members : list (string * V)) : NoDup (json_object members).*1.
Proof. apply fold_dict_set_NoDup. constructor. Qed.

End dict.

(** ** Severity classifier *)

Lemma classify_test_eq (h : string) (m : dict (list string)) (t : TestOutcome) :
  classify_test h m t =
  if decide (test_name t = "test_summary")
  then match dict_get m (result t) with
       | Some b => Ret (dict_set m (result t) (b ++ [h]))
       | None => Raise KeyError
       end
  else Ret m.
Proof.
  unfold classify_test, getitem.
  destruct (decide (test_name t = "test_summary")) as [Heq|Hne].
  - rewrite decide_False by (by intros ?). by destruct (dict_get m (result t)).
  - by rewrite decide_True.
Qed.

Lemma classify_tests (h : string) (tests : list TestOutcome) (m : dict (list string)) :
  (forall t, t ∈ tests -> test_name t = "test_summary" -> result t ∈ m.*1) ->
  exists m',
    for_each tests (classify_test h) m = Ret m' /\ m'.*1 = m.*1 /\
    forall sev, dict_get m' sev =
                (fun b => b ++ map (fun _ => h) (List.filter (is_verdict sev) tests))
                  <$> dict_get m sev.
Proof.
  revert m. induction tests as [|t tests IH]; intros m Hm.
  - exists m. split; [done|]. split; [done|]. intros sev. simpl.
    destruct (dict_get m sev); simpl; by rewrite ?app_nil_r.
  - cbn [for_each]. rewrite classify_test_eq.
    destruct (decide (test_name t = "test_summary")) as [Heq|Hne].
    + destruct (proj2 (dict_get_is_Some m (result t))) as [b Hb].
      { apply Hm; [apply list_elem_of_here | done]. }
      rewrite Hb. cbn.
      assert (Hkeys : (dict_set m (result t) (b ++ [h])).*1 = m.*1).
      { rewrite dict_set_keys, decide_True; [done|].
        apply dict_get_is_Some. by exists b. }
      destruct (IH (dict_set m (result t) (b ++ [h]))) as (m' & Hrun & Hk & Hget).
      { intros t' Hin' Ht'. rewrite Hkeys. apply Hm; [by apply list_elem_of_further | done]. }
      exists m'. split; [done|]. split; [congruence|].
      intros sev. rewrite Hget, dict_get_set. cbn [List.filter]. unfold is_verdict at 2.
      destruct (decide (result t = sev)) as [<-|Hsev].
      * rewrite bool_decide_eq_true_2 by done. rewrite Hb. simpl.
        by rewrite <- app_assoc.
      * rewrite bool_decide_eq_false_2 by (by intros [_ ?]). done.
    + cbn. destruct (IH m) as (m' & Hrun & Hk & Hget).
      { intros t' Hin' Ht'. apply Hm; [by apply list_elem_of_further | done]. }
      exists m'. split; [done|]. split; [done|].
      intros sev. rewrite Hget. cbn [List.filter]. unfold is_verdict at 2.
      rewrite bool_decide_eq_false_2 by (by intros [? _]). done.
Qed.

Lemma classify_loop (summary : dict (list TestOutcome)) (m : dict (list string)) :
  (forall e t, e ∈ summary -> t ∈ e.2 -> test_name t = "test_summary" ->
               result t ∈ m.*1) ->
  exists m',
    for_each summary
      (fun test_n_hist_map '(histo_name, tests) =>
         for_each tests (classify_test histo_name) test_n_hist_map) m = Ret m' /\
    m'.*1 = m.*1 /\
    forall sev, dict_get m' sev = (fun b => b ++ verdicts summary sev) <$> dict_get m sev.
Proof.
  revert m. induction summary as [|[h tests] summary IH]; intros m Hm.
  - exists m. split; [done|]. split; [done|]. intros sev. simpl.
    destruct (dict_get m sev); simpl; by rewrite ?app_nil_r.
  - cbn [for_each].
    destruct (classify_tests h tests m) as (m1 & Hrun1 & Hk1 & Hget1).
    { intros t Hin. by apply (Hm (h, tests)); [apply list_elem_of_here|]. }
    rewrite Hrun1. cbn.
    destruct (IH m1) as (m' & Hrun & Hk & Hget).
    { intros e t He Hin Ht. rewrite Hk1. by apply (Hm e); [apply list_elem_of_further|..]. }
    exists m'. split; [done|]. split; [congruence|].
    intros sev. rewrite Hget, Hget1. unfold verdicts. cbn [flat_map].
    destruct (dict_get m sev); simpl; [|done]. by rewrite <- app_assoc.
Qed.

Lemma elem_of_verdicts (summary : dict (list TestOutcome)) (sev h : string) :
  NoDup summary.*1 ->
  h ∈ verdicts summary sev <->
  exists tests t, dict_get summary h = Some tests /\ t ∈ tests /\
                  test_name t = "test_summary" /\ result t = sev.
Proof.
  intros Hnd. unfold verdicts. rewrite list_elem_of_In, in_flat_map. split.
  - intros ([h' tests] & Hin & Hh). apply in_map_iff in Hh as (t & <- & Ht).
    apply filter_In in Ht as [Ht Hv]. apply bool_decide_eq_true_1 in Hv as [Hn Hr].
    exists tests, t. rewrite list_elem_of_In. repeat split; try done.
    apply elem_of_dict_get; [done | by apply list_elem_of_In].
  - intros (tests & t & Hget & Hin & Hn & Hr). exists (h, tests). split.
    + by apply list_elem_of_In, dict_get_Some_elem_of.
    + apply in_map_iff. exists t. split; [done|]. apply filter_In.
      split; [by apply list_elem_of_In|]. by apply bool_decide_eq_true_2.
Qed.

Lemma initial_buckets (sev : string) (b : list string) :
  dict_get (map (fun s => (s.1, [])) REL_VAL_SEVERITY_MAP) sev = Some b -> b = [].
Proof. simpl. repeat case_decide; congruence. Qed.

(** C1: when every overall verdict of a summary document carries one of the
    five severities, the classifier returns one bucket per severity, and an
    artifact is in the bucket of a severity exactly when one of its
    outcomes is named [test_summary] and has that severity as result; the
    other outcomes play no role, and an artifact without a [test_summary]
    outcome is in no bucket. *)
Theorem print_summary_buckets (fs : filesystem) (filename : string) :
  valid_verdicts (json_object (load_summary fs filename)) ->
  exists test_n_hist_map,
    print_summary fs filename = Ret test_n_hist_map /\
    test_n_hist_map.*1 = REL_VAL_SEVERITY_MAP.*1 /\
    (forall sev bucket histo_name,
        dict_get test_n_hist_map sev = Some bucket ->
        histo_name ∈ bucket <->
        exists tests t,
          dict_get (json_object (load_summary fs filename)) histo_name = Some tests /\
          t ∈ tests /\ test_name t = "test_summary" /\ result t = sev) /\
    (forall histo_name tests,
        dict_get (json_object (load_summary fs filename)) histo_name = Some tests ->
        (forall t, t ∈ tests -> test_name t <> "test_summary") ->
        forall sev bucket, dict_get test_n_hist_map sev = Some bucket ->
                           histo_name ∉ bucket).
Proof.
  intros Hvalid. unfold print_summary, classify.
  set (summary := json_object (load_summary fs filename)) in *.
  destruct (classify_loop summary (map (fun s => (s.1, [])) REL_VAL_SEVERITY_MAP))
    as (m & Hrun & Hkeys & Hget).
  { intros e t He Ht Hn. unfold valid_verdicts in Hvalid.
    rewrite Forall_forall in Hvalid. specialize (Hvalid e He).
    rewrite Forall_forall in Hvalid. by apply Hvalid. }
  exists m. split; [done|]. split; [done|].
  assert (Hchar : forall sev bucket histo_name,
    dict_get m sev = Some bucket ->
    histo_name ∈ bucket <->
    exists tests t, dict_get summary histo_name = Some tests /\
                    t ∈ tests /\ test_name t = "test_summary" /\ result t = sev).
  { intros sev bucket h Hb. rewrite Hget in Hb.
    destruct (dict_get _ sev) as [b0|] eqn:H0; [|done].
    apply initial_buckets in H0 as ->. injection Hb as <-. simpl.
    apply elem_of_verdicts, json_object_NoDup. }
  split; [done|].
  intros h tests Hh Hnone sev bucket Hb Hin.
  apply (Hchar _ _ _ Hb) in Hin as (tests' & t & Hh' & Ht & Hn & _).
  assert (tests' = tests) as -> by congruence. by apply (Hnone t).
Qed.

Lemma print_summary_buckets_witness :
  exists test_n_hist_map,
    print_summary fs_H1_H2 "SummaryGlobal.json" = Ret test_n_hist_map /\
    test_n_hist_map.*1 = REL_VAL_SEVERITY_MAP.*1 /\
    (forall sev bucket histo_name,
        dict_get test_n_hist_map sev = Some bucket ->
        histo_name ∈ bucket <->
        exists tests t,
          dict_get (json_object (load_summary fs_H1_H2 "SummaryGlobal.json")) histo_name
            = Some tests /\
          t ∈ tests /\ test_name t = "test_summary" /\ result t = sev) /\
    (forall histo_name tests,
        dict_get (json_object (load_summary fs_H1_H2 "SummaryGlobal.json")) histo_name
          = Some tests ->
        (forall t, t ∈ tests -> test_name t <> "test_summary") ->
        forall sev bucket, dict_get test_n_hist_map sev = Some bucket ->
                           histo_name ∉ bucket).
Proof.
  apply (print_summary_buckets fs_H1_H2 "SummaryGlobal.json").
  apply (bool_decide_unpack _). vm_compute. exact I.
Defined.

Example print_summary_H1_H2 :
  print_summary fs_H1_H2 "SummaryGlobal.json" =
  Ret [("GOOD", []); ("WARNING", []); ("NONCRIT_NC", []); ("CRIT_NC", []); ("BAD", ["H1"])].
Proof. reflexivity. Qed.

(** Whenever the classifier returns, it returns one bucket per severity. *)
Lemma for_each_invariant {A S : Type} (P : S -> Prop) (body : S -> A -> py S)
    (l : list A) (s s' : S) :
  (forall s x s', body s x = Ret s' -> P s -> P s') ->
  P s -> for_each l body s = Ret s' -> P s'.
Proof.
  intros Hbody. revert s. induction l as [|x l IH]; intros s Hs; cbn [for_each].
  - by intros [= <-].
  - destruct (body s x) as [s1|e] eqn:Hx; cbn; [|done].
    apply IH. by eapply Hbody.
Qed.

Lemma classify_test_keys (h : string) (m m' : dict (list string)) (t : TestOutcome) :
  classify_test h m t = Ret m' -> m'.*1 = m.*1.
Proof.
  rewrite classify_test_eq. destruct (decide _); [|by intros [= <-]].
  destruct (dict_get m (result t)) as [b|] eqn:Hb; [|done]. intros [= <-].
  rewrite dict_set_keys, decide_True; [done|]. apply dict_get_is_Some. by exists b.
Qed.

Lemma classify_keys (summary : dict (list TestOutcome)) (m : dict (list string)) :
  classify summary = Ret m -> m.*1 = REL_VAL_SEVERITY_MAP.*1.
Proof.
  unfold classify.
  apply (for_each_invariant (fun m => m.*1 = REL_VAL_SEVERITY_MAP.*1)); [|done].
  intros m0 [h tests] m1 Hrun Hm0. revert Hrun.
  apply (for_each_invariant (fun m => m.*1 = REL_VAL_SEVERITY_MAP.*1)); [|done].
  intros m2 t m3 Hstep Hm2. apply classify_test_keys in Hstep. congruence.
Qed.

(** ** Cross-run comparison *)

Lemma elem_of_set_intersection (a b : list string) (x : string) :
  x ∈ set_intersection a b <-> x ∈ a /\ x ∈ b.
Proof.
  unfold set_intersection.
  by rewrite elem_of_elements, elem_of_intersection, !elem_of_list_to_set.
Qed.

Lemma elem_of_differing (intersection bucket : list string) (x : string) :
  x ∈ differing intersection bucket <-> x ∈ bucket /\ x ∉ intersection.
Proof.
  unfold differing. rewrite list_elem_of_In, filter_In, <- list_elem_of_In.
  by rewrite bool_decide_eq_true.
Qed.

Lemma report_severity_eq (mA mB : dict (list string))
    (report : list (string * list (list string))) (sev : string) (bA bB : list string) :
  dict_get mA sev = Some bA -> dict_get mB sev = Some bB ->
  report_severity [mA; mB] report sev =
  Ret (report ++ [(sev, [differing (set_intersection bA bB) bA;
                          differing (set_intersection bA bB) bB])]).
Proof.
  intros HA HB.
  assert (GA : getitem mA sev = Ret bA) by (unfold getitem; by rewrite HA).
  assert (GB : getitem mB sev = Ret bB) by (unfold getitem; by rewrite HB).
  unfold report_severity.
  change (index [mA; mB] 0) with (Ret mA). change (index [mA; mB] 1) with (Ret mB).
  cbn [mbind py_bind mapM]. rewrite GA. cbn [mbind py_bind]. rewrite GB.
  done.
Qed.

Lemma report_over_severities (mA mB : dict (list string)) (sevs : list string)
    (report : list (string * list (list string))) :
  (forall sev, sev ∈ sevs -> sev ∈ mA.*1 /\ sev ∈ mB.*1) ->
  exists report',
    for_each sevs (report_severity [mA; mB]) report = Ret (report ++ report') /\
    report'.*1 = sevs /\
    forall sev printed,
      (sev, printed) ∈ report' ->
      exists bA bB,
        dict_get mA sev = Some bA /\ dict_get mB sev = Some bB /\
        printed = [differing (set_intersection bA bB) bA;
                   differing (set_intersection bA bB) bB].
Proof.
  revert report. induction sevs as [|sev sevs IH]; intros report Hkeys.
  - exists []. rewrite app_nil_r. split; [done|]. split; [done|].
    by intros ?? ?%elem_of_nil.
  - destruct (Hkeys sev) as [HA HB]; [apply list_elem_of_here|].
    apply dict_get_is_Some in HA as [bA HA]. apply dict_get_is_Some in HB as [bB HB].
    cbn [for_each]. rewrite (report_severity_eq _ _ _ _ _ _ HA HB). cbn.
    destruct (IH (report ++ [(sev, [differing (set_intersection bA bB) bA;
                                    differing (set_intersection bA bB) bB])]))
      as (report' & Hrun & Hfst & Hin).
    { intros s Hs. apply Hkeys. by apply list_elem_of_further. }
    eexists (_ :: report'). rewrite Hrun, <- app_assoc. split; [done|].
    split; [csimpl; by rewrite Hfst|].
    intros s printed [[= -> ->]|Hs]%elem_of_cons; [by exists bA, bB | by apply Hin].
Qed.

(** With the two inputs in hand, and for two summaries that both classify,
    the difference report has one row per severity; the names it prints
    for an input are exactly the names of that input's bucket that are not
    in the intersection of the two buckets, and a name in both buckets is
    printed for neither input. *)
Lemma difference_report_rows (fs : filesystem) (inputA inputB : string)
    (summaryA summaryB : dict (list string)) :
  path_exists fs (os_path_join inputA "SummaryGlobal.json") = true ->
  path_exists fs (os_path_join inputB "SummaryGlobal.json") = true ->
  print_summary fs (os_path_join inputA "SummaryGlobal.json") = Ret summaryA ->
  print_summary fs (os_path_join inputB "SummaryGlobal.json") = Ret summaryB ->
  exists report,
    difference_report fs [inputA; inputB] = Ret (0%Z, report) /\
    report.*1 = REL_VAL_SEVERITY_MAP.*1 /\
    forall severity printed,
      (severity, printed) ∈ report ->
      exists bucketA bucketB differingA differingB,
        dict_get summaryA severity = Some bucketA /\
        dict_get summaryB severity = Some bucketB /\
        printed = [differingA; differingB] /\
        (forall h, h ∈ set_intersection bucketA bucketB <-> h ∈ bucketA /\ h ∈ bucketB) /\
        (forall h, h ∈ differingA <->
                   h ∈ bucketA /\ h ∉ set_intersection bucketA bucketB) /\
        (forall h, h ∈ differingB <->
                   h ∈ bucketB /\ h ∉ set_intersection bucketA bucketB) /\
        (forall h, h ∈ bucketA -> h ∈ bucketB -> (h ∉ differingA) /\ (h ∉ differingB)).
Proof.
  intros HeA HeB HA HB. unfold difference_report.
  cbn [map forallb]. rewrite HeA, HeB. cbn [andb negb mapM mbind py_bind].
  rewrite HA. cbn [mbind py_bind]. rewrite HB. cbn [mbind py_bind mret py_ret].
  destruct (report_over_severities summaryA summaryB (map fst REL_VAL_SEVERITY_MAP) [])
    as (report & Hrun & Hfst & Hrows).
  { intros sev Hsev. unfold print_summary in HA, HB.
    by rewrite (classify_keys _ _ HA), (classify_keys _ _ HB). }
  exists report. rewrite Hrun. split; [done|]. split; [done|].
  intros sev printed Hin. destruct (Hrows _ _ Hin) as (bA & bB & HgA & HgB & ->).
  exists bA, bB, (differing (set_intersection bA bB) bA),
    (differing (set_intersection bA bB) bB).
  split; [done|]. split; [done|]. split; [done|].
  split; [intros h; apply elem_of_set_intersection|].
  split; [intros h; apply elem_of_differing|].
  split; [intros h; apply elem_of_differing|].
  intros h HhA HhB. rewrite !elem_of_differing, elem_of_set_intersection. tauto.
Qed.

Example difference_report_A_B :
  difference_report fs_runs ["A"; "B"] =
  Ret (0%Z, [("GOOD", [[]; []]); ("WARNING", [["H1"]; ["H3"]]);
             ("NONCRIT_NC", [[]; []]); ("CRIT_NC", [[]; []]); ("BAD", [[]; []])]).
Proof. vm_compute. reflexivity. Qed.

(** C3, at an input where the claim fails: the comparison asks its
    namespace for [input], which the parser of [compare] does not define,
    so it raises an attribute error whatever the flags, the inputs and the
    files are, and reports nothing.  For the runs [A] and [B], whose
    summaries exist and put [H1], [H2] and [H2], [H3] at [WARNING], the
    report that the statements after the read would give, [H1] for the
    first and [H3] for the second input, is never made. *)
Theorem compare_attribute_error :
  (forall fs args, compare fs args = Raise AttributeError) /\
  compare fs_runs example_compare_args = Raise AttributeError /\
  path_exists fs_runs "A/SummaryGlobal.json" = true /\
  path_exists fs_runs "B/SummaryGlobal.json" = true /\
  exists report,
    difference_report fs_runs ["A"; "B"] = Ret (0%Z, report) /\
    dict_get report "WARNING" = Some [["H1"]; ["H3"]].
Proof.
  assert (Hall : forall fs args, compare fs args = Raise AttributeError).
  { intros fs args. unfold compare.
    destruct (cmp_difference args), (cmp_compare_values args); reflexivity. }
  split; [done|]. split; [apply Hall|]. split; [done|]. split; [done|].
  eexists. split; [vm_compute; reflexivity|]. reflexivity.
Qed.

(** ** Threshold rebuild *)

Section ThresholdFileProperties.

Variable float_str : Q -> string.

Lemma write_thresholds (histo_name : string) (tests : list TestOutcome)
    (written : list string) :
  Forall (fun t => comparable t = true -> is_Some (value t)) tests ->
  exists lines,
    for_each tests (write_threshold float_str histo_name) written
      = Ret (written ++ lines) /\
    Forall2 (line_of float_str) lines (map (pair histo_name) (List.filter comparable tests)).
Proof.
  revert written. induction tests as [|t tests IH]; intros written Hall.
  - exists []. rewrite app_nil_r. by split; [|constructor].
  - apply Forall_cons in Hall as [Ht Hall]. cbn [for_each List.filter].
    destruct (comparable t) eqn:Hc.
    + destruct (Ht eq_refl) as [v Hv].
      assert (Hstep : write_threshold float_str histo_name written t =
                      Ret (written ++ [threshold_line float_str histo_name t v]))
        by (unfold write_threshold; by rewrite Hc, Hv).
      rewrite Hstep. cbn [mbind py_bind].
      destruct (IH (written ++ [threshold_line float_str histo_name t v]) Hall)
        as (lines & Hrun & Hlines).
      exists (threshold_line float_str histo_name t v :: lines).
      rewrite Hrun, <- app_assoc. split; [done|]. constructor; [|done].
      by exists v.
    + assert (Hstep : write_threshold float_str histo_name written t = Ret written)
        by (unfold write_threshold; by rewrite Hc).
      rewrite Hstep. cbn [mbind py_bind].
      destruct (IH written Hall) as (lines & Hrun & Hlines). by exists lines.
Qed.

Lemma write_documents (json_in : dict (list TestOutcome)) (written : list string) :
  comparable_have_values json_in ->
  exists lines,
    for_each json_in
      (fun written '(histo_name, tests) =>
         for_each tests (write_threshold float_str histo_name) written) written
      = Ret (written ++ lines) /\
    Forall2 (line_of float_str) lines (comparable_outcomes json_in).
Proof.
  revert written. induction json_in as [|[h tests] json_in IH]; intros written Hall.
  - exists []. rewrite app_nil_r. by split; [|constructor].
  - apply Forall_cons in Hall as [Ht Hall]. cbn [for_each].
    destruct (write_thresholds h tests written Ht) as (lines1 & Hrun1 & Hlines1).
    rewrite Hrun1. cbn.
    destruct (IH (written ++ lines1) Hall) as (lines & Hrun & Hlines).
    exists (lines1 ++ lines). rewrite Hrun, <- app_assoc. split; [done|].
    unfold comparable_outcomes. cbn [flat_map]. by apply Forall2_app.
Qed.


End ThresholdFileProperties.


Example make_new_threshold_file_H1_H2 :
  make_new_threshold_file example_float_str fs_H1_H2 "SummaryGlobal.json" =
  Ret ["H1,chi2,1.2" +:+ newline; "H2,chi2,0.5" +:+ newline].
Proof. vm_compute. reflexivity. Qed.

(** ** Summary aggregator *)

Lemma fold_left_invariant {A S : Type} (P : S -> Prop) (f : S -> A -> S)
    (l : list A) (s : S) :
  (forall s x, x ∈ l -> P s -> P (f s x)) -> P s -> P (fold_left f l s).
Proof.
  revert s. induction l as [|x l IH]; intros s Hf Hs; simpl; [done|].
  apply IH.
  - intros s' y Hy. apply Hf. by apply list_elem_of_further.
  - apply Hf; [apply list_elem_of_here | done].
Qed.

Lemma fold_left_ext_in {A S : Type} (f g : S -> A -> S) (l : list A) (s : S) :
  (forall x s, x ∈ l -> f s x = g s x) -> fold_left f l s = fold_left g l s.
Proof.
  revert s. induction l as [|x l IH]; intros s Hfg; simpl; [done|].
  rewrite Hfg by apply list_elem_of_here. apply IH.
  intros y s' Hy. apply Hfg. by apply list_elem_of_further.
Qed.

(** Storing the entries of a dictionary into another one. *)
Lemma dict_get_fold_set {V W : Type} (f : string -> V -> W) (d : dict V)
    (s : dict W) (h : string) :
  NoDup d.*1 ->
  dict_get (fold_left (fun s '(k, v) => dict_set s k (f k v)) d s) h =
  match dict_get d h with
  | Some v => Some (f h v)
  | None => dict_get s h
  end.
Proof.
  revert s. induction d as [|[k v] d IH]; intros s Hnd; [done|].
  apply NoDup_cons in Hnd as [Hk Hnd]. cbn [fold_left dict_get].
  rewrite IH by done. destruct (decide (k = h)) as [->|Hne].
  - apply (proj2 (dict_get_None d h)) in Hk. by rewrite Hk, dict_get_set_eq.
  - by rewrite dict_get_set_ne.
Qed.

Lemma dict_get_merge_document (fs : filesystem) (in_dir path h : string)
    (summary : dict (list TestOutcome)) :
  dict_get (merge_document fs in_dir summary path) h =
  match dict_get (json_object (load_summary fs path)) h with
  | Some tests => Some (map (annotate_from fs in_dir path h) tests)
  | None => dict_get summary h
  end.
Proof.
  unfold merge_document.
  apply (dict_get_fold_set (fun k tests => map (annotate_from fs in_dir path k) tests)).
  apply json_object_NoDup.
Qed.

Lemma merge_document_NoDup (fs : filesystem) (in_dir path : string)
    (summary : dict (list TestOutcome)) :
  NoDup summary.*1 -> NoDup (merge_document fs in_dir summary path).*1.
Proof.
  intros Hnd. unfold merge_document.
  apply (fold_left_invariant (fun s => NoDup s.*1)); [|done].
  intros s [k v] _ Hs. by apply dict_set_NoDup.
Qed.

Lemma dict_get_merge_absent (fs : filesystem) (in_dir h : string) (paths : list string)
    (summary : dict (list TestOutcome)) :
  (forall q, q ∈ paths -> dict_get (json_object (load_summary fs q)) h = None) ->
  dict_get (fold_left (merge_document fs in_dir) paths summary) h = dict_get summary h.
Proof.
  revert summary. induction paths as [|q paths IH]; intros summary Habs; simpl; [done|].
  rewrite IH.
  - rewrite dict_get_merge_document, Habs; [done | apply list_elem_of_here].
  - intros q' Hq'. apply Habs. by apply list_elem_of_further.
Qed.



Example make_summary_collision :
  make_summary fs_collision "out" =
  [("H1", [annotate "H1" "g2" "g2" "g2/overlayPlots" (verdict "BAD")]);
   ("H0", [annotate "H0" "g1" "g1/a" "g1/a/overlayPlots" (verdict "GOOD")]);
   ("H2", [annotate "H2" "g2" "g2" "g2/overlayPlots" (verdict "WARNING")])].
Proof. vm_compute. reflexivity. Qed.

(** C8: the aggregate is a function of what the aggregator reads: two
    states of the file system that list the same result documents, in the
    same order and with the same contents and relative locations, give the
    same global summary, keys in the same order, whatever else differs
    between them; and no key occurs twice in it. *)
Theorem make_summary_deterministic (fs fs' : filesystem) (in_dir : string) :
  glob fs (in_dir +:+ "/**/Summary.json") = glob fs' (in_dir +:+ "/**/Summary.json") ->
  Forall (fun path =>
            load_summary fs path = load_summary fs' path /\
            relpath fs (rel_val_path path) in_dir = relpath fs' (rel_val_path path) in_dir)
         (glob fs (in_dir +:+ "/**/Summary.json")) ->
  make_summary fs in_dir = make_summary fs' in_dir /\
  NoDup (make_summary fs in_dir).*1.
Proof.
  intros Hglob Hsame. split.
  - unfold make_summary. rewrite <- Hglob. apply fold_left_ext_in.
    intros path summary Hpath. rewrite Forall_forall in Hsame.
    destruct (Hsame path Hpath) as [Hload Hrel].
    unfold merge_document, annotate_from. by rewrite Hload, Hrel.
  - unfold make_summary.
    apply (fold_left_invariant (fun s => NoDup s.*1)); [|constructor].
    intros s path _ Hs. by apply merge_document_NoDup.
Qed.

Lemma make_summary_deterministic_witness :
  make_summary fs_collision "out" = make_summary fs_collision_rerun "out" /\
  NoDup (make_summary fs_collision "out").*1.
Proof.
  apply (make_summary_deterministic fs_collision fs_collision_rerun "out").
  - reflexivity.
  - repeat constructor.
Defined.

(** ** File-set matcher *)

Example find_mutual_files_trees :
  find_mutual_files fs_trees ["A"; "B"] "*.root" None = ["hits.root"; "tpc/qc.root"].
Proof. vm_compute. reflexivity. Qed.

Example file_sizes_trees :
  file_sizes fs_trees ["A"; "B"] (1 # 2) =
  Ret {| cd_directories := ["A"; "B"];
         cd_files := [("hits.root", [201; 100]%Z)];
         cd_threshold := 1 # 2 |}.
Proof. vm_compute. reflexivity. Qed.

Example rel_val_sim_dirs_trees :
  rel_val_sim_dirs fs_trees (example_args (1 # 10) None None) =
  ([JsonDump "rel_val/file_sizes.json"
      {| cd_directories := ["A"; "B"];
         cd_files := [("hits.root", [201; 100]%Z)];
         cd_threshold := 1 # 2 |};
    RelValFiles ["A/hits.root"; "A/tpc/qc.root"] ["B/hits.root"; "B/tpc/qc.root"]
      "rel_val/hits/all";
    RelValFiles ["A/hits.root"; "A/tpc/qc.root"] ["B/hits.root"; "B/tpc/qc.root"]
      "rel_val/qc/tpc"],
   Ret 0%Z).
Proof. vm_compute. reflexivity. Qed.

(** ** Directory-tree mode *)

Lemma io_bind_trace {A B : Type} (P : event -> Prop) (m : io A) (k : A -> io B) :
  Forall P m.1 -> (forall a, Forall P (k a).1) -> Forall P (m ≫= k).1.
Proof.
  intros Hm Hk. unfold mbind, io_bind. destruct m as [trace [a|e]]; simpl in *; [|done].
  apply Forall_app. by split.
Qed.

Lemma io_for_trace {A : Type} (P : event -> Prop) (l : list A) (body : A -> io unit) :
  (forall x, Forall P (body x).1) -> Forall P (io_for l body).1.
Proof.
  intros Hbody. induction l as [|x l IH]; cbn [io_for].
  - constructor.
  - apply io_bind_trace; [apply Hbody | by intros _].
Qed.

Lemma dispatch_groups_trace (fs : filesystem) (args : Namespace) (dir1 dir2 : string) :
  Forall is_dispatch (dispatch_groups fs args dir1 dir2).1.
Proof.
  unfold dispatch_groups. apply io_bind_trace; [constructor|].
  intros [|rok roks]; [constructor|].
  apply io_bind_trace; [|intros _; constructor].
  apply io_for_trace. intros rok'. apply io_bind_trace; [constructor|].
  intros current_dir_config. apply io_for_trace. intros [name' path].
  destruct (find_mutual_files _ _ _ _); repeat constructor.
Qed.

Lemma file_sizes_threshold (fs : filesystem) (dirs : list string) (threshold : Q)
    (c : collect_dict) :
  file_sizes fs dirs threshold = Ret c ->
  cd_threshold c = threshold /\ cd_directories c = dirs.
Proof.
  unfold file_sizes. destruct (for_each _ _ _) as [files|e]; cbn; [|done].
  by intros [= <-].
Qed.

(** What a run of the directory-tree mode leaves behind, by the outcome of
    the size audit. *)
Lemma rel_val_sim_dirs_audited (fs : filesystem) (args : Namespace) (dir1 dir2 : string) :
  args_input1 args !! 0%nat = Some dir1 ->
  args_input2 args !! 0%nat = Some dir2 ->
  rel_val_sim_dirs fs args =
  match file_sizes fs [dir1; dir2] (1 # 2)%Q with
  | Ret content =>
      (JsonDump (os_path_join (args_output args) "file_sizes.json") content
         :: (dispatch_groups fs args dir1 dir2).1,
       (dispatch_groups fs args dir1 dir2).2)
  | Raise e => ([], Raise e)
  end.
Proof.
  intros H1 H2. unfold rel_val_sim_dirs, index. rewrite H1, H2.
  unfold lift, emit, mbind, io_bind. cbn [fst snd app].
  destruct (file_sizes fs [dir1; dir2] (1 # 2)%Q) as [content|e]; [|done].
  cbn [fst snd app].
  by destruct (dispatch_groups fs args dir1 dir2) as [trace [z|e]].
Qed.

(** C9: the directory-tree mode never reads [args.threshold]: two
    namespaces that differ in it only run alike.  The size report a run
    dumps is the one the audit computes for the threshold [0.5], which it
    records, and a run whose audit returns dumps it; the default of
    [--threshold] is [0.1], another value. *)
Theorem rel_val_sim_dirs_fixed_threshold (fs : filesystem) :
  (forall input1 input2 output dir_config enable disable threshold1 threshold2,
      rel_val_sim_dirs fs
        {| args_input1 := input1; args_input2 := input2; args_output := output;
           args_threshold := threshold1; args_dir_config := dir_config;
           args_dir_config_enable := enable; args_dir_config_disable := disable |} =
      rel_val_sim_dirs fs
        {| args_input1 := input1; args_input2 := input2; args_output := output;
           args_threshold := threshold2; args_dir_config := dir_config;
           args_dir_config_enable := enable; args_dir_config_disable := disable |}) /\
  (forall args path content,
      JsonDump path content ∈ (rel_val_sim_dirs fs args).1 ->
      exists dir1 dir2,
        args_input1 args !! 0%nat = Some dir1 /\ args_input2 args !! 0%nat = Some dir2 /\
        file_sizes fs [dir1; dir2] (1 # 2)%Q = Ret content /\
        cd_threshold content = (1 # 2)%Q) /\
  (forall args dir1 dir2 content,
      args_input1 args !! 0%nat = Some dir1 -> args_input2 args !! 0%nat = Some dir2 ->
      file_sizes fs [dir1; dir2] (1 # 2)%Q = Ret content ->
      JsonDump (os_path_join (args_output args) "file_sizes.json") content
        ∈ (rel_val_sim_dirs fs args).1) /\
  parse_threshold None = (1 # 10)%Q /\
  ~ (parse_threshold None == 1 # 2)%Q.
Proof.
  split; [done|]. split; [|split; [|by split]].
  - intros args path content Hin.
    destruct (args_input1 args !! 0%nat) as [dir1|] eqn:H1; cycle 1.
    { unfold rel_val_sim_dirs, index in Hin. rewrite H1 in Hin.
      by apply elem_of_nil in Hin. }
    destruct (args_input2 args !! 0%nat) as [dir2|] eqn:H2; cycle 1.
    { unfold rel_val_sim_dirs, index in Hin. rewrite H1, H2 in Hin.
      by apply elem_of_nil in Hin. }
    rewrite (rel_val_sim_dirs_audited fs args dir1 dir2 H1 H2) in Hin.
    destruct (file_sizes fs [dir1; dir2] (1 # 2)%Q) as [c|e] eqn:Hfs;
      [|by apply elem_of_nil in Hin].
    exists dir1, dir2. cbn [fst] in Hin. apply elem_of_cons in Hin as [[= -> ->]|Hin].
    + split; [done|]. split; [done|]. split; [done|].
      by apply file_sizes_threshold in Hfs as [-> _].
    + pose proof (dispatch_groups_trace fs args dir1 dir2) as Htrace.
      rewrite Forall_forall in Htrace. by destruct (Htrace _ Hin).
  - intros args dir1 dir2 content H1 H2 Hfs.
    rewrite (rel_val_sim_dirs_audited fs args dir1 dir2 H1 H2), Hfs.
    apply list_elem_of_here.
Qed.

Lemma rel_val_sim_dirs_fixed_threshold_witness :
  JsonDump "rel_val/file_sizes.json"
    {| cd_directories := ["A"; "B"];
       cd_files := [("hits.root", [201; 100]%Z)];
       cd_threshold := 1 # 2 |}
  ∈ (rel_val_sim_dirs fs_trees (example_args (1 # 10) None None)).1.
Proof.
  apply (proj1 (proj2 (proj2 (rel_val_sim_dirs_fixed_threshold fs_trees)))
           (example_args (1 # 10) None None) "A" "B").
  - reflexivity.
  - reflexivity.
  - vm_compute. reflexivity.
Defined.

(** ** File-set matcher: what holds of it *)

Lemma prefix_app (g s : string) :
  String.prefix g s = true <-> exists post, s = g +:+ post.
Proof.
  revert g. induction s as [|b s IH]; intros [|a g]; simpl.
  - split; [by exists EmptyString | done].
  - split; [done | by intros [post ?]].
  - split; [by eexists | done].
  - destruct (ascii_dec a b) as [->|Hne].
    + rewrite IH. split; intros [post Hpost]; exists post.
      * by subst s.
      * change (String b s = String b (g +:+ post)) in Hpost. congruence.
    + split; [done|]. intros [post Hpost].
      change (String b s = String a (g +:+ post)) in Hpost. congruence.
Qed.

(** [contains] is the substring test. *)
Lemma contains_substring (g s : string) :
  contains g s = true <-> exists pre post, s = pre +:+ g +:+ post.
Proof.
  induction s as [|c s IH]; cbn [contains]; rewrite orb_true_iff, prefix_app.
  - split.
    + intros [[post Hpost]|?]; [|done]. by exists EmptyString, post.
    + intros ([|? pre] & post & Hs); [|done]. left. by exists post.
  - rewrite IH. split.
    + intros [[post Hpost]|(pre & post & ->)].
      * by exists EmptyString, post.
      * by exists (String c pre), post.
    + intros ([|c' pre] & post & Hs).
      * left. by exists post.
      * right. exists pre, post.
        change (String c s = String c' (pre +:+ g +:+ post)) in Hs. congruence.
Qed.

Lemma elem_of_sort (l : list string) (x : string) : x ∈ sort l <-> x ∈ l.
Proof. unfold sort. by rewrite merge_sort_Permutation. Qed.

Lemma sort_Sorted (l : list string) : Sorted String.le (sort l).
Proof. unfold sort. apply Sorted_merge_sort. apply _. Qed.

Lemma sort_NoDup (l : list string) : NoDup l -> NoDup (sort l).
Proof. unfold sort. by rewrite merge_sort_Permutation. Qed.

Lemma elem_of_fold_intersection (rest : list (list string)) (f0 : list string)
    (x : string) :
  x ∈ fold_left set_intersection rest f0 <-> x ∈ f0 /\ forall f, f ∈ rest -> x ∈ f.
Proof.
  revert f0. induction rest as [|f rest IH]; intros f0; simpl.
  - split; [intros H; split; [done|] | by intros [? _]].
    by intros f ?%elem_of_nil.
  - rewrite IH, elem_of_set_intersection. split.
    + intros [[H0 Hf] Hrest]. split; [done|].
      intros f' [->|Hin]%elem_of_cons; [done | by apply Hrest].
    + intros [H0 Hall]. split; [split; [done|]|].
      * apply Hall, list_elem_of_here.
      * intros f' Hin. by apply Hall, list_elem_of_further.
Qed.

Lemma fold_intersection_NoDup (rest : list (list string)) (f0 : list string) :
  rest <> [] -> NoDup (fold_left set_intersection rest f0).
Proof.
  revert f0. induction rest as [|f rest IH]; intros f0 Hne; [done|]. simpl.
  destruct rest as [|f' rest]; [apply NoDup_elements | by apply IH].
Qed.

(** The stripped and sorted listings of the trees, one per tree. *)
Lemma listings_eq (fs : filesystem) (dirs : list string) (glob_pattern : string) :
  zip_with (fun f d => map (strip_root d) (sort f))
    (map (fun d => glob fs (d +:+ "/**/" +:+ glob_pattern)) dirs) dirs =
  map (fun d => map (strip_root d) (sort (glob fs (d +:+ "/**/" +:+ glob_pattern)))) dirs.
Proof. induction dirs as [|d dirs IH]; simpl; [done | by rewrite IH]. Qed.

Lemma elem_of_grep_filter (grep cache : list string) (x : string) :
  x ∈ grep_filter grep cache <->
  x ∈ cache /\ exists g, g ∈ grep /\ contains g x = true.
Proof.
  unfold grep_filter. rewrite list_elem_of_In, in_flat_map. split.
  - intros (g & Hg & Hx). apply filter_In in Hx as [Hx Hc].
    rewrite list_elem_of_In. split; [done|]. exists g. by rewrite list_elem_of_In.
  - intros [Hx (g & Hg & Hc)]. exists g. rewrite <- list_elem_of_In. split; [done|].
    apply filter_In. by rewrite <- list_elem_of_In.
Qed.

(** Without patterns the matcher returns the paths found, relative to its
    root, under every tree. *)
Lemma find_mutual_files_intersection (fs : filesystem) (dirs : list string)
    (glob_pattern x : string) :
  x ∈ find_mutual_files fs dirs glob_pattern None <->
  dirs <> [] /\
  forall d, d ∈ dirs -> x ∈ map (strip_root d) (glob fs (d +:+ "/**/" +:+ glob_pattern)).
Proof.
  unfold find_mutual_files. rewrite listings_eq.
  destruct dirs as [|d0 dirs]; cbn [map truthy].
  - split; [by intros ?%elem_of_nil | by intros [? _]].
  - rewrite elem_of_sort, elem_of_fold_intersection.
    assert (Hstrip : forall d, x ∈ map (strip_root d)
                (sort (glob fs (d +:+ "/**/" +:+ glob_pattern))) <->
              x ∈ map (strip_root d) (glob fs (d +:+ "/**/" +:+ glob_pattern))).
    { intros d. rewrite !list_elem_of_fmap. by setoid_rewrite elem_of_sort. }
    rewrite Hstrip. split.
    + intros [H0 Hrest]. split; [done|].
      intros d [->|Hd]%elem_of_cons; [done|]. apply Hstrip, Hrest.
      apply list_elem_of_fmap. by exists d.
    + intros [_ Hall]. split; [apply Hall, list_elem_of_here|].
      intros f (d & -> & Hd)%list_elem_of_fmap. apply Hstrip, Hall.
      by apply list_elem_of_further.
Qed.

(** With patterns it keeps the paths that contain one of them. *)
Lemma find_mutual_files_grep (fs : filesystem) (dirs : list string)
    (glob_pattern : string) (g0 : string) (grep : list string) (x : string) :
  x ∈ find_mutual_files fs dirs glob_pattern (Some (g0 :: grep)) <->
  x ∈ find_mutual_files fs dirs glob_pattern None /\
  exists g, g ∈ g0 :: grep /\ contains g x = true.
Proof.
  unfold find_mutual_files. rewrite listings_eq.
  destruct (map _ dirs) as [|f0 rest]; cbn [truthy default].
  - split; [by intros ?%elem_of_nil | by intros [?%elem_of_nil _]].
  - by rewrite !elem_of_sort, elem_of_grep_filter.
Qed.

(** The result is sorted. *)
Lemma find_mutual_files_Sorted (fs : filesystem) (dirs : list string)
    (glob_pattern : string) (grep : option (list string)) :
  Sorted String.le (find_mutual_files fs dirs glob_pattern grep).
Proof.
  unfold find_mutual_files. destruct (zip_with _ _ _); [constructor | apply sort_Sorted].
Qed.

(** No trees, no paths. *)
Lemma find_mutual_files_no_dirs (fs : filesystem) (glob_pattern : string)
    (grep : option (list string)) :
  find_mutual_files fs [] glob_pattern grep = [].
Proof. reflexivity. Qed.

(** Without patterns, and for two trees or more, no path is returned twice. *)
Lemma find_mutual_files_NoDup (fs : filesystem) (d1 d2 : string) (dirs : list string)
    (glob_pattern : string) :
  NoDup (find_mutual_files fs (d1 :: d2 :: dirs) glob_pattern None).
Proof.
  unfold find_mutual_files. rewrite listings_eq. cbn [map truthy].
  apply sort_NoDup. by apply fold_intersection_NoDup.
Qed.

(** C7, at an input where the claim fails: with the patterns [hits] and
    [root], the path [hits.root], which contains both, is returned twice. *)
Theorem find_mutual_files_grep_duplicates :
  find_mutual_files fs_trees ["A"; "B"] "*.root" (Some ["hits"; "root"])
    = ["hits.root"; "hits.root"; "tpc/qc.root"] /\
  ~ NoDup (find_mutual_files fs_trees ["A"; "B"] "*.root" (Some ["hits"; "root"])).
Proof.
  assert (Heq : find_mutual_files fs_trees ["A"; "B"] "*.root" (Some ["hits"; "root"])
                = ["hits.root"; "hits.root"; "tpc/qc.root"]) by (vm_compute; reflexivity).
  split; [done|]. rewrite Heq. intros [Hin _]%NoDup_cons. apply Hin, list_elem_of_here.
Qed.

(** ** Group selection *)

(** Without a list of disabled groups the selection restricts the groups
    of the configuration to the enabled ones, if any are given. *)
Lemma select_keys_enable (args : Namespace) (config_keys : list string) :
  truthy (args_dir_config_disable args) = false ->
  select_keys args config_keys =
  Ret (if truthy (args_dir_config_enable args)
       then List.filter
              (fun rok => bool_decide (rok ∈ default [] (args_dir_config_enable args)))
              config_keys
       else config_keys).
Proof. intros Hd. unfold select_keys. by rewrite Hd. Qed.

(** With such a list the selection raises, unless nothing is left to select. *)
Lemma select_keys_disable (args : Namespace) (config_keys : list string) :
  truthy (args_dir_config_disable args) = true ->
  select_keys args config_keys =
  match (if truthy (args_dir_config_enable args)
         then List.filter
                (fun rok => bool_decide (rok ∈ default [] (args_dir_config_enable args)))
                config_keys
         else config_keys) with
  | [] => Ret []
  | _ :: _ => Raise AttributeError
  end.
Proof. intros Hd. unfold select_keys. rewrite Hd. by destruct (if truthy _ then _ else _). Qed.

(** C6, at an input where the claim fails: a list of disabled groups makes
    the selection raise, here for a configuration with the groups [hits]
    and [qc] of which [hits] is disabled, and the run ends after the size
    audit with no comparison handed over. *)
Theorem select_keys_disable_raises :
  select_keys (example_args (1 # 10) None (Some ["hits"])) ["hits"; "qc"]
    = Raise AttributeError /\
  rel_val_sim_dirs fs_trees (example_args (1 # 10) None (Some ["hits"])) =
  ([JsonDump "rel_val/file_sizes.json"
      {| cd_directories := ["A"; "B"];
         cd_files := [("hits.root", [201; 100]%Z)];
         cd_threshold := 1 # 2 |}],
   Raise AttributeError).
Proof. split; vm_compute; reflexivity. Qed.

(** * Further properties *)

(** ** File-set matcher *)

Lemma str_drop_app (a s : string) : str_drop (String.length a) (a +:+ s) = s.
Proof. induction a as [|c a IH]; [done | apply IH]. Qed.

Lemma lstrip_slash_relative (f : string) :
  String.prefix "/" f = false -> lstrip_slash f = f.
Proof.
  destruct f as [|c f]; [done|]. cbn [String.prefix].
  destruct (ascii_dec "/" c) as [<-|Hne].
  - by destruct f.
  - intros _. cbn [lstrip_slash].
    by destruct c as [[] [] [] [] [] [] [] []].
Qed.

(** X1: joining a relative path to a root and stripping the root again, as
    the matcher and its callers do in turn, gives the path back, whatever
    the root and whether or not it ends in a separator. *)
Theorem strip_root_os_path_join (d f : string) :
  String.prefix "/" f = false -> strip_root d (os_path_join d f) = f.
Proof.
  intros Hrel. unfold strip_root, os_path_join. rewrite Hrel.
  destruct (decide (d = "")) as [->|Hd]; [by apply lstrip_slash_relative|].
  destruct (String.prefix "/" (String.rev d)).
  - rewrite str_drop_app. by apply lstrip_slash_relative.
  - rewrite str_drop_app. change ("/" +:+ f) with (String "/" f).
    cbn [lstrip_slash]. by apply lstrip_slash_relative.
Qed.

Lemma strip_root_os_path_join_witness :
  strip_root "A/" (os_path_join "A/" "tpc/qc.root") = "tpc/qc.root".
Proof. apply (strip_root_os_path_join "A/" "tpc/qc.root"). reflexivity. Defined.

(** X2: without patterns the matcher returns, sorted, exactly the paths that
    are found, relative to its root, under every one of the trees; for no
    tree it returns nothing. *)
Theorem find_mutual_files_mutual (fs : filesystem) (dirs : list string)
    (glob_pattern : string) :
  Sorted String.le (find_mutual_files fs dirs glob_pattern None) /\
  forall x,
    x ∈ find_mutual_files fs dirs glob_pattern None <->
    dirs <> [] /\
    forall d, d ∈ dirs ->
              x ∈ map (strip_root d) (glob fs (d +:+ "/**/" +:+ glob_pattern)).
Proof.
  split; [apply find_mutual_files_Sorted|].
  intros x. apply find_mutual_files_intersection.
Qed.

Lemma occurrences_app (x : string) (l1 l2 : list string) :
  occurrences x (l1 ++ l2) = (occurrences x l1 + occurrences x l2)%nat.
Proof. unfold occurrences. by rewrite filter_app, length_app. Qed.

Lemma occurrences_sort (x : string) (l : list string) :
  occurrences x (sort l) = occurrences x l.
Proof. unfold occurrences, sort. by rewrite merge_sort_Permutation. Qed.

Lemma occurrences_not_elem_of (x : string) (l : list string) :
  x ∉ l -> occurrences x l = 0%nat.
Proof.
  intros Hx. unfold occurrences. induction l as [|y l IH]; [done|].
  apply not_elem_of_cons in Hx as [Hne Hx].
  rewrite filter_cons_False by congruence. by apply IH.
Qed.

Lemma occurrences_NoDup_filter (p : string -> bool) (x : string) (l : list string) :
  NoDup l ->
  occurrences x (List.filter p l) =
  if decide (x ∈ l) then (if p x then 1%nat else 0%nat) else 0%nat.
Proof.
  induction l as [|y l IH]; intros Hnd.
  - by rewrite decide_False by apply not_elem_of_nil.
  - apply NoDup_cons in Hnd as [Hy Hnd]. specialize (IH Hnd). cbn [List.filter].
    destruct (decide (y = x)) as [->|Hne].
    + rewrite decide_True by apply list_elem_of_here.
      rewrite decide_False in IH by done.
      destruct (p x); [|done].
      change (x :: List.filter p l) with ([x] ++ List.filter p l).
      rewrite occurrences_app, IH. unfold occurrences.
      by rewrite filter_cons_True.
    + assert (Hiff : x ∈ y :: l <-> x ∈ l).
      { rewrite elem_of_cons. split; [by intros [->|?] | by right]. }
      rewrite (decide_ext _ _ _ _ Hiff). destruct (p y); [|done].
      change (y :: List.filter p l) with ([y] ++ List.filter p l).
      rewrite occurrences_app, IH. unfold occurrences at 1.
      by rewrite filter_cons_False.
Qed.

Lemma occurrences_grep_filter (grep cache : list string) (x : string) :
  NoDup cache ->
  occurrences x (grep_filter grep cache) =
  if decide (x ∈ cache)
  then length (List.filter (fun g => contains g x) grep) else 0%nat.
Proof.
  intros Hnd. unfold grep_filter. induction grep as [|g grep IH]; cbn [flat_map List.filter].
  - by destruct (decide _).
  - rewrite occurrences_app, IH, occurrences_NoDup_filter by done.
    destruct (decide (x ∈ cache)); [|done]. by destruct (contains g x).
Qed.

(** X3: with patterns, and for two trees or more, a path found under every
    tree is returned once for each pattern of the list that it contains, and
    a path that is not found under every tree is not returned. *)
Theorem find_mutual_files_grep_occurrences (fs : filesystem) (d1 d2 : string)
    (dirs : list string) (glob_pattern g0 : string) (grep : list string) (x : string) :
  occurrences x (find_mutual_files fs (d1 :: d2 :: dirs) glob_pattern (Some (g0 :: grep))) =
  if decide (x ∈ find_mutual_files fs (d1 :: d2 :: dirs) glob_pattern None)
  then length (List.filter (fun g => contains g x) (g0 :: grep))
  else 0%nat.
Proof.
  unfold find_mutual_files. rewrite listings_eq. cbn [map truthy default].
  set (inter := fold_left set_intersection _ _).
  assert (Hnd : NoDup inter) by by apply fold_intersection_NoDup.
  rewrite occurrences_sort, (occurrences_grep_filter _ _ _ Hnd).
  apply decide_ext. by rewrite elem_of_sort.
Qed.

(** ** Size-divergence check *)

Lemma exceeding_ret_filter (sizes : list Z) (threshold : Q) (r : list (nat * nat)) :
  exceeding_difference_thresh sizes threshold = Ret r ->
  r = List.filter (passes (exceeds sizes threshold)) (combinations2 (seq 0 (length sizes))).
Proof.
  rewrite exceeding_difference_thresh_collect. by intros [_ ->]%for_each_collect_ret.
Qed.

Lemma exceeding_flagged_iff (sizes : list Z) (threshold : Q) (r : list (nat * nat))
    (i1 i2 : nat) :
  exceeding_difference_thresh sizes threshold = Ret r ->
  (i1, i2) ∈ r <->
  exists s1 s2, (i1 < i2)%nat /\ sizes !! i1 = Some s1 /\ sizes !! i2 = Some s2 /\
                (threshold < rel_diff s1 s2)%Q.
Proof.
  intros Hr.
  assert (Hnz : Forall (fun s => s <> 0%Z) (tail sizes))
    by (apply (exceeding_ret_iff sizes threshold); by exists r).
  assert (Hsnd : forall i s, (0 < i)%nat -> sizes !! i = Some s -> s <> 0%Z).
  { intros [|i] s Hi Hs; [lia|]. rewrite <- lookup_tail in Hs.
    by apply (Forall_lookup_1 _ _ _ _ Hnz Hs). }
  rewrite (exceeding_ret_filter _ _ _ Hr).
  rewrite list_elem_of_In, filter_In, <- list_elem_of_In, elem_of_combinations2_seq.
  split.
  - intros [(_ & Hlt & Hlen) Hp].
    destruct (lookup_lt_is_Some_2 sizes i1) as [s1 H1]; [lia|].
    destruct (lookup_lt_is_Some_2 sizes i2) as [s2 H2]; [lia|].
    exists s1, s2. split; [done|]. split; [done|]. split; [done|].
    eapply passes_exceeds; [done..| |done]. apply (Hsnd i2); [lia | done].
  - intros (s1 & s2 & Hlt & H1 & H2 & Hgt).
    pose proof (lookup_lt_Some _ _ _ H2). split; [lia|].
    eapply passes_exceeds; [done..| |done]. apply (Hsnd i2); [lia | done].
Qed.

Lemma StronglySorted_filter {A : Type} (R : relation A) (p : A -> bool) (l : list A) :
  StronglySorted R l -> StronglySorted R (List.filter p l).
Proof.
  induction 1 as [|x l Hl IH Hx]; cbn [List.filter]; [constructor|].
  destruct (p x); [|done]. constructor; [done|].
  rewrite Forall_forall in *. intros y Hy. apply Hx.
  apply list_elem_of_In, filter_In in Hy as [Hy _]. by apply list_elem_of_In.
Qed.

Lemma combinations2_seq_sorted (a n : nat) :
  StronglySorted pair_lt (combinations2 (seq a n)).
Proof.
  revert a. induction n as [|n IH]; intros a; cbn [seq combinations2]; [constructor|].
  apply StronglySorted_app_2; [| |apply IH].
  - intros [x1 y1] [x2 y2] (y & [= -> ->] & Hy)%list_elem_of_fmap
      (Ha & _)%elem_of_combinations2_seq.
    left. simpl. lia.
  - generalize (S a). clear IH. induction n as [|n IH]; intros b; cbn [seq map];
      constructor; [apply IH|].
    apply Forall_forall. intros [x y] (y' & [= -> ->] & Hy)%list_elem_of_fmap.
    apply elem_of_seq in Hy. right. simpl. lia.
Qed.

Lemma pair_lt_NoDup (l : list (nat * nat)) : StronglySorted pair_lt l -> NoDup l.
Proof.
  induction 1 as [|x l Hl IH Hx]; constructor; [|done].
  intros Hin. rewrite Forall_forall in Hx. specialize (Hx x Hin).
  unfold pair_lt in Hx. lia.
Qed.

(** X4: the flagged pairs come in the order of the index pairs, first by
    the first index and then by the second, and no pair is reported twice. *)
Theorem exceeding_difference_thresh_sorted (sizes : list Z) (threshold : Q)
    (diff_indices : list (nat * nat)) :
  exceeding_difference_thresh sizes threshold = Ret diff_indices ->
  StronglySorted pair_lt diff_indices /\ NoDup diff_indices.
Proof.
  intros ->%exceeding_ret_filter.
  assert (Hs : StronglySorted pair_lt
                 (List.filter (passes (exceeds sizes threshold))
                    (combinations2 (seq 0 (length sizes)))))
    by apply StronglySorted_filter, combinations2_seq_sorted.
  split; [done | by apply pair_lt_NoDup].
Qed.

Lemma exceeding_difference_thresh_sorted_witness :
  StronglySorted pair_lt [(0, 2); (0, 3); (1, 3); (2, 3)]%nat /\
  NoDup [(0, 2); (0, 3); (1, 3); (2, 3)]%nat.
Proof.
  apply (exceeding_difference_thresh_sorted [100; 200; 201; 50]%Z (1 # 2)).
  vm_compute. reflexivity.
Defined.

Lemma exceeding_raise (sizes : list Z) (threshold : Q) (e : exn) :
  exceeding_difference_thresh sizes threshold = Raise e ->
  e = ZeroDivisionError /\ Exists (fun s => s = 0%Z) (tail sizes).
Proof.
  intros He. rewrite exceeding_difference_thresh_collect in He.
  apply for_each_collect_raise, Exists_exists in He as ([i1 i2] & Hin & He).
  apply elem_of_combinations2_seq in Hin.
  apply exceeds_raise in He as [-> Hz]; [|lia]. split; [done|].
  destruct i2 as [|i2]; [lia|]. rewrite <- lookup_tail in Hz.
  apply Exists_exists. exists 0%Z. split; [|done]. by eapply list_elem_of_lookup_2.
Qed.

(** X5: whether the check returns or raises, and what it raises, does not
    depend on the threshold; and of two thresholds the smaller one flags
    every pair that the larger one flags. *)
Theorem exceeding_difference_thresh_monotone (sizes : list Z) (threshold1 threshold2 : Q) :
  ((exists flagged1, exceeding_difference_thresh sizes threshold1 = Ret flagged1) <->
   (exists flagged2, exceeding_difference_thresh sizes threshold2 = Ret flagged2)) /\
  (forall e, exceeding_difference_thresh sizes threshold1 = Raise e <->
             exceeding_difference_thresh sizes threshold2 = Raise e) /\
  ((threshold1 <= threshold2)%Q ->
   forall flagged1 flagged2,
     exceeding_difference_thresh sizes threshold1 = Ret flagged1 ->
     exceeding_difference_thresh sizes threshold2 = Ret flagged2 ->
     forall p, p ∈ flagged2 -> p ∈ flagged1).
Proof.
  assert (Hret : forall t t',
    (exists r, exceeding_difference_thresh sizes t = Ret r) ->
    exists r', exceeding_difference_thresh sizes t' = Ret r').
  { intros t t' Hr. by apply exceeding_ret_iff, (exceeding_ret_iff sizes t). }
  assert (Hraise : forall t t' e,
    exceeding_difference_thresh sizes t = Raise e ->
    exceeding_difference_thresh sizes t' = Raise e).
  { intros t t' e He.
    destruct (exceeding_difference_thresh sizes t') as [r'|e'] eqn:He'.
    - destruct (Hret t' t) as [r Hr]; [by exists r'|]. congruence.
    - apply exceeding_raise in He as [-> _]. by apply exceeding_raise in He' as [-> _]. }
  split; [split; apply Hret|]. split; [intros e; split; apply Hraise|].
  intros Hle flagged1 flagged2 H1 H2 [i1 i2] Hp.
  apply (exceeding_flagged_iff _ _ _ _ _ H2) in Hp as (s1 & s2 & Hlt & Hs1 & Hs2 & Hgt).
  apply (exceeding_flagged_iff _ _ _ _ _ H1). exists s1, s2.
  split; [done|]. split; [done|]. split; [done|]. by eapply Qle_lt_trans.
Qed.

Lemma exceeding_difference_thresh_monotone_witness :
  Forall (fun p => p ∈ [(0, 1); (0, 2); (0, 3); (1, 3); (2, 3)]%nat)
         [(0, 2); (0, 3); (1, 3); (2, 3)]%nat.
Proof.
  apply Forall_forall.
  apply (proj2 (proj2 (exceeding_difference_thresh_monotone
                         [100; 200; 201; 50]%Z (1 # 10) (1 # 2)))).
  - vm_compute. by intros [=].
  - vm_compute. reflexivity.
  - vm_compute. reflexivity.
Defined.

(** ** Size-divergence auditor *)

Lemma exceeding_nonempty_iff (sizes : list Z) (threshold : Q) (r : list (nat * nat)) :
  exceeding_difference_thresh sizes threshold = Ret r ->
  r <> [] <-> diverging threshold sizes.
Proof.
  intros Hr. unfold diverging. split.
  - destruct r as [|[i1 i2] r]; [done|]. intros _.
    destruct (proj1 (exceeding_flagged_iff _ _ _ i1 i2 Hr)) as (s1 & s2 & H);
      [apply list_elem_of_here|]. by exists i1, i2, s1, s2.
  - intros (i1 & i2 & s1 & s2 & H) ->.
    assert (Hin : (i1, i2) ∈ @nil (nat * nat)).
    { apply (exceeding_flagged_iff _ _ _ _ _ Hr). by exists s1, s2. }
    by apply elem_of_nil in Hin.
Qed.

Lemma lookup_map {A B : Type} (g : A -> B) (l : list A) (i : nat) :
  map g l !! i = g <$> l !! i.
Proof. revert i. induction l as [|x l IH]; intros [|i]; try done. apply IH. Qed.

Lemma index_map {A B : Type} (g : A -> B) (l : list A) (i : nat) (x : A) :
  l !! i = Some x -> index (map g l) i = Ret (g x).
Proof. intros Hi. unfold index. by rewrite lookup_map, Hi. Qed.

Lemma mapM_index_sizes (fs : filesystem) (dirs intersection : list string)
    (i : nat) (f : string) :
  intersection !! i = Some f ->
  mapM (fun s => index s i)
       (map (fun d => map (fun f => st_size fs (os_path_join d f)) intersection) dirs)
  = Ret (tree_sizes fs dirs f).
Proof.
  intros Hi. induction dirs as [|d dirs IH]; [done|].
  cbn [map mapM tree_sizes]. rewrite (index_map _ _ _ _ Hi), IH. done.
Qed.

(** The loop of [file_sizes] over the files found, one step. *)
Lemma file_sizes_step (fs : filesystem) (dirs intersection : list string)
    (threshold : Q) (files : dict (list Z)) (i : nat) (f : string) :
  intersection !! i = Some f ->
  (compare_sizes ← mapM (fun s => index s i)
       (map (fun d => map (fun f => st_size fs (os_path_join d f)) intersection) dirs);
   diff_indices ← exceeding_difference_thresh compare_sizes threshold;
   Ret (match diff_indices with
        | [] => files
        | _ :: _ => dict_set files f compare_sizes
        end)) =
  match exceeding_difference_thresh (tree_sizes fs dirs f) threshold with
  | Ret [] => Ret files
  | Ret (_ :: _) => Ret (dict_set files f (tree_sizes fs dirs f))
  | Raise e => Raise e
  end.
Proof.
  intros Hi. rewrite (mapM_index_sizes _ _ _ _ _ Hi). cbn.
  by destruct (exceeding_difference_thresh _ _) as [[|??]|].
Qed.

Lemma imap_pair_elem_of (l : list string) (i : nat) (f : string) :
  (i, f) ∈ imap pair l <-> l !! i = Some f.
Proof.
  rewrite elem_of_lookup_imap. split.
  - by intros (i' & f' & [= -> ->] & H).
  - intros H. by exists i, f.
Qed.

Lemma imap_snd {A B : Type} (g : nat -> A) (l : list B) :
  (imap (fun i x => (g i, x)) l).*2 = l.
Proof.
  revert g. induction l as [|x l IH]; intros g; [done|].
  csimpl. f_equal. apply (IH (g ∘ S)).
Qed.

Lemma imap_pair_snd (l : list string) : (imap pair l).*2 = l.
Proof. apply (imap_snd id). Qed.

Section file_sizes_loop.

Variables (fs : filesystem) (dirs intersection : list string) (threshold : Q).

Let body (files : dict (list Z)) (p : nat * string) : py (dict (list Z)) :=
  let '(i, f) := p in
  compare_sizes ← mapM (fun s => index s i)
    (map (fun d => map (fun f => st_size fs (os_path_join d f)) intersection) dirs);
  diff_indices ← exceeding_difference_thresh compare_sizes threshold;
  Ret (match diff_indices with
       | [] => files
       | _ :: _ => dict_set files f compare_sizes
       end).

Lemma body_eq (files : dict (list Z)) (i : nat) (f : string) :
  intersection !! i = Some f ->
  body files (i, f) =
  match exceeding_difference_thresh (tree_sizes fs dirs f) threshold with
  | Ret [] => Ret files
  | Ret (_ :: _) => Ret (dict_set files f (tree_sizes fs dirs f))
  | Raise e => Raise e
  end.
Proof. intros Hi. unfold body. by apply file_sizes_step. Qed.

Lemma file_sizes_loop_ret (l : list (nat * string)) (files : dict (list Z)) :
  (forall i f, (i, f) ∈ l -> intersection !! i = Some f) ->
  (forall i f, (i, f) ∈ l ->
     exists r, exceeding_difference_thresh (tree_sizes fs dirs f) threshold = Ret r) ->
  for_each l body files = Ret (fold_left (record_flagged fs dirs threshold) l.*2 files).
Proof.
  revert files. induction l as [|[i f] l IH]; intros files Hl Hret; [done|].
  cbn [for_each]. rewrite (body_eq files i f) by (apply Hl, list_elem_of_here).
  destruct (Hret i f) as [r Hr]; [apply list_elem_of_here|].
  csimpl. unfold record_flagged at 2, flaggedb. rewrite Hr.
  assert (IH' : forall files', for_each l body files' =
            Ret (fold_left (record_flagged fs dirs threshold) l.*2 files')).
  { intros files'. apply IH; intros i' f' Hin; [apply Hl | apply (Hret i')];
      by apply list_elem_of_further. }
  destruct r as [|p r]; cbn; apply IH'.
Qed.

Lemma file_sizes_loop_raise (l : list (nat * string)) (files : dict (list Z)) :
  (forall i f, (i, f) ∈ l -> intersection !! i = Some f) ->
  (exists i f e, (i, f) ∈ l /\
     exceeding_difference_thresh (tree_sizes fs dirs f) threshold = Raise e) ->
  for_each l body files = Raise ZeroDivisionError.
Proof.
  revert files. induction l as [|[i f] l IH]; intros files Hl (i' & f' & e & Hin & He).
  - by apply elem_of_nil in Hin.
  - cbn [for_each]. rewrite (body_eq files i f) by (apply Hl, list_elem_of_here).
    destruct (exceeding_difference_thresh (tree_sizes fs dirs f) threshold)
      as [r|e0] eqn:Hf.
    + assert (Htail : exists i f e, (i, f) ∈ l /\
          exceeding_difference_thresh (tree_sizes fs dirs f) threshold = Raise e).
      { apply elem_of_cons in Hin as [[= -> ->]|Hin]; [congruence|].
        by exists i', f', e. }
      assert (IH' : forall files', for_each l body files' = Raise ZeroDivisionError).
      { intros files'. apply IH; [|done]. intros i0 f0 H0. apply Hl.
        by apply list_elem_of_further. }
      destruct r; cbn; apply IH'.
    + by apply exceeding_raise in Hf as [-> _].
Qed.

End file_sizes_loop.

Lemma dict_get_record_flagged (fs : filesystem) (dirs : list string) (threshold : Q)
    (names : list string) (files : dict (list Z)) (g : string) :
  dict_get (fold_left (record_flagged fs dirs threshold) names files) g =
  if bool_decide (g ∈ names) && flaggedb fs dirs threshold g
  then Some (tree_sizes fs dirs g) else dict_get files g.
Proof.
  revert files. induction names as [|f names IH]; intros files; cbn [fold_left].
  - by rewrite bool_decide_eq_false_2 by apply not_elem_of_nil.
  - rewrite IH. destruct (decide (g ∈ names)) as [Hin|Hin].
    + rewrite !bool_decide_eq_true_2 by (done || by apply list_elem_of_further).
      cbn [andb]. destruct (flaggedb fs dirs threshold g) eqn:Hg; [done|].
      unfold record_flagged. destruct (flaggedb fs dirs threshold f) eqn:Hf; [|done].
      rewrite dict_get_set_ne; [done | congruence].
    + rewrite (bool_decide_eq_false_2 (g ∈ names)) by done. cbn [andb].
      unfold record_flagged. destruct (decide (f = g)) as [->|Hne].
      * rewrite bool_decide_eq_true_2 by apply list_elem_of_here. cbn [andb].
        destruct (flaggedb fs dirs threshold g); [apply dict_get_set_eq | done].
      * rewrite bool_decide_eq_false_2; cycle 1.
        { rewrite elem_of_cons. by intros [?|?]. }
        cbn [andb]. destruct (flaggedb fs dirs threshold f); [|done].
        by rewrite dict_get_set_ne.
Qed.

Lemma flaggedb_diverging (fs : filesystem) (dirs : list string) (threshold : Q)
    (f : string) :
  Forall (fun s => s <> 0%Z) (tail (tree_sizes fs dirs f)) ->
  flaggedb fs dirs threshold f = true <-> diverging threshold (tree_sizes fs dirs f).
Proof.
  intros Hnz. apply (exceeding_ret_iff _ threshold) in Hnz as [r Hr].
  rewrite <- (exceeding_nonempty_iff _ _ _ Hr). unfold flaggedb. rewrite Hr.
  by destruct r.
Qed.

Lemma file_sizes_unfold (fs : filesystem) (dirs : list string) (threshold : Q) :
  file_sizes fs dirs threshold =
  (files ← for_each (imap pair (find_mutual_files fs dirs "*.root" None))
     (fun files (p : nat * string) =>
        let '(i, f) := p in
        compare_sizes ← mapM (fun s => index s i)
          (map (fun d => map (fun f => st_size fs (os_path_join d f))
                             (find_mutual_files fs dirs "*.root" None)) dirs);
        diff_indices ← exceeding_difference_thresh compare_sizes threshold;
        Ret (match diff_indices with
             | [] => files
             | _ :: _ => dict_set files f compare_sizes
             end))
     [];
   Ret {| cd_directories := dirs; cd_files := files; cd_threshold := threshold |}).
Proof. reflexivity. Qed.

(** X6: when no file found under every tree is empty under a tree other
    than the first, the audit returns a report for the given trees and
    threshold in which a file is recorded exactly when it is found under
    every tree and, for some pair of its sizes, the relative difference
    as the check computes it, a double, is above the threshold; it is
    recorded with its sizes, one per tree. *)
Theorem file_sizes_records (fs : filesystem) (dirs : list string) (threshold : Q) :
  (forall f, f ∈ find_mutual_files fs dirs "*.root" None ->
             Forall (fun s => s <> 0%Z) (tail (tree_sizes fs dirs f))) ->
  exists report,
    file_sizes fs dirs threshold = Ret report /\
    cd_directories report = dirs /\ cd_threshold report = threshold /\
    forall f sz,
      dict_get (cd_files report) f = Some sz <->
      f ∈ find_mutual_files fs dirs "*.root" None /\
      sz = tree_sizes fs dirs f /\ diverging threshold sz.
Proof.
  intros Hnz. rewrite file_sizes_unfold.
  set (inter := find_mutual_files fs dirs "*.root" None) in *.
  rewrite (file_sizes_loop_ret fs dirs inter threshold).
  - eexists. split; [done|]. split; [done|]. split; [done|]. cbn [cd_files].
    intros f sz. rewrite imap_pair_snd, dict_get_record_flagged. cbn [dict_get].
    destruct (decide (f ∈ inter)) as [Hin|Hin].
    + rewrite bool_decide_eq_true_2 by done. cbn [andb].
      pose proof (flaggedb_diverging fs dirs threshold f (Hnz f Hin)) as Hfl.
      destruct (flaggedb fs dirs threshold f).
      * split; [intros [= <-]; split; [done|]; split; [done|]; by apply Hfl|].
        by intros (_ & -> & _).
      * split; [done|]. intros (_ & -> & Hd). by apply Hfl in Hd.
    + rewrite bool_decide_eq_false_2 by done. cbn [andb]. split; [done|]. by intros [? _].
  - intros i f. apply imap_pair_elem_of.
  - intros i f Hin%imap_pair_elem_of. apply exceeding_ret_iff, Hnz.
    by eapply list_elem_of_lookup_2.
Qed.

Lemma file_sizes_records_witness :
  exists report,
    file_sizes fs_trees ["A"; "B"] (1 # 2) = Ret report /\
    dict_get (cd_files report) "hits.root" = Some [201; 100]%Z.
Proof.
  destruct (file_sizes_records fs_trees ["A"; "B"] (1 # 2)) as (report & Hrun & _ & _ & Hrec).
  - apply Forall_forall. apply (bool_decide_unpack _). vm_compute. exact I.
  - exists report. split; [done|]. apply Hrec.
    split; [apply (bool_decide_unpack _); vm_compute; exact I|].
    split; [reflexivity|]. exists 0%nat, 1%nat, 201%Z, 100%Z.
    split; [lia|]. split; [reflexivity|]. split; reflexivity.
Defined.

Lemma file_sizes_empty_later (fs : filesystem) (dirs : list string) (threshold : Q) :
  Exists (empty_later fs dirs) (find_mutual_files fs dirs "*.root" None) ->
  file_sizes fs dirs threshold = Raise ZeroDivisionError.
Proof.
  intros Hex. rewrite file_sizes_unfold.
  set (inter := find_mutual_files fs dirs "*.root" None) in *.
  assert (Hraise : exists i f e, (i, f) ∈ imap pair inter /\
      exceeding_difference_thresh (tree_sizes fs dirs f) threshold = Raise e).
  { apply Exists_exists in Hex as (f & Hin & Hz).
    apply list_elem_of_lookup in Hin as [i Hi].
    destruct (exceeding_difference_thresh (tree_sizes fs dirs f) threshold)
      as [r|e] eqn:Hf.
    - assert (Hnz : Forall (fun s => s <> 0%Z) (tail (tree_sizes fs dirs f)))
        by (apply (exceeding_ret_iff _ threshold); by exists r).
      apply Exists_exists in Hz as (s & Hs & ->).
      rewrite Forall_forall in Hnz. by destruct (Hnz _ Hs).
    - exists i, f, e. by rewrite imap_pair_elem_of. }
  by rewrite (file_sizes_loop_raise fs dirs inter threshold _ _
                (fun i f => proj1 (imap_pair_elem_of inter i f)) Hraise).
Qed.

(** X7: when the size of every file found can be read, the audit raises a
    division error exactly when some file found under every tree is empty
    under a tree other than the first, whatever the threshold and the
    other sizes; an empty file under the first tree alone does no harm. *)
Theorem file_sizes_zero_division (fs : filesystem) (dirs : list string) (threshold : Q) :
  file_sizes fs dirs threshold = Raise ZeroDivisionError <->
  exists f, f ∈ find_mutual_files fs dirs "*.root" None /\ empty_later fs dirs f.
Proof.
  split.
  - intros Hraise.
    destruct (decide (Exists (empty_later fs dirs)
                        (find_mutual_files fs dirs "*.root" None))) as [Hex|Hall].
    { by apply Exists_exists in Hex. }
    rewrite file_sizes_unfold in Hraise.
    set (inter := find_mutual_files fs dirs "*.root" None) in *.
    rewrite (file_sizes_loop_ret fs dirs inter threshold) in Hraise; [done| |].
    + intros i f. apply imap_pair_elem_of.
    + intros i f Hin%imap_pair_elem_of. apply exceeding_ret_iff.
      apply not_Exists_Forall in Hall; [|intros ?; apply _].
      rewrite Forall_forall in Hall.
      specialize (Hall f (list_elem_of_lookup_2 _ _ _ Hin)). cbn in Hall.
      unfold empty_later in Hall.
      apply not_Exists_Forall in Hall; [|intros ?; apply _].
      apply (Forall_impl _ _ _ Hall). by intros s Hs.
  - intros Hex. apply file_sizes_empty_later. by apply Exists_exists.
Qed.

(** ** Severity classifier: errors and the order of the buckets *)

Lemma for_each_raise {A S : Type} (body : S -> A -> py S) (l : list A) (s : S) (e : exn) :
  for_each l body s = Raise e -> exists s0 x, x ∈ l /\ body s0 x = Raise e.
Proof.
  revert s. induction l as [|x l IH]; intros s; cbn [for_each]; [done|].
  destruct (body s x) as [s1|e1] eqn:Hx; cbn.
  - intros (s0 & y & Hy & He)%IH. exists s0, y. split; [by apply list_elem_of_further | done].
  - intros [= ->]. exists s, x. split; [apply list_elem_of_here | done].
Qed.

Lemma classify_test_raise (h : string) (m : dict (list string)) (t : TestOutcome) (e : exn) :
  classify_test h m t = Raise e ->
  e = KeyError /\ test_name t = "test_summary" /\ result t ∉ m.*1.
Proof.
  rewrite classify_test_eq. destruct (decide _) as [Hn|]; [|done].
  destruct (dict_get m (result t)) eqn:Hg; [done|]. intros [= <-].
  split; [done|]. split; [done|]. by apply dict_get_None.
Qed.

Lemma classify_raise (summary : dict (list TestOutcome)) (e : exn) :
  classify summary = Raise e -> e = KeyError.
Proof.
  unfold classify. intros (m0 & [h tests] & _ & He)%for_each_raise.
  apply for_each_raise in He as (m1 & t & _ & He).
  by apply classify_test_raise in He as [-> _].
Qed.

Lemma classify_tests_invalid (h : string) (tests : list TestOutcome)
    (m : dict (list string)) :
  Exists (fun t => test_name t = "test_summary" /\ result t ∉ m.*1) tests ->
  for_each tests (classify_test h) m = Raise KeyError.
Proof.
  revert m. induction tests as [|t tests IH]; intros m Hex; [by inversion Hex|].
  cbn [for_each]. destruct (classify_test h m t) as [m1|e] eqn:Ht; cbn.
  - apply IH. rewrite (classify_test_keys _ _ _ _ Ht).
    apply Exists_cons in Hex as [[Hn Hr]|Hex]; [|done].
    rewrite classify_test_eq, decide_True in Ht by done.
    apply (proj2 (dict_get_None m (result t))) in Hr. by rewrite Hr in Ht.
  - by apply classify_test_raise in Ht as [-> _].
Qed.

Lemma classify_loop_invalid (summary : dict (list TestOutcome)) (m : dict (list string)) :
  Exists (fun e => Exists (fun t => test_name t = "test_summary" /\
                                    result t ∉ m.*1) e.2) summary ->
  for_each summary
    (fun test_n_hist_map '(histo_name, tests) =>
       for_each tests (classify_test histo_name) test_n_hist_map) m = Raise KeyError.
Proof.
  revert m. induction summary as [|[h tests] summary IH]; intros m Hex;
    [by inversion Hex|].
  cbn [for_each]. destruct (for_each tests (classify_test h) m) as [m1|e] eqn:Ht; cbn.
  - assert (Hkeys : m1.*1 = m.*1).
    { revert Ht. apply (for_each_invariant (fun m' => m'.*1 = m.*1)); [|done].
      intros m2 t m3 Hstep Hm2. apply classify_test_keys in Hstep. congruence. }
    apply IH. rewrite Hkeys.
    apply Exists_cons in Hex as [Hex|Hex]; [|done].
    by rewrite (classify_tests_invalid h tests m Hex) in Ht.
  - apply for_each_raise in Ht as (m1 & t & _ & Ht).
    by apply classify_test_raise in Ht as [-> _].
Qed.

Lemma classify_ret_iff (summary : dict (list TestOutcome)) :
  (exists m, classify summary = Ret m) <-> valid_verdicts summary.
Proof.
  split.
  - intros [m Hm]. destruct (decide (valid_verdicts summary)) as [|Hn]; [done|].
    unfold valid_verdicts in Hn. apply not_Forall_Exists in Hn; [|intros ?; apply _].
    unfold classify in Hm. rewrite classify_loop_invalid in Hm; [done|].
    apply (Exists_impl _ _ _ Hn). intros [h tests] Hh. cbn in *.
    apply not_Forall_Exists in Hh; [|intros ?; apply _].
    apply (Exists_impl _ _ _ Hh). intros t Ht. cbn in Ht.
    destruct (decide (test_name t = "test_summary")) as [Hs|Hs]; [|by destruct Ht].
    split; [done|]. intros Hr. apply Ht. by intros _.
  - intros Hvalid.
    destruct (classify_loop summary (map (fun s => (s.1, [])) REL_VAL_SEVERITY_MAP))
      as (m & Hrun & _).
    + intros e t He Ht Hn. unfold valid_verdicts in Hvalid.
      rewrite Forall_forall in Hvalid. specialize (Hvalid e He).
      rewrite Forall_forall in Hvalid. by apply Hvalid.
    + by exists m.
Qed.

(** X8: for a document that loads, the classifier returns exactly when
    every [test_summary] outcome has one of the five severities as result,
    and it raises a key error exactly when one has another result. *)
Theorem print_summary_key_error (fs : filesystem) (filename : string) :
  ((exists test_n_hist_map, print_summary fs filename = Ret test_n_hist_map) <->
   valid_verdicts (json_object (load_summary fs filename))) /\
  (print_summary fs filename = Raise KeyError <->
   ~ valid_verdicts (json_object (load_summary fs filename))).
Proof.
  unfold print_summary.
  pose proof (classify_ret_iff (json_object (load_summary fs filename))) as Hiff.
  split; [done|].
  split.
  - intros Hr Hv. apply Hiff in Hv as [m Hm]. congruence.
  - intros Hn. destruct (classify _) as [m|e] eqn:Hc.
    + destruct Hn. apply Hiff. by exists m.
    + by rewrite (classify_raise _ _ Hc).
Qed.

(** X9: a bucket lists its artifacts in the order of the document, an
    artifact once for each of its [test_summary] outcomes with the
    severity of the bucket; there are no buckets but those of the five
    severities. *)
Theorem print_summary_bucket_order (fs : filesystem) (filename : string)
    (test_n_hist_map : dict (list string)) :
  print_summary fs filename = Ret test_n_hist_map ->
  forall sev,
    dict_get test_n_hist_map sev =
    if decide (sev ∈ REL_VAL_SEVERITY_MAP.*1)
    then Some (verdicts (json_object (load_summary fs filename)) sev)
    else None.
Proof.
  unfold print_summary, classify. intros Hrun sev.
  set (summary := json_object (load_summary fs filename)) in *.
  assert (Hvalid : valid_verdicts summary) by (apply classify_ret_iff; by eexists).
  destruct (classify_loop summary (map (fun s => (s.1, [])) REL_VAL_SEVERITY_MAP))
    as (m & Hrun' & _ & Hget).
  { intros e t He Ht Hn. unfold valid_verdicts in Hvalid.
    rewrite Forall_forall in Hvalid. specialize (Hvalid e He).
    rewrite Forall_forall in Hvalid. by apply Hvalid. }
  assert (m = test_n_hist_map) as -> by congruence.
  rewrite Hget. destruct (decide (sev ∈ REL_VAL_SEVERITY_MAP.*1)) as [Hin|Hin].
  - destruct (proj2 (dict_get_is_Some
        (map (fun s : string * Z => (s.1, @nil string)) REL_VAL_SEVERITY_MAP) sev))
      as [b Hb]; [done|].
    rewrite Hb. by apply initial_buckets in Hb as ->.
  - apply (proj2 (dict_get_None
        (map (fun s : string * Z => (s.1, @nil string)) REL_VAL_SEVERITY_MAP) sev))
      in Hin. by rewrite Hin.
Qed.

Lemma print_summary_bucket_order_witness :
  dict_get [("GOOD", []); ("WARNING", []); ("NONCRIT_NC", []); ("CRIT_NC", []);
            ("BAD", ["H1"])] "BAD" =
  if decide ("BAD" ∈ REL_VAL_SEVERITY_MAP.*1)
  then Some (verdicts (json_object (load_summary fs_H1_H2 "SummaryGlobal.json")) "BAD")
  else None.
Proof.
  apply (print_summary_bucket_order fs_H1_H2 "SummaryGlobal.json" _ eq_refl "BAD").
Defined.

(** ** Threshold rebuild: errors *)

Section ThresholdFileErrors.

Variable float_str : Q -> string.

Lemma write_threshold_raise (h : string) (written : list string) (t : TestOutcome)
    (e : exn) :
  write_threshold float_str h written t = Raise e ->
  e = KeyError /\ comparable t = true /\ value t = None.
Proof.
  unfold write_threshold. destruct (comparable t); [|done].
  destruct (value t); [done|]. by intros [= <-].
Qed.

Lemma write_thresholds_missing (h : string) (tests : list TestOutcome)
    (written : list string) :
  Exists (fun t => comparable t = true /\ value t = None) tests ->
  for_each tests (write_threshold float_str h) written = Raise KeyError.
Proof.
  revert written. induction tests as [|t tests IH]; intros written Hex;
    [by inversion Hex|].
  cbn [for_each]. destruct (write_threshold float_str h written t) as [w|e] eqn:Ht; cbn.
  - apply IH. apply Exists_cons in Hex as [[Hc Hv]|Hex]; [|done].
    unfold write_threshold in Ht. by rewrite Hc, Hv in Ht.
  - by apply write_threshold_raise in Ht as [-> _].
Qed.

Lemma write_documents_missing (json_in : dict (list TestOutcome)) (written : list string) :
  Exists (fun e => Exists (fun t => comparable t = true /\ value t = None) e.2) json_in ->
  for_each json_in
    (fun written '(histo_name, tests) =>
       for_each tests (write_threshold float_str histo_name) written) written
  = Raise KeyError.
Proof.
  revert written. induction json_in as [|[h tests] json_in IH]; intros written Hex;
    [by inversion Hex|].
  cbn [for_each].
  destruct (for_each tests (write_threshold float_str h) written) as [w|e] eqn:Ht; cbn.
  - apply IH. apply Exists_cons in Hex as [Hex|Hex]; [|done].
    by rewrite (write_thresholds_missing h tests written Hex) in Ht.
  - apply for_each_raise in Ht as (w & t & _ & Ht).
    by apply write_threshold_raise in Ht as [-> _].
Qed.

(** X10: for a prior summary that loads, the threshold file is written
    exactly when every comparable outcome carries a value, and the rebuild
    raises a key error exactly when one does not.  A missing value of an
    outcome that is not comparable does no harm. *)
Theorem make_new_threshold_file_key_error (fs : filesystem) (json_path : string) :
  ((exists written, make_new_threshold_file float_str fs json_path = Ret written) <->
   comparable_have_values (json_object (load_summary fs json_path))) /\
  (make_new_threshold_file float_str fs json_path = Raise KeyError <->
   ~ comparable_have_values (json_object (load_summary fs json_path))).
Proof.
  unfold make_new_threshold_file.
  set (json_in := json_object (load_summary fs json_path)).
  assert (Hinvalid : ~ comparable_have_values json_in ->
    for_each json_in
      (fun written '(histo_name, tests) =>
         for_each tests (write_threshold float_str histo_name) written) [] = Raise KeyError).
  { intros Hn. unfold comparable_have_values in Hn.
    apply not_Forall_Exists in Hn; [|intros ?; apply _].
    apply write_documents_missing. apply (Exists_impl _ _ _ Hn).
    intros [h tests] Hh. cbn in *. apply not_Forall_Exists in Hh; [|intros ?; apply _].
    apply (Exists_impl _ _ _ Hh). intros t Ht. cbn in Ht.
    destruct (comparable t); [|by destruct Ht].
    split; [done|]. destruct (value t) as [v|]; [|done]. destruct Ht. by eexists. }
  assert (Hvalid : comparable_have_values json_in ->
    exists written, for_each json_in
      (fun written '(histo_name, tests) =>
         for_each tests (write_threshold float_str histo_name) written) [] = Ret written).
  { intros Hv. destruct (write_documents float_str json_in [] Hv) as (lines & Hrun & _).
    by exists lines. }
  split.
  - split; [|done]. intros [w Hw].
    destruct (decide (comparable_have_values json_in)) as [|Hn]; [done|].
    rewrite (Hinvalid Hn) in Hw. done.
  - split.
    + intros Hr Hv. apply Hvalid in Hv as [w Hw]. congruence.
    + apply Hinvalid.
Qed.

End ThresholdFileErrors.

(** ** Summary aggregator: provenance *)

Lemma is_Some_merge_document (fs : filesystem) (in_dir path h : string)
    (summary : dict (list TestOutcome)) :
  is_Some (dict_get (merge_document fs in_dir summary path) h) <->
  is_Some (dict_get (json_object (load_summary fs path)) h) \/
  is_Some (dict_get summary h).
Proof.
  rewrite dict_get_merge_document.
  destruct (dict_get (json_object (load_summary fs path)) h) as [tests|].
  - split; [by left | by eexists].
  - split; [by right | by intros [[??]|?]].
Qed.

Lemma is_Some_merged (fs : filesystem) (in_dir h : string) (paths : list string)
    (summary : dict (list TestOutcome)) :
  is_Some (dict_get (fold_left (merge_document fs in_dir) paths summary) h) <->
  is_Some (dict_get summary h) \/
  exists path, path ∈ paths /\ is_Some (dict_get (json_object (load_summary fs path)) h).
Proof.
  revert summary. induction paths as [|p paths IH]; intros summary; cbn [fold_left].
  - split; [by left|]. intros [?|(p & Hp & _)]; [done|]. by apply elem_of_nil in Hp.
  - rewrite IH, is_Some_merge_document. split.
    + intros [[Hp|Hs]|(q & Hq & Hh)].
      * right. exists p. split; [apply list_elem_of_here | done].
      * by left.
      * right. exists q. split; [by apply list_elem_of_further | done].
    + intros [Hs|(q & Hq & Hh)]; [left; by right|].
      apply elem_of_cons in Hq as [->|Hq]; [left; by left|].
      right. by exists q.
Qed.

Lemma merged_last_holder (fs : filesystem) (in_dir h : string) (paths : list string)
    (tests' : list TestOutcome) :
  dict_get (fold_left (merge_document fs in_dir) paths []) h = Some tests' ->
  exists earlier path later tests,
    paths = earlier ++ path :: later /\
    dict_get (json_object (load_summary fs path)) h = Some tests /\
    (forall q, q ∈ later -> dict_get (json_object (load_summary fs q)) h = None) /\
    tests' = map (annotate_from fs in_dir path h) tests.
Proof.
  induction paths as [|p paths IH] using rev_ind; [done|].
  rewrite fold_left_app. cbn [fold_left]. rewrite dict_get_merge_document.
  destruct (dict_get (json_object (load_summary fs p)) h) as [tests|] eqn:Hp.
  - intros [= <-]. exists paths, p, [], tests. split; [done|]. split; [done|].
    split; [|done]. by intros q ?%elem_of_nil.
  - intros (earlier & path & later & tests & -> & Hget & Hlater & ->)%IH.
    exists earlier, path, (later ++ [p]), tests.
    split; [by rewrite <- app_assoc|]. split; [done|]. split; [|done].
    intros q [Hq|Hq]%elem_of_app; [by apply Hlater|].
    by apply list_elem_of_singleton in Hq as ->.
Qed.

Lemma last_holder_merged (fs : filesystem) (in_dir path h : string)
    (tests : list TestOutcome) :
  last_holder fs in_dir path h tests ->
  dict_get (make_summary fs in_dir) h = Some (map (annotate_from fs in_dir path h) tests).
Proof.
  intros (earlier & later & Hglob & Hget & Hlater). unfold make_summary.
  rewrite Hglob, fold_left_app. cbn [fold_left].
  by rewrite dict_get_merge_absent, dict_get_merge_document, Hget.
Qed.

(** X11: an artifact is a key of the merged summary exactly when some
    result document found holds it, and the outcomes stored for it are the
    outcomes of one of these documents, in their order, with their test
    name, result, comparability, value and threshold unchanged, each
    carrying the artifact as its name and the type and plot path of that
    document. *)
Theorem make_summary_provenance (fs : filesystem) (in_dir h : string) :
  (h ∈ (make_summary fs in_dir).*1 <->
   exists path, path ∈ glob fs (in_dir +:+ "/**/Summary.json") /\
                h ∈ (json_object (load_summary fs path)).*1) /\
  (forall stored,
      dict_get (make_summary fs in_dir) h = Some stored ->
      exists path tests,
        path ∈ glob fs (in_dir +:+ "/**/Summary.json") /\
        dict_get (json_object (load_summary fs path)) h = Some tests /\
        Forall2 (fun t' t =>
                   test_name t' = test_name t /\ result t' = result t /\
                   comparable t' = comparable t /\ value t' = value t /\
                   threshold t' = threshold t /\ name t' = Some h /\
                   type_specific t' = Some (relpath fs (rel_val_path path) in_dir) /\
                   type_global t' =
                     Some (hd EmptyString
                             (split_slash (relpath fs (rel_val_path path) in_dir))) /\
                   rel_path_plot t' =
                     Some (os_path_join
                             (os_path_join (relpath fs (rel_val_path path) in_dir)
                                           "overlayPlots")
                             (h +:+ ".png")))
                stored tests).
Proof.
  split.
  - rewrite <- dict_get_is_Some. unfold make_summary. rewrite is_Some_merged.
    setoid_rewrite dict_get_is_Some. split.
    + intros [Hin|H]; [by apply elem_of_nil in Hin | done].
    + by right.
  - intros stored Hget. unfold make_summary in Hget.
    apply merged_last_holder in Hget
      as (earlier & path & later & tests & Hglob & Hdoc & _ & ->).
    exists path, tests. split; [|split; [done|]].
    + rewrite Hglob. apply elem_of_app. right. apply list_elem_of_here.
    + clear Hdoc. induction tests as [|t tests IH]; constructor; [|done].
      by repeat split.
Qed.

Lemma make_summary_provenance_witness :
  exists path tests,
    path ∈ glob fs_collision ("out" +:+ "/**/Summary.json") /\
    dict_get (json_object (load_summary fs_collision path)) "H0" = Some tests /\
    Forall2 (fun t' t =>
               test_name t' = test_name t /\ result t' = result t /\
               comparable t' = comparable t /\ value t' = value t /\
               threshold t' = threshold t /\ name t' = Some "H0" /\
               type_specific t' =
                 Some (relpath fs_collision (rel_val_path path) "out") /\
               type_global t' =
                 Some (hd EmptyString
                         (split_slash (relpath fs_collision (rel_val_path path) "out"))) /\
               rel_path_plot t' =
                 Some (os_path_join
                         (os_path_join (relpath fs_collision (rel_val_path path) "out")
                                       "overlayPlots")
                         ("H0" +:+ ".png")))
            [annotate "H0" "g1" "g1/a" "g1/a/overlayPlots" (verdict "GOOD")] tests.
Proof.
  apply (proj2 (make_summary_provenance fs_collision "out" "H0")). reflexivity.
Defined.

(** ** From the aggregate to the classification *)

Lemma dict_set_fresh {V : Type} (d : dict V) (k : string) (v : V) :
  k ∉ d.*1 -> dict_set d k v = d ++ [(k, v)].
Proof.
  induction d as [|[k' v'] d IH]; csimpl; [done|].
  intros [Hne Hk]%not_elem_of_cons. rewrite decide_False by done. by rewrite IH.
Qed.

Lemma fold_dict_set_fresh {V : Type} (members acc : dict V) :
  NoDup (acc ++ members).*1 ->
  fold_left (fun d m => dict_set d m.1 m.2) members acc = acc ++ members.
Proof.
  revert acc. induction members as [|[k v] members IH]; intros acc Hnd; cbn [fold_left].
  - by rewrite app_nil_r.
  - rewrite dict_set_fresh.
    + rewrite IH; rewrite <- app_assoc; done.
    + rewrite fmap_app in Hnd. apply NoDup_app in Hnd as (_ & Hdisj & _).
      intros Hk. apply (Hdisj k Hk). csimpl. apply list_elem_of_here.
Qed.

(** Loading a dumped dictionary gives the dictionary back. *)
Lemma json_object_dict {V : Type} (d : dict V) : NoDup d.*1 -> json_object d = d.
Proof. intros Hnd. unfold json_object. by rewrite fold_dict_set_fresh. Qed.

Lemma make_summary_NoDup (fs : filesystem) (in_dir : string) :
  NoDup (make_summary fs in_dir).*1.
Proof.
  unfold make_summary. apply (fold_left_invariant (fun s => NoDup s.*1)); [|constructor].
  intros s path _ Hs. by apply merge_document_NoDup.
Qed.

Lemma annotate_from_verdict (fs : filesystem) (in_dir path h sev : string)
    (t : TestOutcome) :
  is_verdict sev (annotate_from fs in_dir path h t) = is_verdict sev t.
Proof. done. Qed.

(** X12: when the global summary of a tree is dumped and then classified,
    as a run does, an artifact is in the bucket of a severity exactly when
    the last result document that holds it gives it a [test_summary]
    outcome of that severity: the verdicts of earlier documents for the
    artifact play no role. *)
Theorem print_summary_of_make_summary (fs fs' : filesystem) (in_dir filename : string)
    (test_n_hist_map : dict (list string)) :
  load_summary fs' filename = make_summary fs in_dir ->
  print_summary fs' filename = Ret test_n_hist_map ->
  forall sev bucket h,
    dict_get test_n_hist_map sev = Some bucket ->
    h ∈ bucket <->
    exists path tests t,
      last_holder fs in_dir path h tests /\
      t ∈ tests /\ test_name t = "test_summary" /\ result t = sev.
Proof.
  intros Hload Hrun sev bucket h Hbucket.
  unfold print_summary, classify in Hrun.
  rewrite Hload, (json_object_dict _ (make_summary_NoDup fs in_dir)) in Hrun.
  assert (Hvalid : valid_verdicts (make_summary fs in_dir))
    by (apply classify_ret_iff; by eexists).
  destruct (classify_loop (make_summary fs in_dir)
              (map (fun s => (s.1, [])) REL_VAL_SEVERITY_MAP)) as (m & Hrun' & _ & Hget).
  { intros e t He Ht Hn. unfold valid_verdicts in Hvalid.
    rewrite Forall_forall in Hvalid. specialize (Hvalid e He).
    rewrite Forall_forall in Hvalid. by apply Hvalid. }
  assert (m = test_n_hist_map) as -> by congruence.
  rewrite Hget in Hbucket.
  destruct (dict_get _ sev) as [b0|] eqn:H0 in Hbucket; [|done].
  apply initial_buckets in H0 as ->. injection Hbucket as <-. cbn [app].
  rewrite (elem_of_verdicts _ _ _ (make_summary_NoDup fs in_dir)). split.
  - intros (stored & t' & Hstored & Ht' & Hn & Hr).
    unfold make_summary in Hstored.
    apply merged_last_holder in Hstored
      as (earlier & path & later & tests & Hglob & Hdoc & Hlater & ->).
    apply list_elem_of_fmap in Ht' as (t & -> & Ht).
    exists path, tests, t. split; [by exists earlier, later | done].
  - intros (path & tests & t & Hlast & Ht & Hn & Hr).
    exists (map (annotate_from fs in_dir path h) tests), (annotate_from fs in_dir path h t).
    split; [by apply last_holder_merged|]. split; [|done].
    apply list_elem_of_fmap. by exists t.
Qed.

Lemma print_summary_of_make_summary_witness :
  "H1" ∈ ["H1"] <->
  exists path tests t,
    last_holder fs_collision "out" path "H1" tests /\
    t ∈ tests /\ test_name t = "test_summary" /\ result t = "BAD".
Proof.
  apply (print_summary_of_make_summary fs_collision fs_collision_global "out"
           "out/SummaryGlobal.json"
           [("GOOD", ["H0"]); ("WARNING", ["H2"]); ("NONCRIT_NC", []);
            ("CRIT_NC", []); ("BAD", ["H1"])] eq_refl).
  - vm_compute. reflexivity.
  - reflexivity.
Defined.

(** ** Directory-tree mode: what is dispatched and what can go wrong *)

Lemma elem_of_io_bind {A B : Type} (m : io A) (k : A -> io B) (ev : event) :
  ev ∈ (m ≫= k).1 -> ev ∈ m.1 \/ exists a, m.2 = Ret a /\ ev ∈ (k a).1.
Proof.
  unfold mbind, io_bind. destruct m as [trace [a|e]]; cbn [fst snd]; [|by left].
  intros [H|H]%elem_of_app; [by left|]. right. by exists a.
Qed.

Lemma elem_of_io_for {A : Type} (l : list A) (body : A -> io unit) (ev : event) :
  ev ∈ (io_for l body).1 -> exists x, x ∈ l /\ ev ∈ (body x).1.
Proof.
  induction l as [|x l IH]; cbn [io_for].
  - by intros ?%elem_of_nil.
  - intros [H|(_ & _ & H)]%elem_of_io_bind.
    + exists x. split; [apply list_elem_of_here | done].
    + apply IH in H as (y & Hy & H). exists y. split; [by apply list_elem_of_further | done].
Qed.

Lemma io_for_returns {A : Type} (l : list A) (body : A -> io unit) :
  (forall x, x ∈ l -> (body x).2 = Ret tt) -> (io_for l body).2 = Ret tt.
Proof.
  induction l as [|x l IH]; intros Hbody; [done|]. cbn [io_for].
  unfold mbind, io_bind. rewrite (Hbody x) by apply list_elem_of_here. cbn [snd].
  apply IH. intros y Hy. by apply Hbody, list_elem_of_further.
Qed.

Lemma elem_of_List_filter {A : Type} (p : A -> bool) (l : list A) (x : A) :
  x ∈ List.filter p l <-> x ∈ l /\ p x = true.
Proof. by rewrite !list_elem_of_In, filter_In. Qed.

(** The selection returns groups of the configuration only, and it raises
    nothing but an attribute error. *)
Lemma select_keys_ret (args : Namespace) (config_keys run_over_keys : list string) :
  select_keys args config_keys = Ret run_over_keys ->
  forall rok, rok ∈ run_over_keys -> rok ∈ config_keys.
Proof.
  destruct (truthy (args_dir_config_disable args)) eqn:Hd.
  - rewrite (select_keys_disable _ _ Hd).
    destruct (if truthy _ then _ else _); [|done]. intros [= <-] rok. by intros ?%elem_of_nil.
  - rewrite (select_keys_enable _ _ Hd). intros [= <-] rok.
    destruct (truthy (args_dir_config_enable args)); [|done].
    by intros [? _]%elem_of_List_filter.
Qed.

Lemma select_keys_raise (args : Namespace) (config_keys : list string) (e : exn) :
  select_keys args config_keys = Raise e -> e = AttributeError.
Proof.
  destruct (truthy (args_dir_config_disable args)) eqn:Hd.
  - rewrite (select_keys_disable _ _ Hd).
    destruct (if truthy _ then _ else _); [done|]. by intros [= <-].
  - by rewrite (select_keys_enable _ _ Hd).
Qed.

Lemma io_bind_snd {A B : Type} (m : io A) (k : A -> io B) :
  (m ≫= k).2 = match m.2 with Ret a => (k a).2 | Raise e => Raise e end.
Proof. unfold mbind, io_bind. by destruct m as [trace [a|e]]. Qed.

Lemma dispatch_groups_result (fs : filesystem) (args : Namespace) (dir1 dir2 : string) :
  (dispatch_groups fs args dir1 dir2).2 = Ret 0%Z \/
  (dispatch_groups fs args dir1 dir2).2 = Raise AttributeError.
Proof.
  unfold dispatch_groups. rewrite io_bind_snd. cbn [lift snd].
  destruct (select_keys args _) as [roks|e] eqn:Hsel; cycle 1.
  { right. by rewrite (select_keys_raise _ _ _ Hsel). }
  left. destruct roks as [|rok roks]; [done|].
  rewrite io_bind_snd, io_for_returns; [done|].
  intros rok' Hrok. rewrite io_bind_snd. cbn [lift snd].
  apply (select_keys_ret _ _ _ Hsel), dict_get_is_Some in Hrok as [group Hgroup].
  unfold getitem. rewrite Hgroup. apply io_for_returns.
  intros [name' path] _. by destruct (find_mutual_files _ _ _ _).
Qed.

(** X17: every comparison the directory-tree mode hands over is for a
    sub-group of a group of the configuration whose pattern matches files
    in both trees: its two file lists are those files, in the same order,
    under the first and under the second tree, so they are not empty and
    of equal length, and its output directory is that of the group and
    sub-group under the output directory of the run. *)
Theorem rel_val_sim_dirs_dispatches (fs : filesystem) (args : Namespace)
    (files1 files2 : list string) (output_dir : string) :
  RelValFiles files1 files2 output_dir ∈ (rel_val_sim_dirs fs args).1 ->
  exists dir1 dir2 rok group name' path,
    args_input1 args !! 0%nat = Some dir1 /\ args_input2 args !! 0%nat = Some dir2 /\
    dict_get (loaded_config fs args) rok = Some group /\ (name', path) ∈ group /\
    find_mutual_files fs [dir1; dir2] path None <> [] /\
    files1 = map (os_path_join dir1) (find_mutual_files fs [dir1; dir2] path None) /\
    files2 = map (os_path_join dir2) (find_mutual_files fs [dir1; dir2] path None) /\
    length files1 = length files2 /\
    output_dir = os_path_join (os_path_join (args_output args) rok) name'.
Proof.
  intros Hin.
  destruct (args_input1 args !! 0%nat) as [dir1|] eqn:H1; cycle 1.
  { unfold rel_val_sim_dirs, index in Hin. rewrite H1 in Hin. by apply elem_of_nil in Hin. }
  destruct (args_input2 args !! 0%nat) as [dir2|] eqn:H2; cycle 1.
  { unfold rel_val_sim_dirs, index in Hin. rewrite H1, H2 in Hin.
    by apply elem_of_nil in Hin. }
  rewrite (rel_val_sim_dirs_audited fs args dir1 dir2 H1 H2) in Hin.
  destruct (file_sizes fs [dir1; dir2] (1 # 2)%Q) as [c|e]; [|by apply elem_of_nil in Hin].
  cbn [fst] in Hin. apply elem_of_cons in Hin as [[=]|Hin].
  unfold dispatch_groups in Hin.
  apply elem_of_io_bind in Hin as [Hin|(roks & Hsel & Hin)]; [by apply elem_of_nil in Hin|].
  destruct roks as [|rok0 roks]; [by apply elem_of_nil in Hin|].
  apply elem_of_io_bind in Hin as [Hin|(? & _ & Hin)]; [|by apply elem_of_nil in Hin].
  apply elem_of_io_for in Hin as (rok & Hrok & Hin).
  apply elem_of_io_bind in Hin as [Hin|(group & Hgroup & Hin)];
    [by apply elem_of_nil in Hin|].
  apply elem_of_io_for in Hin as ([name' path] & Hentry & Hin).
  cbn [lift snd] in Hgroup. unfold getitem in Hgroup.
  destruct (dict_get _ rok) as [group'|] eqn:Hget in Hgroup; [|done].
  injection Hgroup as ->.
  destruct (find_mutual_files fs [dir1; dir2] path None) as [|cf cfs] eqn:Hfiles;
    [by apply elem_of_nil in Hin|].
  apply list_elem_of_singleton in Hin. injection Hin as -> -> ->.
  exists dir1, dir2, rok, group, name', path. rewrite Hfiles.
  split; [done|]. split; [done|]. split; [done|]. split; [done|]. split; [done|].
  split; [done|]. split; [done|]. split; [|done].
  cbn [map length]. by rewrite !List.length_map.
Qed.

Lemma rel_val_sim_dirs_dispatches_witness :
  exists dir1 dir2 rok group name' path,
    args_input1 (example_args (1 # 10) None None) !! 0%nat = Some dir1 /\
    args_input2 (example_args (1 # 10) None None) !! 0%nat = Some dir2 /\
    dict_get (loaded_config fs_trees (example_args (1 # 10) None None)) rok = Some group /\
    (name', path) ∈ group /\
    find_mutual_files fs_trees [dir1; dir2] path None <> [] /\
    ["A/hits.root"; "A/tpc/qc.root"]
      = map (os_path_join dir1) (find_mutual_files fs_trees [dir1; dir2] path None) /\
    ["B/hits.root"; "B/tpc/qc.root"]
      = map (os_path_join dir2) (find_mutual_files fs_trees [dir1; dir2] path None) /\
    length ["A/hits.root"; "A/tpc/qc.root"] = length ["B/hits.root"; "B/tpc/qc.root"] /\
    "rel_val/qc/tpc"
      = os_path_join (os_path_join (args_output (example_args (1 # 10) None None)) rok)
          name'.
Proof.
  apply (rel_val_sim_dirs_dispatches fs_trees (example_args (1 # 10) None None)).
  apply list_elem_of_In. vm_compute. right. right. left. reflexivity.
Defined.

(** X18: a run of the directory-tree mode that returns returns [0].  With
    an empty list of inputs it raises an index error, and with a file that
    is found in both trees and is empty in the second it raises the
    division error of the size audit; in both cases nothing has been
    dumped and no comparison has been handed over. *)
Theorem rel_val_sim_dirs_outcomes (fs : filesystem) (args : Namespace) :
  (forall code, (rel_val_sim_dirs fs args).2 = Ret code -> code = 0%Z) /\
  (args_input1 args = [] \/ args_input2 args = [] ->
   rel_val_sim_dirs fs args = ([], Raise IndexError)) /\
  (forall dir1 dir2 f,
      args_input1 args !! 0%nat = Some dir1 ->
      args_input2 args !! 0%nat = Some dir2 ->
      f ∈ find_mutual_files fs [dir1; dir2] "*.root" None ->
      st_size fs (os_path_join dir2 f) = 0%Z ->
      rel_val_sim_dirs fs args = ([], Raise ZeroDivisionError)).
Proof.
  split; [|split].
  - intros code Hcode.
    destruct (args_input1 args) as [|dir1 rest1] eqn:H1.
    { unfold rel_val_sim_dirs, index in Hcode. by rewrite H1 in Hcode. }
    destruct (args_input2 args) as [|dir2 rest2] eqn:H2.
    { unfold rel_val_sim_dirs, index in Hcode. by rewrite H1, H2 in Hcode. }
    rewrite (rel_val_sim_dirs_audited fs args dir1 dir2) in Hcode by (by rewrite ?H1, ?H2).
    destruct (file_sizes fs [dir1; dir2] (1 # 2)%Q) as [c|e]; [|done]. cbn [snd] in Hcode.
    destruct (dispatch_groups_result fs args dir1 dir2) as [Hd|Hd];
      rewrite Hd in Hcode; congruence.
  - intros [H1|H2]; unfold rel_val_sim_dirs, index.
    + by rewrite H1.
    + rewrite H2. by destruct (args_input1 args).
  - intros dir1 dir2 f H1 H2 Hin Hz.
    rewrite (rel_val_sim_dirs_audited fs args dir1 dir2 H1 H2).
    rewrite (file_sizes_empty_later fs [dir1; dir2] (1 # 2)%Q); [done|].
    apply Exists_exists. exists f. split; [done|].
    unfold empty_later, tree_sizes. cbn [map tail]. by apply Exists_cons_hd.
Qed.

Lemma rel_val_sim_dirs_outcomes_witness :
  rel_val_sim_dirs fs_trees_empty (example_args (1 # 10) None None) =
  ([], Raise ZeroDivisionError).
Proof.
  apply (proj2 (proj2 (rel_val_sim_dirs_outcomes fs_trees_empty
                         (example_args (1 # 10) None None))) "A" "B" "hits.root").
  - reflexivity.
  - reflexivity.
  - apply (bool_decide_unpack _). vm_compute. exact I.
  - reflexivity.
Defined.

(** ** Entry point *)

(** X19: the bit mask of the tests is never zero: without a flag it is [7]
    and all three tests run; with a flag, bit 0, 1 and 2 are set exactly
    for the chi2, the bin-content and the number-of-entries flag. *)
Theorem test_bitmask_bits (chi2 bincont numentries : bool) :
  (1 <= test_bitmask chi2 bincont numentries <= 7)%Z /\
  Z.testbit (test_bitmask chi2 bincont numentries) 0 =
    (chi2 || negb (chi2 || bincont || numentries)) /\
  Z.testbit (test_bitmask chi2 bincont numentries) 1 =
    (bincont || negb (chi2 || bincont || numentries)) /\
  Z.testbit (test_bitmask chi2 bincont numentries) 2 =
    (numentries || negb (chi2 || bincont || numentries)).
Proof. destruct chi2, bincont, numentries; vm_compute; repeat split; congruence. Qed.

(** ** The location of a result document *)

Lemma split_slash_nonempty (s : string) : split_slash s <> [].
Proof.
  induction s as [|c s IH]; [done|]. cbn [split_slash].
  destruct (decide (c = "/"%char)); [done|]. by destruct (split_slash s).
Qed.

Lemma concat_cons (sep x : string) (l : list string) :
  l <> [] -> String.concat sep (x :: l) = x +:+ sep +:+ String.concat sep l.
Proof. by destruct l. Qed.

Lemma join_split_slash (s : string) : join_slash (split_slash s) = s.
Proof.
  unfold join_slash. induction s as [|c s IH]; [done|]. cbn [split_slash].
  destruct (decide (c = "/"%char)) as [->|Hc].
  - rewrite concat_cons by apply split_slash_nonempty. by rewrite IH.
  - pose proof (split_slash_nonempty s) as Hne.
    destruct (split_slash s) as [|h t]; [done|].
    destruct t as [|h' t].
    + cbn in *. by rewrite IH.
    + rewrite concat_cons by done. rewrite concat_cons in IH by done.
      change (String c h +:+ ?x) with (String c (h +:+ x)). by rewrite IH.
Qed.

Lemma split_slash_app (a b : string) :
  split_slash (a +:+ "/" +:+ b) = split_slash a ++ split_slash b.
Proof.
  induction a as [|c a IH].
  - change ("" +:+ "/" +:+ b) with (String "/" b). cbn [split_slash].
    by rewrite decide_True.
  - change (String c a +:+ "/" +:+ b) with (String c (a +:+ "/" +:+ b)).
    cbn [split_slash]. rewrite IH. destruct (decide (c = "/"%char)); [done|].
    pose proof (split_slash_nonempty a). by destruct (split_slash a).
Qed.

Lemma split_slash_no_slash (s : string) : contains "/" s = false -> split_slash s = [s].
Proof.
  induction s as [|c s IH]; [done|]. cbn [contains split_slash String.prefix].
  intros [Hp Hs]%orb_false_iff. destruct (ascii_dec "/" c) as [<-|Hc].
  - by destruct s.
  - rewrite decide_False by congruence. by rewrite IH.
Qed.

(** X20: the directory that the aggregator takes for a result document,
    ["/".join(path.split("/")[:-1])], is the path without its last
    component: for a path [d/base] whose base name holds no separator it
    is [d], whatever [d] is. *)
Theorem rel_val_path_dirname (d base : string) :
  contains "/" base = false -> rel_val_path (d +:+ "/" +:+ base) = d.
Proof.
  intros Hbase. unfold rel_val_path.
  rewrite split_slash_app, (split_slash_no_slash _ Hbase), removelast_last.
  apply join_split_slash.
Qed.

Lemma rel_val_path_dirname_witness :
  rel_val_path ("out/g1/a" +:+ "/" +:+ "Summary.json") = "out/g1/a".
Proof. apply (rel_val_path_dirname "out/g1/a" "Summary.json"). reflexivity. Defined.

(** ** Comparison of values taken from log files *)

Lemma zip3_map {A B C D : Type} (f : D -> A) (g : D -> B) (h : D -> C) (l : list D) :
  zip3 (map f l) (map g l) (map h l) = map (fun x => (f x, g x, h x)) l.
Proof. induction l as [|x l IH]; [done|]. cbn [map zip3]. by rewrite IH. Qed.

Lemma existsb_filter {A : Type} (p : A -> bool) (l : list A) :
  existsb p l = match List.filter p l with [] => false | _ :: _ => true end.
Proof.
  induction l as [|x l IH]; [done|]. cbn [existsb List.filter].
  destruct (p x); [done | apply IH].
Qed.

Lemma chain_inputs_combined (dir1 dir2 : string) (files cps : list string)
    (acc1 acc2 : list chain) (accd : list string) :
  fold_left
    (fun '(to_be_chained1, to_be_chained2, output_dirs) cp =>
       let chained1 :=
         map (os_path_join dir1) (List.filter (fun hf => contains cp hf) files) in
       let chained2 :=
         map (os_path_join dir2) (List.filter (fun hf => contains cp hf) files) in
       match chained1, chained2 with
       | _ :: _, _ :: _ =>
           (to_be_chained1 ++ [Paths chained1], to_be_chained2 ++ [Paths chained2],
            output_dirs ++ [cp +:+ "_dir"])
       | _, _ => (to_be_chained1, to_be_chained2, output_dirs)
       end)
    cps (acc1, acc2, accd) =
  (acc1 ++ map (fun cp => Paths (map (os_path_join dir1)
                                   (List.filter (fun hf => contains cp hf) files)))
               (List.filter (fun cp => existsb (fun hf => contains cp hf) files) cps),
   acc2 ++ map (fun cp => Paths (map (os_path_join dir2)
                                   (List.filter (fun hf => contains cp hf) files)))
               (List.filter (fun cp => existsb (fun hf => contains cp hf) files) cps),
   accd ++ map (fun cp => cp +:+ "_dir")
               (List.filter (fun cp => existsb (fun hf => contains cp hf) files) cps)).
Proof.
  revert acc1 acc2 accd. induction cps as [|cp cps IH]; intros acc1 acc2 accd.
  - cbn. by rewrite !app_nil_r.
  - cbn [fold_left List.filter].
    rewrite (existsb_filter (fun hf => contains cp hf) files).
    destruct (List.filter (fun hf => contains cp hf) files) as [|hf0 sel] eqn:Hsel.
    + cbn [map]. apply IH.
    + cbn [map]. rewrite IH. rewrite !Hsel, <- !app_assoc. reflexivity.
Qed.

(** X21: with combine patterns there is one task for each pattern, in the
    order of the list, that occurs in the name of some file; its two
    inputs are the files with the pattern in their name, in the same
    order, under the first and under the second tree, and its output
    directory is named after the pattern.  A pattern that no file name
    holds gives no task. *)
Theorem rel_val_log_file_combined (dir1 dir2 : string) (files : list string)
    (output_dir cp0 : string) (cps : list string) :
  rel_val_log_file_tasks dir1 dir2 files output_dir (Some (cp0 :: cps)) =
  map (combined_task dir1 dir2 files output_dir)
      (List.filter (fun cp => existsb (fun hf => contains cp hf) files) (cp0 :: cps)).
Proof.
  unfold rel_val_log_file_tasks, chain_inputs. cbn [truthy default].
  rewrite chain_inputs_combined. cbn [app]. rewrite zip3_map.
  by rewrite map_map.
Qed.

(** X22: without combine patterns there is one task for each file, but
    each of its inputs is the path of the file by itself and not a list of
    paths: the names that are then opened for a side are the characters
    of that path, one at a time. *)
Theorem rel_val_log_file_single (dir1 dir2 : string) (files : list string)
    (output_dir : string) (combine_patterns : option (list string)) :
  truthy combine_patterns = false ->
  rel_val_log_file_tasks dir1 dir2 files output_dir combine_patterns =
    map (fun hf => {| lt_inputs1 := Path (os_path_join dir1 hf);
                      lt_inputs2 := Path (os_path_join dir2 hf);
                      lt_output_dir := os_path_join output_dir (hf +:+ "_dir") |}) files /\
  forall task name,
    task ∈ rel_val_log_file_tasks dir1 dir2 files output_dir combine_patterns ->
    name ∈ opened (lt_inputs1 task) ++ opened (lt_inputs2 task) ->
    String.length name = 1%nat.
Proof.
  intros Hcp.
  assert (Heq : rel_val_log_file_tasks dir1 dir2 files output_dir combine_patterns =
    map (fun hf => {| lt_inputs1 := Path (os_path_join dir1 hf);
                      lt_inputs2 := Path (os_path_join dir2 hf);
                      lt_output_dir := os_path_join output_dir (hf +:+ "_dir") |}) files).
  { unfold rel_val_log_file_tasks, chain_inputs. rewrite Hcp, zip3_map.
    by rewrite map_map. }
  split; [done|]. rewrite Heq. intros task name Htask Hname.
  apply list_elem_of_fmap in Htask as (hf & -> & _). cbn [lt_inputs1 lt_inputs2 opened] in Hname.
  apply elem_of_app in Hname as [Hname|Hname];
    by apply list_elem_of_fmap in Hname as (c & -> & _).
Qed.

Lemma rel_val_log_file_single_witness :
  rel_val_log_file_tasks "A" "B" ["tf1/sim.log"] "out" None =
    map (fun hf => {| lt_inputs1 := Path (os_path_join "A" hf);
                      lt_inputs2 := Path (os_path_join "B" hf);
                      lt_output_dir := os_path_join "out" (hf +:+ "_dir") |})
        ["tf1/sim.log"] /\
  forall task name,
    task ∈ rel_val_log_file_tasks "A" "B" ["tf1/sim.log"] "out" None ->
    name ∈ opened (lt_inputs1 task) ++ opened (lt_inputs2 task) ->
    String.length name = 1%nat.
Proof. apply (rel_val_log_file_single "A" "B" ["tf1/sim.log"] "out" None). reflexivity. Defined.

(** ** Values per test *)

Lemma for_each_ext {A S : Type} (f g : S -> A -> py S) (l : list A) (s : S) :
  (forall s x, f s x = g s x) -> for_each l f s = for_each l g s.
Proof.
  intros Hfg. revert s. induction l as [|x l IH]; intros s; [done|].
  cbn [for_each]. rewrite Hfg. destruct (g s x); cbn; [apply IH | done].
Qed.

Lemma for_each_flat {A K B S : Type} (body : K -> S -> B -> py S) (key : A -> K)
    (items : A -> list B) (l : list A) (s : S) :
  for_each l (fun s a => for_each (items a) (body (key a)) s) s =
  for_each (flat_map (fun a => map (pair (key a)) (items a)) l)
           (fun s kb => body kb.1 s kb.2) s.
Proof.
  revert s. induction l as [|a l IH]; intros s; [done|].
  cbn [for_each flat_map]. rewrite for_each_app.
  assert (Hinner : forall s',
    for_each (map (pair (key a)) (items a)) (fun s kb => body kb.1 s kb.2) s' =
    for_each (items a) (body (key a)) s').
  { induction (items a) as [|b bs IHb]; intros s'; [done|].
    cbn [map for_each fst snd]. destruct (body (key a) s' b); cbn; [apply IHb | done]. }
  rewrite Hinner. destruct (for_each (items a) (body (key a)) s); cbn; [apply IH | done].
Qed.

Lemma dict_get_constant_columns {V : Type} (c : V) (fields : list string)
    (acc : dict V) (k : string) :
  dict_get (fold_left (fun d m => dict_set d m.1 m.2) (map (fun f => (f, c)) fields) acc) k =
  if decide (k ∈ fields) then Some c else dict_get acc k.
Proof.
  revert acc. induction fields as [|f fields IH]; intros acc; cbn [map fold_left].
  - by rewrite decide_False by apply not_elem_of_nil.
  - rewrite IH. cbn [fst snd]. destruct (decide (k ∈ fields)) as [Hin|Hin].
    + by rewrite decide_True by by apply list_elem_of_further.
    + rewrite dict_get_set. destruct (decide (f = k)) as [->|Hne].
      * by rewrite decide_True by apply list_elem_of_here.
      * rewrite decide_False; [done|]. rewrite elem_of_cons. by intros [?|?].
Qed.

Lemma init_columns_hold (fields : list string) :
  "histograms" ∉ fields -> columns_hold fields (init_columns fields) [].
Proof.
  intros Hh. unfold columns_hold, init_columns. rewrite dict_get_set_eq. split; [done|].
  intros f Hf. exists []. split; [|constructor].
  rewrite dict_get_set_ne by (intros <-; done).
  unfold json_object. by rewrite dict_get_constant_columns, decide_True.
Qed.

(** The loop over the fields appends one value to each of their columns
    and leaves the other columns alone. *)
Lemma append_fields (test : TestOutcome) (fields : list string)
    (columns : dict (list jvalue)) :
  NoDup fields ->
  (forall f, f ∈ fields -> is_Some (dict_get columns f)) ->
  Forall (fun f => exists v, test_field f test = Ret v) fields ->
  exists columns',
    for_each fields (append_field test) columns = Ret columns' /\
    (forall k, k ∉ fields -> dict_get columns' k = dict_get columns k) /\
    (forall f, f ∈ fields ->
       exists column v, dict_get columns f = Some column /\
                        test_field f test = Ret v /\
                        dict_get columns' f = Some (column ++ [v])).
Proof.
  revert columns. induction fields as [|f fields IH]; intros columns Hnd Hcols Hvals.
  - exists columns. split; [done|]. split; [done|]. by intros f ?%elem_of_nil.
  - apply NoDup_cons in Hnd as [Hf Hnd]. apply Forall_cons in Hvals as [[v Hv] Hvals].
    destruct (Hcols f) as [column Hcolumn]; [apply list_elem_of_here|].
    assert (Hstep : append_field test columns f =
                    Ret (dict_set columns f (column ++ [v]))).
    { unfold append_field, getitem. rewrite Hcolumn. cbn [mbind py_bind].
      by rewrite Hv. }
    cbn [for_each]. rewrite Hstep. cbn [mbind py_bind].
    destruct (IH (dict_set columns f (column ++ [v])) Hnd) as (columns' & Hrun & Hother & Hfields);
      [|done|].
    { intros f' Hf'. rewrite dict_get_set. destruct (decide (f = f')); [by eexists|].
      apply Hcols. by apply list_elem_of_further. }
    exists columns'. split; [done|]. split.
    + intros k [Hk Hkf]%not_elem_of_cons. rewrite (Hother k Hkf).
      by rewrite dict_get_set_ne.
    + intros f' [->|Hf']%elem_of_cons.
      * exists column, v. split; [done|]. split; [done|].
        rewrite (Hother f Hf). apply dict_get_set_eq.
      * destruct (Hfields f' Hf') as (column' & v' & Hc' & Hv' & Hget').
        exists column', v'. split; [|done].
        rewrite dict_get_set_ne in Hc'; [done|]. by intros ->.
Qed.

Lemma rows_of_snoc (T h : string) (t : TestOutcome) (seen : list (string * TestOutcome)) :
  rows_of T (seen ++ [(h, t)]) =
  rows_of T seen ++
  (if comparable t && bool_decide (test_name t = T) then [(h, t)] else []).
Proof. unfold rows_of. by rewrite List.filter_app. Qed.

Lemma rows_of_unseen (T : string) (seen : list (string * TestOutcome)) :
  T ∉ map (fun r => test_name r.2) seen -> rows_of T seen = [].
Proof.
  induction seen as [|[h t] seen IH]; [done|]. cbn [map rows_of List.filter fst snd].
  intros [Hne Hin]%not_elem_of_cons.
  rewrite bool_decide_eq_false_2 by congruence. rewrite andb_false_r. by apply IH.
Qed.

Lemma columns_hold_snoc (fields : list string) (columns columns' : dict (list jvalue))
    (R : list (string * TestOutcome)) (h : string) (t : TestOutcome) :
  (forall f, f ∈ fields ->
     exists column, dict_get columns f = Some column /\
                    Forall2 (fun v r => test_field f r.2 = Ret v) column R) ->
  dict_get columns' "histograms" = Some (map (fun r => JString r.1) R ++ [JString h]) ->
  (forall f, f ∈ fields ->
     exists column v, dict_get columns f = Some column /\
                      test_field f t = Ret v /\
                      dict_get columns' f = Some (column ++ [v])) ->
  columns_hold fields columns' (R ++ [(h, t)]).
Proof.
  intros Hcols Hhist' Hfields. split.
  - by rewrite List.map_app.
  - intros f Hf. destruct (Hfields f Hf) as (column & v & Hc & Hv & Hc').
    exists (column ++ [v]). split; [done|].
    destruct (Hcols f Hf) as (column0 & Hc0 & Hall).
    assert (column0 = column) as -> by congruence.
    apply Forall2_app; [done|]. by constructor.
Qed.

Lemma extract_test_step (fields : list string) (h : string) (t : TestOutcome)
    (m : dict (dict (list jvalue))) (seen : list (string * TestOutcome)) :
  NoDup fields -> "histograms" ∉ fields ->
  extracted fields m seen ->
  (comparable t = true -> Forall (fun f => exists v, test_field f t = Ret v) fields) ->
  exists m', extract_test fields h m t = Ret m' /\ extracted fields m' (seen ++ [(h, t)]).
Proof.
  intros Hnd Hh [Hkeys Hhold] Hvals. unfold extract_test.
  set (T := test_name t).
  set (m1 := match dict_get m T with
             | Some _ => m
             | None => dict_set m T (init_columns fields)
             end).
  assert (H1 : exists columns, dict_get m1 T = Some columns /\
                               columns_hold fields columns (rows_of T seen)).
  { unfold m1. destruct (dict_get m T) as [columns|] eqn:Hget.
    - exists columns. split; [done|]. by apply Hhold.
    - exists (init_columns fields). rewrite dict_get_set_eq. split; [done|].
      rewrite rows_of_unseen; [by apply init_columns_hold|].
      intros Hin. apply Hkeys in Hin as [? Hin]. congruence. }
  assert (H1' : forall T', T' <> T -> dict_get m1 T' = dict_get m T').
  { intros T' Hne. unfold m1. destruct (dict_get m T); [done|].
    by rewrite dict_get_set_ne. }
  destruct H1 as (columns & Hcolumns & Hcols).
  assert (Hnames : forall T', T' ∈ map (fun r => test_name r.2) (seen ++ [(h, t)]) <->
                              T' ∈ map (fun r => test_name r.2) seen \/ T' = T).
  { intros T'. rewrite List.map_app, elem_of_app. cbn [map fst snd].
    by rewrite list_elem_of_singleton. }
  destruct (comparable t) eqn:Hc; cbn [negb].
  - (* a comparable outcome *)
    destruct Hcols as [Hhist Hfields].
    destruct (append_fields t fields
                (dict_set columns "histograms"
                   (map (fun r => JString r.1) (rows_of T seen) ++ [JString h])) Hnd)
      as (columns' & Hrun & Hother & Happ).
    { intros f Hf. rewrite dict_get_set_ne by (intros <-; done).
      destruct (Hfields f Hf) as (column & -> & _). by eexists. }
    { by apply Hvals. }
    unfold getitem. rewrite Hcolumns. cbn [mbind py_bind]. rewrite Hhist.
    cbn [mbind py_bind]. rewrite Hrun. cbn [mbind py_bind].
    eexists. split; [done|]. split.
    + intros T'. rewrite Hnames, dict_get_set. destruct (decide (T = T')) as [<-|Hne].
      * split; [by right | by eexists].
      * rewrite H1' by done. rewrite Hkeys. split; [by left | by intros [?|?]].
    + intros T' cols. rewrite dict_get_set, rows_of_snoc, Hc. cbn [andb].
      destruct (decide (T = T')) as [<-|Hne].
      * intros [= <-]. rewrite bool_decide_eq_true_2 by done.
        apply (columns_hold_snoc fields
                 (dict_set columns "histograms"
                    (map (fun r => JString r.1) (rows_of T seen) ++ [JString h]))
                 columns' _ h t); [| |done].
        -- intros f Hf. rewrite dict_get_set_ne by (intros <-; done).
           by apply Hfields.
        -- rewrite (Hother _ Hh). apply dict_get_set_eq.
      * rewrite bool_decide_eq_false_2 by done. rewrite app_nil_r, H1' by done.
        apply Hhold.
  - (* an outcome that is not comparable *)
    exists m1. split; [done|]. split.
    + intros T'. rewrite Hnames. destruct (decide (T' = T)) as [->|Hne].
      * split; [by right | by eexists].
      * rewrite H1' by done. rewrite Hkeys. split; [by left | by intros [?|?]].
    + intros T' cols. rewrite rows_of_snoc, Hc. cbn [andb]. rewrite app_nil_r.
      destruct (decide (T' = T)) as [->|Hne].
      * rewrite Hcolumns. by intros [= <-].
      * rewrite H1' by done. apply Hhold.
Qed.

Lemma extract_loop (fields : list string) (l seen : list (string * TestOutcome))
    (m : dict (dict (list jvalue))) :
  NoDup fields -> "histograms" ∉ fields ->
  extracted fields m seen -> fields_present fields l ->
  exists m',
    for_each l (fun m ab => extract_test fields ab.1 m ab.2) m = Ret m' /\
    extracted fields m' (seen ++ l).
Proof.
  intros Hnd Hh. revert seen m. induction l as [|[h t] l IH]; intros seen m Hm Hl.
  - exists m. by rewrite app_nil_r.
  - apply Forall_cons in Hl as [Ht Hl].
    destruct (extract_test_step fields h t m seen Hnd Hh Hm Ht) as (m1 & Hstep & Hm1).
    destruct (IH (seen ++ [(h, t)]) m1 Hm1 Hl) as (m' & Hrun & Hm').
    exists m'. cbn [for_each fst snd]. rewrite Hstep. cbn [mbind py_bind].
    split; [done|]. by rewrite <- app_assoc in Hm'.
Qed.

(** X23: for distinct fields other than ["histograms"] that every
    comparable outcome has, [extract_from_summary] returns a map whose keys
    are the test names that occur in the summary, comparable or not.  For
    each test its ["histograms"] column lists, in the order of the summary,
    the artifacts with a comparable outcome of that test, and the column
    of each field lists the values of that field of these outcomes in the
    same order: all columns of a test have the same length. *)
Theorem extract_from_summary_columns (summary : dict (list TestOutcome))
    (fields : list string) :
  NoDup fields -> "histograms" ∉ fields ->
  fields_present fields (all_outcomes summary) ->
  exists m,
    extract_from_summary summary fields = Ret m /\
    (forall T, T ∈ m.*1 <-> exists h t, (h, t) ∈ all_outcomes summary /\ test_name t = T) /\
    (forall T columns,
        dict_get m T = Some columns ->
        columns_hold fields columns (rows_of T (all_outcomes summary)) /\
        forall f column,
          f ∈ fields -> dict_get columns f = Some column ->
          length column = length (rows_of T (all_outcomes summary))).
Proof.
  intros Hnd Hh Hpresent. unfold extract_from_summary.
  rewrite (for_each_ext _
             (fun m (e : string * list TestOutcome) =>
                for_each e.2 (extract_test fields e.1) m)) by (by intros m [h tests]).
  rewrite (for_each_flat (extract_test fields) fst snd).
  fold (all_outcomes summary).
  destruct (extract_loop fields (all_outcomes summary) [] [] Hnd Hh) as (m & Hrun & Hkeys & Hhold);
    [|done|].
  { split; [|done]. intros T. cbn. split; [by intros [??] | by intros ?%elem_of_nil]. }
  exists m. split; [done|]. cbn [app] in *. split.
  - intros T. rewrite <- dict_get_is_Some, Hkeys, list_elem_of_In, in_map_iff. split.
    + intros ([h t] & <- & Hin). exists h, t. by rewrite list_elem_of_In.
    + intros (h & t & Hin & <-). exists (h, t). by rewrite <- list_elem_of_In.
  - intros T columns Hget. split; [by apply Hhold|].
    intros f column Hf Hcolumn. destruct (Hhold T columns Hget) as [_ Hcols].
    destruct (Hcols f Hf) as (column' & Hc' & Hall).
    assert (column' = column) as -> by congruence. by apply Forall2_length in Hall.
Qed.

Lemma extract_from_summary_columns_witness :
  exists m,
    extract_from_summary (json_object H1_H2_summary) ["value"; "threshold"] = Ret m /\
    (forall T, T ∈ m.*1 <->
               exists h t, (h, t) ∈ all_outcomes (json_object H1_H2_summary) /\
                           test_name t = T) /\
    (forall T columns,
        dict_get m T = Some columns ->
        columns_hold ["value"; "threshold"] columns
          (rows_of T (all_outcomes (json_object H1_H2_summary))) /\
        forall f column,
          f ∈ ["value"; "threshold"] -> dict_get columns f = Some column ->
          length column = length (rows_of T (all_outcomes (json_object H1_H2_summary)))).
Proof.
  apply (extract_from_summary_columns (json_object H1_H2_summary) ["value"; "threshold"]).
  - apply (bool_decide_unpack _). vm_compute. exact I.
  - apply (bool_decide_unpack _). vm_compute. exact I.
  - unfold fields_present. apply Forall_forall. intros r Hr Hc.
    apply list_elem_of_In in Hr. vm_compute in Hr.
    destruct Hr as [<-|[<-|[<-|[<-|[]]]]]; try discriminate Hc;
      repeat constructor; eexists; reflexivity.
Defined.

Example extract_from_summary_H1_H2 :
  extract_from_summary (json_object H1_H2_summary) ["value"; "threshold"] =
  Ret [("chi2", [("value", [JNumber (6 # 5); JNumber (1 # 2)]);
                 ("threshold", [JNumber (3 # 2); JNumber (3 # 2)]);
                 ("histograms", [JString "H1"; JString "H2"])]);
       ("bincont", [("value", []); ("threshold", []); ("histograms", [])]);
       ("test_summary", [("value", []); ("threshold", []); ("histograms", [])])].
Proof. vm_compute. reflexivity. Qed.

(** ** Metrics export *)

Example influx_global :
  influx example_strip example_int_str fs_global
    {| influx_dir := "rel_val"; influx_web_storage := Some "http://web";
       influx_tags := Some ["run=1"]; influx_table_suffix := Some "test" |} =
  (["O2DPG_MC_ReleaseValidation_test,run=1,type_global=g2,type_specific=g2,id=0"
      +:+ ",web_storage=http://web/g2/overlayPlots/H1.png histogram_name="
      +:+ dquote +:+ "H1" +:+ dquote +:+ ",test_summary=4" +:+ newline;
    "O2DPG_MC_ReleaseValidation_test,run=1,type_global=g2,type_specific=g2,id=2"
      +:+ ",web_storage=http://web/g2/overlayPlots/H2.png histogram_name="
      +:+ dquote +:+ "H2" +:+ dquote +:+ ",test_summary=1" +:+ newline],
   Ret None).
Proof. vm_compute. reflexivity. Qed.

Lemma has_char_cons (c x : ascii) (s : string) :
  has_char c (String x s) = false <-> x <> c /\ has_char c s = false.
Proof.
  unfold has_char. cbn [contains String.prefix]. rewrite orb_false_iff.
  destruct (ascii_dec c x) as [->|Hne].
  - split; [|by intros [? _]]. intros [Hp _]. by destruct s.
  - split; [intros [_ ?]; split; [congruence | done] | by intros [_ ?]].
Qed.

Lemma split_on_nonempty (sep : ascii) (s : string) : split_on sep s <> [].
Proof.
  induction s as [|c s IH]; [done|]. cbn [split_on].
  destruct (decide (c = sep)); [done|]. by destruct (split_on sep s).
Qed.

Lemma split_on_no_sep (sep : ascii) (s : string) :
  has_char sep s = false -> split_on sep s = [s].
Proof.
  induction s as [|c s IH]; [done|]. intros [Hc Hs]%has_char_cons.
  cbn [split_on]. rewrite decide_False by done. by rewrite IH.
Qed.

Lemma split_on_app (sep : ascii) (a b : string) :
  split_on sep (a +:+ String sep b) = split_on sep a ++ split_on sep b.
Proof.
  induction a as [|c a IH].
  - change ("" +:+ String sep b) with (String sep b). cbn [split_on].
    by rewrite decide_True.
  - change (String c a +:+ String sep b) with (String c (a +:+ String sep b)).
    cbn [split_on]. rewrite IH. destruct (decide (c = sep)); [done|].
    pose proof (split_on_nonempty sep a). by destruct (split_on sep a).
Qed.

(** The parts of a split hold no separator, and joined by the separator
    they give the string back. *)
Lemma split_on_parts (sep : ascii) (s : string) :
  Forall (fun part => has_char sep part = false) (split_on sep s) /\
  String.concat (String sep EmptyString) (split_on sep s) = s.
Proof.
  induction s as [|c s [IHparts IHjoin]]; [by split; [repeat constructor|]|].
  cbn [split_on]. pose proof (split_on_nonempty sep s) as Hne.
  destruct (decide (c = sep)) as [->|Hc].
  - split; [by constructor|]. rewrite concat_cons by done. by rewrite IHjoin.
  - destruct (split_on sep s) as [|h t]; [done|].
    apply Forall_cons in IHparts as [Hh Ht]. split.
    + constructor; [|done]. by apply has_char_cons.
    + destruct t as [|h' t].
      * cbn in *. by rewrite IHjoin.
      * rewrite concat_cons by done. rewrite concat_cons in IHjoin by done.
        change (String c h +:+ ?x) with (String c (h +:+ x)). by rewrite IHjoin.
Qed.

Section InfluxProperties.

Variable strip : string -> string.
Variable int_str : Z -> string.

Lemma format_tag_is_Some (t : string) :
  is_Some (format_tag strip t) <-> well_formed_tag t.
Proof.
  unfold format_tag, well_formed_tag. split.
  - destruct (split_on_parts "=" t) as [Hparts Hjoin].
    destruct (split_on "=" t) as [|k [|v [|??]]]; try by intros [??].
    destruct (decide (k = "")); [by intros [??]|].
    destruct (decide (v = "")); [by intros [??]|]. intros _.
    apply Forall_cons in Hparts as [Hk Hv]. apply Forall_cons in Hv as [Hv _].
    exists k, v. by rewrite <- Hjoin.
  - intros (k & v & -> & Hk & Hv & Hck & Hcv).
    change (k +:+ "=" +:+ v) with (k +:+ String "=" v).
    rewrite split_on_app, !split_on_no_sep by done. cbn [app].
    rewrite !decide_False by done. by eexists.
Qed.

Lemma format_tags_None (tags : list string) (tags_out : string) :
  format_tags strip tags tags_out = None <-> Exists (fun t => ~ well_formed_tag t) tags.
Proof.
  revert tags_out. induction tags as [|t tags IH]; intros tags_out; cbn [format_tags].
  - split; [done | by intros ?%Exists_nil].
  - rewrite Exists_cons. pose proof (format_tag_is_Some t) as Ht.
    destruct (format_tag strip t) as [s|].
    + rewrite IH. split; [by right|]. intros [Hn|?]; [|done]. destruct Hn. apply Ht. by eexists.
    + split; [|done]. intros _. left. intros Hwf. apply Ht in Hwf as [??]. done.
Qed.

End InfluxProperties.

Section InfluxExport.

Variable strip : string -> string.
Variable int_str : Z -> string.

(** X24: when the global summary exists, the export returns [1] exactly
    when tags are given and one of them is not of the form [key=value]
    with one equals sign and text on both sides; it has then written
    nothing. *)
Theorem influx_refuses_tags (fs : filesystem) (args : InfluxArgs) :
  path_exists fs (os_path_join (influx_dir args) "SummaryGlobal.json") = true ->
  ((influx strip int_str fs args).2 = Ret (Some 1%Z) <->
   exists t tags, influx_tags args = Some (t :: tags) /\
                  Exists (fun t => ~ well_formed_tag t) (t :: tags)) /\
  ((influx strip int_str fs args).2 = Ret (Some 1%Z) ->
   (influx strip int_str fs args).1 = []).
Proof.
  intros Hex. unfold influx. rewrite Hex. cbn [negb].
  destruct (influx_tags args) as [[|t tags]|] eqn:Htags; cbn [truthy default];
    unfold id.
  - split; [|cbn [snd]].
    + cbn [snd]. split; [|by intros (? & ? & [=] & _)].
      destruct (influx_rows _ _ _ _) as [w [[]|e']]; by cbn.
    + destruct (influx_rows _ _ _ _) as [w [[]|e']]; by cbn.
  - destruct (format_tags strip (t :: tags) "") as [tags_out|] eqn:Hfmt.
    + assert (Hwf : ~ Exists (fun t => ~ well_formed_tag t) (t :: tags)).
      { intros Hn. apply (format_tags_None strip _ "") in Hn. congruence. }
      cbn [fst snd]. split.
      * split; [|by intros (? & ? & [= <- <-] & ?)].
        destruct (influx_rows _ _ _ _) as [w [[]|e']]; by cbn.
      * destruct (influx_rows _ _ _ _) as [w [[]|e']]; by cbn.
    + cbn [fst snd]. split; [|done]. split; [|done]. intros _. exists t, tags.
      split; [done|]. by apply (format_tags_None strip _ "").
  - split; [|cbn [snd]].
    + cbn [snd]. split; [|by intros (? & ? & [=] & _)].
      destruct (influx_rows _ _ _ _) as [w [[]|e']]; by cbn.
    + destruct (influx_rows _ _ _ _) as [w [[]|e']]; by cbn.
Qed.

End InfluxExport.

Lemma influx_refuses_tags_witness :
  ((influx example_strip example_int_str fs_global
      (example_influx_args (Some ["run=1"; "period"]))).2 = Ret (Some 1%Z) <->
   exists t tags,
     influx_tags (example_influx_args (Some ["run=1"; "period"])) = Some (t :: tags) /\
     Exists (fun t => ~ well_formed_tag t) (t :: tags)) /\
  ((influx example_strip example_int_str fs_global
      (example_influx_args (Some ["run=1"; "period"]))).2 = Ret (Some 1%Z) ->
   (influx example_strip example_int_str fs_global
      (example_influx_args (Some ["run=1"; "period"]))).1 = []).
Proof.
  apply (influx_refuses_tags example_strip example_int_str fs_global
           (example_influx_args (Some ["run=1"; "period"]))).
  reflexivity.
Defined.

Section InfluxLines.

Variable strip : string -> string.
Variable int_str : Z -> string.

Lemma influx_ranks (tests : list TestOutcome) (s : string) :
  Forall (fun t => result t ∈ REL_VAL_SEVERITY_MAP.*1) tests ->
  exists s',
    for_each tests
      (fun s test =>
         rank ← getitem REL_VAL_SEVERITY_MAP (result test);
         Ret (s +:+ "," +:+ test_name test +:+ "=" +:+ int_str rank)) s = Ret s'.
Proof.
  revert s. induction tests as [|t tests IH]; intros s Hall; [by exists s|].
  apply Forall_cons in Hall as [Ht Hall]. cbn [for_each].
  apply dict_get_is_Some in Ht as [rank Hrank].
  assert (Hstep : (rank ← getitem REL_VAL_SEVERITY_MAP (result t);
                   Ret (s +:+ "," +:+ test_name t +:+ "=" +:+ int_str rank)) =
                  Ret (s +:+ "," +:+ test_name t +:+ "=" +:+ int_str rank))
    by (unfold getitem; by rewrite Hrank).
  rewrite Hstep. cbn [mbind py_bind]. by apply IH.
Qed.

Lemma influx_line_exportable (row_tags : string) (web_storage : option string) (i : nat)
    (h : string) (t : TestOutcome) (tests : list TestOutcome) :
  exportable (truthy_str web_storage) (t :: tests) ->
  exists line, influx_line int_str row_tags web_storage i h (t :: tests) = Ret line.
Proof.
  intros ([tg Htg] & [ts Hts] & Hplot & Hres). unfold influx_line.
  change (index (t :: tests) 0) with (Ret t). cbn [mbind py_bind].
  rewrite Htg, Hts. cbn [present_str mbind py_bind].
  destruct (truthy_str web_storage).
  - destruct (Hplot eq_refl) as [rp Hrp]. rewrite Hrp. cbn [present_str mbind py_bind].
    destruct (influx_ranks (t :: tests)
                (((row_tags +:+ ",type_global=" +:+ tg +:+ ",type_specific=" +:+ ts
                   +:+ ",id=" +:+ int_str (Z.of_nat i)) +:+ ",web_storage="
                  +:+ os_path_join (default "" web_storage) rp)
                 +:+ " histogram_name=" +:+ dquote +:+ h +:+ dquote) Hres) as [s' Hs'].
    rewrite Hs'. by eexists.
  - cbn [mbind py_bind].
    destruct (influx_ranks (t :: tests)
                ((row_tags +:+ ",type_global=" +:+ tg +:+ ",type_specific=" +:+ ts
                  +:+ ",id=" +:+ int_str (Z.of_nat i))
                 +:+ " histogram_name=" +:+ dquote +:+ h +:+ dquote) Hres) as [s' Hs'].
    rewrite Hs'. by eexists.
Qed.

Lemma influx_rows_exportable (row_tags : string) (web_storage : option string)
    (items : list (nat * (string * list TestOutcome))) :
  Forall (fun item => exportable (truthy_str web_storage) item.2.2) items ->
  (influx_rows int_str row_tags web_storage items).2 = Ret tt /\
  Forall2 (fun line item =>
             influx_line int_str row_tags web_storage item.1 item.2.1 item.2.2 = Ret line)
          (influx_rows int_str row_tags web_storage items).1
          (List.filter (fun item => match item.2.2 with [] => false | _ :: _ => true end)
                       items).
Proof.
  induction items as [|[i [h tests]] items IH]; intros Hall; [by split; [|constructor]|].
  apply Forall_cons in Hall as [Hitem Hall]. destruct (IH Hall) as [Hret Hlines].
  cbn [influx_rows List.filter fst snd]. destruct tests as [|t tests]; [done|].
  destruct (influx_line_exportable row_tags web_storage i h t tests Hitem) as [line Hline].
  rewrite Hline. cbn [fst snd]. split; [done|]. by constructor.
Qed.

(** X25: for well-formed tags and an aggregated summary, in which the first
    outcome of every artifact carries its types (and its plot path when a
    web storage is given) and every result is a severity, the export ends
    normally and writes one line for each artifact that has outcomes, in
    the order of the summary.  The id of a line is the position of its
    artifact among all artifacts of the summary, those without outcomes
    included. *)
Theorem influx_lines (fs : filesystem) (args : InfluxArgs) :
  path_exists fs (os_path_join (influx_dir args) "SummaryGlobal.json") = true ->
  Forall well_formed_tag (default [] (influx_tags args)) ->
  Forall (fun e => exportable (truthy_str (influx_web_storage args)) e.2)
         (json_object (load_summary fs (os_path_join (influx_dir args) "SummaryGlobal.json"))) ->
  exists tags_out written,
    (truthy (influx_tags args) = false -> tags_out = "") /\
    influx strip int_str fs args = (written, Ret None) /\
    Forall2 (fun line item =>
               influx_line int_str (influx_table_name args +:+ tags_out)
                 (influx_web_storage args) item.1 item.2.1 item.2.2 = Ret line)
            written
            (with_outcomes
               (json_object (load_summary fs
                  (os_path_join (influx_dir args) "SummaryGlobal.json")))) /\
    length written =
    length (with_outcomes
              (json_object (load_summary fs
                 (os_path_join (influx_dir args) "SummaryGlobal.json")))).
Proof.
  intros Hex Htags Hsummary. unfold influx. rewrite Hex. cbn [negb].
  set (summary := json_object (load_summary fs _)) in *.
  assert (Hitems : Forall (fun item : nat * (string * list TestOutcome) =>
                             exportable (truthy_str (influx_web_storage args)) item.2.2)
                          (imap pair summary)).
  { apply Forall_forall. intros [i [h tests]] Hin.
    apply elem_of_lookup_imap in Hin as (i' & e & Heq & Hi).
    injection Heq as -> <-. rewrite Forall_forall in Hsummary.
    apply (Hsummary (h, tests)). by eapply list_elem_of_lookup_2. }
  assert (Hfmt : exists tags_out,
    (truthy (influx_tags args) = false -> tags_out = "") /\
    (if truthy (influx_tags args)
     then format_tags strip (default [] (influx_tags args)) ""
     else Some EmptyString) = Some tags_out).
  { destruct (truthy (influx_tags args)); [|by exists ""].
    destruct (format_tags strip (default [] (influx_tags args)) "") as [tags_out|] eqn:Hf.
    - by exists tags_out.
    - apply format_tags_None in Hf. apply Exists_exists in Hf as (t & Ht & Hn).
      rewrite Forall_forall in Htags. by destruct (Hn (Htags t Ht)). }
  destruct Hfmt as (tags_out & Hfalsy & ->).
  destruct (influx_rows_exportable (influx_table_name args +:+ tags_out)
              (influx_web_storage args) (imap pair summary) Hitems) as [Hret Hlines].
  exists tags_out, (influx_rows int_str (influx_table_name args +:+ tags_out)
                      (influx_web_storage args) (imap pair summary)).1.
  split; [done|]. split.
  - unfold influx_table_name in *. by rewrite Hret.
  - split; [done|]. by apply Forall2_length in Hlines.
Qed.

End InfluxLines.

Lemma influx_lines_witness :
  exists tags_out written,
    (truthy (influx_tags (example_influx_args (Some ["run=1"]))) = false -> tags_out = "") /\
    influx example_strip example_int_str fs_global (example_influx_args (Some ["run=1"]))
      = (written, Ret None) /\
    Forall2 (fun line item =>
               influx_line example_int_str
                 (influx_table_name (example_influx_args (Some ["run=1"])) +:+ tags_out)
                 (influx_web_storage (example_influx_args (Some ["run=1"])))
                 item.1 item.2.1 item.2.2 = Ret line)
            written
            (with_outcomes
               (json_object (load_summary fs_global
                  (os_path_join (influx_dir (example_influx_args (Some ["run=1"])))
                     "SummaryGlobal.json")))) /\
    length written =
    length (with_outcomes
              (json_object (load_summary fs_global
                 (os_path_join (influx_dir (example_influx_args (Some ["run=1"])))
                    "SummaryGlobal.json")))).
Proof.
  apply (influx_lines example_strip example_int_str fs_global
           (example_influx_args (Some ["run=1"]))).
  - reflexivity.
  - repeat constructor. exists "run", "1". by repeat split.
  - repeat constructor; try (by eexists); try discriminate;
      apply (bool_decide_unpack _); vm_compute; exact I.
Defined.

(** ** Directory-tree mode: nothing configured is left out *)

Lemma io_bind_fst {A B : Type} (m : io A) (k : A -> io B) (a : A) :
  m.2 = Ret a -> (m ≫= k).1 = m.1 ++ (k a).1.
Proof. unfold mbind, io_bind. destruct m as [trace r]. cbn. by intros ->. Qed.

Lemma elem_of_io_for_2 {A : Type} (l : list A) (body : A -> io unit) (x : A) (ev : event) :
  (forall y, y ∈ l -> (body y).2 = Ret tt) ->
  x ∈ l -> ev ∈ (body x).1 -> ev ∈ (io_for l body).1.
Proof.
  induction l as [|y l IH]; intros Hret Hx Hev; [by apply elem_of_nil in Hx|].
  cbn [io_for]. rewrite (io_bind_fst _ _ tt) by apply Hret, list_elem_of_here.
  apply elem_of_app. apply elem_of_cons in Hx as [->|Hx]; [by left|]. right.
  apply IH; [|done..]. intros z Hz. by apply Hret, list_elem_of_further.
Qed.

(** X26: without a list of disabled groups, once the size audit has
    returned, a comparison is handed over for every sub-group of every
    selected group of the configuration whose pattern matches files in
    both trees (every group, or the enabled ones if a list of enabled
    groups is given): none is left out. *)
Theorem rel_val_sim_dirs_dispatch_complete (fs : filesystem) (args : Namespace)
    (dir1 dir2 rok name' path : string) (report : collect_dict) (group : dict string) :
  args_input1 args !! 0%nat = Some dir1 ->
  args_input2 args !! 0%nat = Some dir2 ->
  file_sizes fs [dir1; dir2] (1 # 2)%Q = Ret report ->
  truthy (args_dir_config_disable args) = false ->
  (truthy (args_dir_config_enable args) = true ->
   rok ∈ default [] (args_dir_config_enable args)) ->
  dict_get (loaded_config fs args) rok = Some group ->
  (name', path) ∈ group ->
  find_mutual_files fs [dir1; dir2] path None <> [] ->
  RelValFiles (map (os_path_join dir1) (find_mutual_files fs [dir1; dir2] path None))
              (map (os_path_join dir2) (find_mutual_files fs [dir1; dir2] path None))
              (os_path_join (os_path_join (args_output args) rok) name')
    ∈ (rel_val_sim_dirs fs args).1.
Proof.
  intros H1 H2 Hfs Hdis Hen Hgroup Hentry Hfiles.
  rewrite (rel_val_sim_dirs_audited fs args dir1 dir2 H1 H2), Hfs. cbn [fst].
  apply list_elem_of_further. unfold dispatch_groups.
  fold (loaded_config fs args).
  set (roks := if truthy (args_dir_config_enable args)
               then List.filter
                      (fun rok => bool_decide (rok ∈ default [] (args_dir_config_enable args)))
                      (map fst (loaded_config fs args))
               else map fst (loaded_config fs args)).
  assert (Hsel : select_keys args (map fst (loaded_config fs args)) = Ret roks)
    by by apply select_keys_enable.
  assert (Hrok : rok ∈ roks).
  { assert (Hkey : rok ∈ map fst (loaded_config fs args))
      by (apply dict_get_is_Some; by eexists).
    unfold roks. destruct (truthy (args_dir_config_enable args)); [|done].
    apply elem_of_List_filter. split; [done|]. apply bool_decide_eq_true_2. by apply Hen. }
  rewrite (io_bind_fst _ _ roks) by (cbn [lift snd]; exact Hsel). cbn [lift fst app].
  destruct roks as [|rok0 roks'] eqn:Hroks; [by apply elem_of_nil in Hrok|].
  rewrite <- Hroks in *. rewrite (io_bind_fst _ _ tt); cycle 1.
  { apply io_for_returns. intros rok' Hrok'. rewrite io_bind_snd. cbn [lift snd].
    apply (select_keys_ret _ _ _ Hsel), dict_get_is_Some in Hrok' as [g Hg].
    unfold getitem. rewrite Hg. apply io_for_returns.
    intros [n p] _. by destruct (find_mutual_files fs [dir1; dir2] p None). }
  apply elem_of_app. left.
  apply (elem_of_io_for_2 _ _ rok); [|done|].
  - intros rok' Hrok'. rewrite io_bind_snd. cbn [lift snd].
    apply (select_keys_ret _ _ _ Hsel), dict_get_is_Some in Hrok' as [g Hg].
    unfold getitem. rewrite Hg. apply io_for_returns.
    intros [n p] _. by destruct (find_mutual_files fs [dir1; dir2] p None).
  - rewrite (io_bind_fst _ _ group) by (cbn [lift snd]; unfold getitem; by rewrite Hgroup).
    cbn [lift fst app].
    apply (elem_of_io_for_2 _ _ (name', path)); [|done|].
    + intros [n p] _. by destruct (find_mutual_files fs [dir1; dir2] p None).
    + destruct (find_mutual_files fs [dir1; dir2] path None); [done|].
      apply list_elem_of_here.
Qed.

Lemma rel_val_sim_dirs_dispatch_complete_witness :
  RelValFiles
    (map (os_path_join "A") (find_mutual_files fs_trees ["A"; "B"] "*.root" None))
    (map (os_path_join "B") (find_mutual_files fs_trees ["A"; "B"] "*.root" None))
    (os_path_join (os_path_join (args_output (example_args (1 # 10) (Some ["qc"]) None))
                                "qc") "tpc")
  ∈ (rel_val_sim_dirs fs_trees (example_args (1 # 10) (Some ["qc"]) None)).1.
Proof.
  apply (rel_val_sim_dirs_dispatch_complete fs_trees
           (example_args (1 # 10) (Some ["qc"]) None) "A" "B" "qc" "tpc" "*.root"
           {| cd_directories := ["A"; "B"];
              cd_files := [("hits.root", [201; 100]%Z)];
              cd_threshold := 1 # 2 |}
           [("tpc", "*.root")]).
  - reflexivity.
  - reflexivity.
  - vm_compute. reflexivity.
  - reflexivity.
  - intros _. apply list_elem_of_here.
  - vm_compute. reflexivity.
  - apply list_elem_of_here.
  - vm_compute. discriminate.
Defined.

(** ** Summary aggregator: the order of the keys *)

Lemma dict_set_keys_prefix {V : Type} (d : dict V) (k : string) (v : V) :
  d.*1 `prefix_of` (dict_set d k v).*1.
Proof.
  rewrite dict_set_keys. destruct (decide (k ∈ d.*1)); [done|]. by apply prefix_app_r.
Qed.

Lemma merge_document_keys_prefix (fs : filesystem) (in_dir path : string)
    (summary : dict (list TestOutcome)) :
  summary.*1 `prefix_of` (merge_document fs in_dir summary path).*1.
Proof.
  unfold merge_document.
  apply (fold_left_invariant (fun s => summary.*1 `prefix_of` s.*1)); [|done].
  intros s [k v] _ Hs. etrans; [done|]. apply dict_set_keys_prefix.
Qed.

Lemma merged_keys_prefix (fs : filesystem) (in_dir : string) (paths : list string)
    (summary : dict (list TestOutcome)) :
  summary.*1 `prefix_of` (fold_left (merge_document fs in_dir) paths summary).*1.
Proof.
  apply (fold_left_invariant (fun s => summary.*1 `prefix_of` s.*1)); [|done].
  intros s path _ Hs. etrans; [done|]. apply merge_document_keys_prefix.
Qed.

Lemma fold_set_keys_fresh {V W : Type} (f : string -> V -> W) (d : dict V) (acc : dict W) :
  NoDup (acc.*1 ++ d.*1) ->
  (fold_left (fun s '(k, v) => dict_set s k (f k v)) d acc).*1 = acc.*1 ++ d.*1.
Proof.
  revert acc. induction d as [|[k v] d IH]; intros acc Hnd; cbn [fold_left].
  - by rewrite app_nil_r.
  - assert (Hk : k ∉ acc.*1).
    { apply NoDup_app in Hnd as (_ & Hdisj & _). intros Hk. apply (Hdisj k Hk).
      csimpl. apply list_elem_of_here. }
    rewrite IH; rewrite dict_set_keys, decide_False by done; csimpl;
      rewrite <- app_assoc; done.
Qed.

(** X27: the artifacts of the first result document head the merged
    summary, in the order they have in that document; a later document
    that holds one of them replaces its outcomes without moving it, and
    new artifacts are added behind. *)
Theorem make_summary_first_keys (fs : filesystem) (in_dir first : string)
    (later : list string) :
  glob fs (in_dir +:+ "/**/Summary.json") = first :: later ->
  (json_object (load_summary fs first)).*1 `prefix_of` (make_summary fs in_dir).*1.
Proof.
  intros Hglob. unfold make_summary. rewrite Hglob. cbn [fold_left].
  assert (Hfirst : (merge_document fs in_dir [] first).*1 =
                   (json_object (load_summary fs first)).*1).
  { unfold merge_document.
    rewrite (fold_set_keys_fresh
               (fun k tests => map (annotate_from fs in_dir first k) tests)); [done|].
    apply json_object_NoDup. }
  rewrite <- Hfirst. apply merged_keys_prefix.
Qed.

Lemma make_summary_first_keys_witness :
  (json_object (load_summary fs_collision "out/g1/a/Summary.json")).*1
    `prefix_of` (make_summary fs_collision "out").*1.
Proof.
  apply (make_summary_first_keys fs_collision "out" "out/g1/a/Summary.json"
           ["out/g2/Summary.json"]).
  reflexivity.
Defined.
